(** * english-tutor: the word-list parser and the audio composer

    A shallow embedding of [utils/word_parser.py] (class [WordParser]) and
    [utils/audio_generator.py] (class [AudioGenerator]), of
    [utils/database.py] (class [DatabaseManager]) and of [create_document]
    of [utils/word_generator.py], followed by their properties.

    Python [str] values are sequences of Unicode code points; they are
    modelled as lists of code points.  The character tables of the Python
    runtime (white space, decimal digits, case) are not part of the program
    and are taken as a parameter, the class [Unicode]; a finite fragment of
    them, [latin], is used to evaluate the code on concrete inputs. *)

From Stdlib Require Import List Bool Arith NArith ZArith QArith Lia.
From Stdlib Require Import Ascii String.
From Stdlib Require DecimalN DecimalPos.
Import ListNotations.
Close Scope Q_scope.

Set Implicit Arguments.

(* ------------------------------------------------------------------ *)
(** * Python strings *)

Module Text.

Definition char := N.
Definition str := list char.

(** Literals: a Rocq string holds the UTF-8 bytes of the text; [u] decodes
    them into code points. *)
Fixpoint utf8_decode (bs : list N) : str :=
  match bs with
  | [] => []
  | b :: r =>
    if (b <? 128)%N then b :: utf8_decode r
    else match r with
    | [] => [b]
    | b2 :: r2 =>
      if (b <? 224)%N then ((b - 192) * 64 + (b2 - 128))%N :: utf8_decode r2
      else match r2 with
      | [] => [b; b2]
      | b3 :: r3 =>
        if (b <? 240)%N
        then ((b - 224) * 4096 + (b2 - 128) * 64 + (b3 - 128))%N :: utf8_decode r3
        else match r3 with
        | [] => [b; b2; b3]
        | b4 :: r4 =>
          ((b - 240) * 262144 + (b2 - 128) * 4096 + (b3 - 128) * 64 + (b4 - 128))%N
            :: utf8_decode r4
        end
      end
    end
  end.

Definition u (s : string) : str :=
  utf8_decode (map N_of_ascii (list_ascii_of_string s)).

Definition NL : char := 10%N.

(** The tables of the runtime that the program consults. *)
Class Unicode := {
  (** [str.isspace] of one character; also the class [\s] of [re] *)
  isspace : char -> bool;
  (** the value of a decimal digit (category Nd); [\d] of [re], and [int] *)
  decimal : char -> option N;
  (** upper-case characters, as counted by [str.isupper] *)
  is_upper : char -> bool;
  (** lower-case or title-case characters, which make [str.isupper] false *)
  is_lower_or_title : char -> bool;
  (** the lower-case mapping of one character, as used by [str.lower]
      (the Final_Sigma rule, which only chooses between the two lower-case
      sigmas, is not modelled) *)
  lower_ch : char -> str
}.

Definition eqb_str (a b : str) : bool :=
  if list_eq_dec N.eq_dec a b then true else false.

Definition is_empty (s : str) : bool :=
  match s with [] => true | _ => false end.

(** [p in s] for a one-character [p] *)
Definition has_char (c : char) (s : str) : bool := existsb (N.eqb c) s.

Fixpoint startswith (p s : str) : bool :=
  match p, s with
  | [], _ => true
  | _ :: _, [] => false
  | a :: p', b :: s' => (a =? b)%N && startswith p' s'
  end.

(** [s.find(p)]: the first index at which [p] occurs, [None] for -1 *)
Fixpoint find (p s : str) : option nat :=
  if startswith p s then Some 0
  else match s with
       | [] => None
       | _ :: r => option_map S (find p r)
       end.

(** [p in s] *)
Definition contains (p s : str) : bool :=
  match find p s with Some _ => true | None => false end.

(** [s.split(sep)] for a one-character separator *)
Fixpoint split (sep : char) (s : str) : list str :=
  match s with
  | [] => [[]]
  | c :: r =>
    if (c =? sep)%N then [] :: split sep r
    else match split sep r with
         | h :: t => (c :: h) :: t
         | [] => [[c]]
         end
  end.

(** [sep.join(parts)] *)
Fixpoint join (sep : str) (parts : list str) : str :=
  match parts with
  | [] => []
  | [p] => p
  | p :: rest => p ++ sep ++ join sep rest
  end.

(** [str(n)] for a natural number: its decimal digits *)
Definition digit_char (d : N) : char := (48 + d)%N.

Fixpoint digits_of_uint (d : Decimal.uint) : str :=
  match d with
  | Decimal.Nil => []
  | Decimal.D0 r => digit_char 0 :: digits_of_uint r
  | Decimal.D1 r => digit_char 1 :: digits_of_uint r
  | Decimal.D2 r => digit_char 2 :: digits_of_uint r
  | Decimal.D3 r => digit_char 3 :: digits_of_uint r
  | Decimal.D4 r => digit_char 4 :: digits_of_uint r
  | Decimal.D5 r => digit_char 5 :: digits_of_uint r
  | Decimal.D6 r => digit_char 6 :: digits_of_uint r
  | Decimal.D7 r => digit_char 7 :: digits_of_uint r
  | Decimal.D8 r => digit_char 8 :: digits_of_uint r
  | Decimal.D9 r => digit_char 9 :: digits_of_uint r
  end.

Definition str_of_N (n : N) : str := digits_of_uint (N.to_uint n).

Section WithTables.
Context {U : Unicode}.

Fixpoint lstrip (s : str) : str :=
  match s with
  | [] => []
  | c :: r => if isspace c then lstrip r else s
  end.

Definition rstrip (s : str) : str := rev (lstrip (rev s)).

(** [s.strip()] *)
Definition strip (s : str) : str := rstrip (lstrip s).

(** [s.lower()] *)
Definition lower (s : str) : str := flat_map lower_ch s.

(** [s.isupper()]: no lower-case or title-case character, and at least one
    upper-case one *)
Fixpoint isupper_from (cased : bool) (s : str) : bool :=
  match s with
  | [] => cased
  | c :: r =>
    if is_lower_or_title c then false
    else isupper_from (cased || is_upper c) r
  end.

Definition isupper (s : str) : bool := isupper_from false s.

Definition is_digit (c : char) : bool :=
  match decimal c with Some _ => true | None => false end.

(** [int(s)] for a string of decimal digits *)
Definition int_of_digits (s : str) : N :=
  fold_left (fun acc c =>
               (acc * 10 + match decimal c with Some d => d | None => 0 end)%N)
            s 0%N.

End WithTables.

(** A fragment of the tables: all white space, the ASCII digits, and the
    case of the ASCII and the Polish letters.  Other characters are taken
    as caseless and as no digits. *)
Definition latin_isspace (c : char) : bool :=
  ((9 <=? c) && (c <=? 13) || (28 <=? c) && (c <=? 32) || (c =? 133)
   || (c =? 160) || (c =? 5760) || (8192 <=? c) && (c <=? 8202)
   || (c =? 8232) || (c =? 8233) || (c =? 8239) || (c =? 8287)
   || (c =? 12288))%N.

Definition latin_decimal (c : char) : option N :=
  if ((48 <=? c) && (c <=? 57))%N then Some (c - 48)%N else None.

Definition polish_upper : list char :=
  [211; 260; 262; 280; 321; 323; 346; 377; 379]%N.

Definition polish_lower : list char :=
  [243; 261; 263; 281; 322; 324; 347; 378; 380]%N.

Definition latin_is_upper (c : char) : bool :=
  ((65 <=? c) && (c <=? 90))%N || existsb (N.eqb c) polish_upper.

Definition latin_is_lower (c : char) : bool :=
  ((97 <=? c) && (c <=? 122))%N || existsb (N.eqb c) polish_lower.

Definition latin_lower_ch (c : char) : str :=
  if ((65 <=? c) && (c <=? 90))%N then [(c + 32)%N]
  else if (c =? 211)%N then [243%N]
  else if existsb (N.eqb c) polish_upper then [(c + 1)%N]
  else [c].

Definition latin : Unicode := {|
  isspace := latin_isspace;
  decimal := latin_decimal;
  is_upper := latin_is_upper;
  is_lower_or_title := latin_is_lower;
  lower_ch := latin_lower_ch
|}.

End Text.

Import Text.

(* ------------------------------------------------------------------ *)
(** * Regular expressions

    The patterns of the parser are sequences of character classes, each
    taken once or repeated (greedily or lazily), with capture groups and
    the end anchor.  [run] is the backtracking matcher of [re.match]: it
    is anchored at the start of the subject, tries the repetition counts
    of each item in the order of its priority (longest first when greedy,
    shortest first when lazy), and returns the first complete match. *)

Module Regex.

Inductive item :=
| One (p : char -> bool)                 (* one character of a class *)
| Many (p : char -> bool) (least : nat) (greedy : bool)
                                         (* [p*], [p+], [p+?] *)
| Open                                   (* [(] *)
| Close                                  (* [)] *)
| Caret                                  (* [^] *)
| Dollar.                                (* [$] *)

Definition pattern := list item.

(** A match in progress: the starts of the groups that are open, and the
    spans of the groups closed so far, in the order of their closing. *)
Record caps := { opened : list nat; closed : list (nat * nat) }.

Definition no_caps : caps := {| opened := []; closed := [] |}.

Section Repeat.
Variable p : char -> bool.
Variable k : nat -> str -> option caps.    (* the rest of the pattern *)

Fixpoint many_lazy (least pos : nat) (s : str) {struct s} : option caps :=
  match least with
  | S l =>
    match s with
    | c :: r => if p c then many_lazy l (S pos) r else None
    | [] => None
    end
  | O =>
    match k pos s with
    | Some m => Some m
    | None =>
      match s with
      | c :: r => if p c then many_lazy 0 (S pos) r else None
      | [] => None
      end
    end
  end.

Fixpoint many_greedy (least pos : nat) (s : str) {struct s} : option caps :=
  match s with
  | c :: r =>
    if p c then
      match many_greedy (pred least) (S pos) r with
      | Some m => Some m
      | None => match least with O => k pos s | S _ => None end
      end
    else match least with O => k pos s | S _ => None end
  | [] => match least with O => k pos s | S _ => None end
  end.

End Repeat.

Fixpoint exec (pat : pattern) (pos : nat) (s : str) (m : caps) : option caps :=
  match pat with
  | [] => Some m
  | One p :: rest =>
    match s with
    | c :: r => if p c then exec rest (S pos) r m else None
    | [] => None
    end
  | Many p least greedy :: rest =>
    (if greedy then many_greedy else many_lazy)
      p (fun pos' s' => exec rest pos' s' m) least pos s
  | Open :: rest =>
    exec rest pos s {| opened := pos :: opened m; closed := closed m |}
  | Close :: rest =>
    match opened m with
    | b :: o => exec rest pos s {| opened := o; closed := closed m ++ [(b, pos)] |}
    | [] => None
    end
  | Caret :: rest =>
    match pos with
    | O => exec rest pos s m
    | S _ => None
    end
  | Dollar :: rest =>
    match s with
    | [] => exec rest pos s m
    | [c] => if (c =? NL)%N then exec rest pos s m else None
    | _ => None
    end
  end.

Definition substr (s : str) (span : nat * nat) : str :=
  firstn (snd span - fst span) (skipn (fst span) s).

(** [re.match(pat, s)]: the captured groups, [None] when there is no match *)
Definition run (pat : pattern) (s : str) : option (list str) :=
  match exec pat 0 s no_caps with
  | Some m => Some (map (substr s) (closed m))
  | None => None
  end.

(** [m.group(n)], n >= 1 *)
Definition group (gs : list str) (n : nat) : str := nth (pred n) gs [].

Definition just (c : char) : char -> bool := N.eqb c.
Definition except (c : char) : char -> bool := fun x => negb (N.eqb c x).
Definition either (a b : char) : char -> bool := fun x => N.eqb a x || N.eqb b x.

End Regex.

Import Regex.

(* ------------------------------------------------------------------ *)
(** * utils/word_parser.py *)

Module WordParser.

(** The dictionary built for one entry. *)
Record word := {
  number : N;
  english : str;
  pronunciation : str;
  polish : str;
  example : option str;
  category : option str
}.

Definition set_example (e : option str) (w : word) : word :=
  {| number := number w; english := english w;
     pronunciation := pronunciation w; polish := polish w;
     example := e; category := category w |}.

(** Characters named by the patterns and the format strings. *)
Definition SPACE : char := 32%N.
Definition STAR : char := 42%N.     (* * *)
Definition LPAREN : char := 40%N.   (* ( *)
Definition RPAREN : char := 41%N.   (* ) *)
Definition HYPHEN : char := 45%N.   (* - *)
Definition PERIOD : char := 46%N.   (* . *)
Definition COLON : char := 58%N.    (* : *)
Definition EN_DASH : char := 8211%N.  (* U+2013 *)
Definition ex_colon : str := [101; 120; 58]%N.   (* 'ex:' *)

(** [.] of [re]: any character but the newline *)
Definition dot : char -> bool := except NL.

(** The loop variables of [parse_text] and [parse_document]. *)
Record pstate := {
  words : list word;
  current_category : option str;
  current_word : option word
}.

Definition start : pstate :=
  {| words := []; current_category := None; current_word := None |}.

(** [if current_word: words.append(current_word)] *)
Definition flush (st : pstate) : list word :=
  match current_word st with
  | Some w => words st ++ [w]
  | None => words st
  end.

Definition with_category (c : str) (st : pstate) : pstate :=
  {| words := words st; current_category := Some c;
     current_word := current_word st |}.

Definition with_example (e : str) (w : word) (st : pstate) : pstate :=
  {| words := words st; current_category := current_category st;
     current_word := Some (set_example (Some e) w) |}.

Section WithTables.
Context {U : Unicode}.

(** [r'(\d+)\.\s+(.+?)\s*\(([^)]+)\)\s*[–-]\s*(.+)'] *)
Definition word_pattern : pattern :=
  [ Open; Many is_digit 1 true; Close; One (just PERIOD);
    Many isspace 1 true;
    Open; Many dot 1 false; Close;
    Many isspace 0 true; One (just LPAREN);
    Open; Many (except RPAREN) 1 true; Close; One (just RPAREN);
    Many isspace 0 true; One (either EN_DASH HYPHEN);
    Many isspace 0 true;
    Open; Many dot 1 true; Close ].

(** [r'^ex:\s*(.+)$'], used with [re.IGNORECASE] *)
Definition example_pattern : pattern :=
  [ Caret; One (either 101%N 69%N); One (either 120%N 88%N); One (just COLON);
    Many isspace 0 true;
    Open; Many dot 1 true; Close; Dollar ].

(** [r'^-+$'] *)
Definition separator_pattern : pattern :=
  [ Caret; Many (just HYPHEN) 1 true; Dollar ].

Definition matches (pat : pattern) (s : str) : bool :=
  match run pat s with Some _ => true | None => false end.

(** [not line or re.match(r'^-+$', line)] *)
Definition is_skipped (line : str) : bool :=
  is_empty line || matches separator_pattern line.

(** [line.isupper() and len(line) > 2] *)
Definition is_category (line : str) : bool :=
  isupper line && (2 <? List.length line).

(** The entry opened by a headword line of [parse_text]. *)
Definition text_entry (g : list str) (cat : option str) : word :=
  let polish_text := strip (group g 4) in
  let split_at :=
    match find ex_colon (lower polish_text) with
    | Some ex_pos =>
      (strip (firstn ex_pos polish_text),
       Some (strip (skipn (ex_pos + 3) polish_text)))
    | None => (polish_text, None)
    end in
  {| number := int_of_digits (group g 1);
     english := strip (group g 2);
     pronunciation := strip (group g 3);
     polish := fst split_at;
     example := snd split_at;
     category := cat |}.

(** One turn of the loop of [parse_text]. *)
Definition text_line (st : pstate) (raw : str) : pstate :=
  let line := strip raw in
  if is_skipped line then st
  else if is_category line then with_category line st
  else
    match run word_pattern line with
    | Some g =>
      {| words := flush st;
         current_category := current_category st;
         current_word := Some (text_entry g (current_category st)) |}
    | None =>
      match run example_pattern line, current_word st with
      | Some g, Some w => with_example (strip (group g 1)) w st
      | _, _ =>
        match startswith ex_colon (lower line), current_word st with
        | true, Some w => with_example (strip (skipn 3 line)) w st
        | _, _ => st
        end
      end
    end.

Definition parse_lines (lines : list str) : list word :=
  flush (fold_left text_line lines start).

Definition parse_text (text : str) : list word :=
  parse_lines (split NL (strip text)).

(** The entry opened by a headword of [parse_document]. *)
Definition document_entry (g : list str) (example_text : option str)
    (cat : option str) : word :=
  {| number := int_of_digits (group g 1);
     english := strip (group g 2);
     pronunciation := strip (group g 3);
     polish := strip (group g 4);
     example := example_text;
     category := cat |}.

(** The branch [if '\n' in text] of [parse_document]: [Some] of the next
    state when it ends in [continue]. *)
Definition paired_paragraph (st : pstate) (text : str) : option pstate :=
  if has_char NL text then
    let lines_in_para := split NL text in
    let word_line := strip (nth 0 lines_in_para []) in
    let example_line :=
      if 1 <? List.length lines_in_para then strip (nth 1 lines_in_para [])
      else [] in
    match run word_pattern word_line with
    | Some g =>
      let example_text :=
        if startswith ex_colon (lower example_line)
        then Some (strip (skipn 3 example_line))
        else None in
      Some {| words := flush st;
              current_category := current_category st;
              current_word :=
                Some (document_entry g example_text (current_category st)) |}
    | None => None
    end
  else None.

(** One turn of the loop of [parse_document]; [para] is [para.text]. *)
Definition document_paragraph (st : pstate) (para : str) : pstate :=
  let text := strip para in
  if is_skipped text then st
  else if is_category text then with_category text st
  else
    match paired_paragraph st text with
    | Some st' => st'
    | None =>
      match run word_pattern text with
      | Some g =>
        {| words := flush st;
           current_category := current_category st;
           current_word :=
             Some (document_entry g None (current_category st)) |}
      | None =>
        match run example_pattern text, current_word st with
        | Some g, Some w => with_example (strip (group g 1)) w st
        | _, _ =>
          match startswith ex_colon (lower text), current_word st with
          | true, Some w =>
            let example_text := strip (skipn 3 text) in
            if is_empty example_text then st else with_example example_text w st
          | _, _ => st
          end
        end
      end
    end.

(** [parse_document], from the paragraphs of the document read by
    [docx.Document]. *)
Definition parse_document (paragraphs : list str) : list word :=
  flush (fold_left document_paragraph paragraphs start).

End WithTables.

(** ** [format_words_for_display] *)

Definition eqb_category (a b : option str) : bool :=
  match a, b with
  | Some x, Some y => eqb_str x y
  | None, None => true
  | _, _ => false
  end.

(** The dictionary [categories]: keys in the order of their first
    insertion. *)
Fixpoint add_to_category (w : word) (categories : list (option str * list word))
  : list (option str * list word) :=
  match categories with
  | [] => [(category w, [w])]
  | (c, ws) :: rest =>
    if eqb_category c (category w) then (c, ws ++ [w]) :: rest
    else (c, ws) :: add_to_category w rest
  end.

Definition group_words (ws : list word) : list (option str * list word) :=
  fold_left (fun categories w => add_to_category w categories) ws [].

(** [f"{number}. **{english}** ({pronunciation}) – {polish}"] *)
Definition entry_line (w : word) : str :=
  str_of_N (number w) ++ [PERIOD; SPACE; STAR; STAR] ++ english w
  ++ [STAR; STAR; SPACE; LPAREN] ++ pronunciation w
  ++ [RPAREN; SPACE; EN_DASH; SPACE] ++ polish w.

(** [f"   *ex: {example}*"] *)
Definition example_line (e : str) : str :=
  [SPACE; SPACE; SPACE; STAR] ++ ex_colon ++ [SPACE] ++ e ++ [STAR].

(** [f"\n**{category}**\n"] *)
Definition category_line (c : str) : str :=
  [NL; STAR; STAR] ++ c ++ [STAR; STAR; NL].

Definition entry_lines (w : word) : list str :=
  entry_line w ::
  match example w with
  | Some ((_ :: _) as e) => [example_line e]
  | _ => []
  end.

Definition category_lines (entry : option str * list word) : list str :=
  match fst entry with
  | Some ((_ :: _) as c) => [category_line c]
  | _ => []
  end ++ flat_map entry_lines (snd entry).

Definition format_words_for_display (ws : list word) : str :=
  join [NL] (flat_map category_lines (group_words ws)).

End WordParser.

Import WordParser.

(* ------------------------------------------------------------------ *)
(** * utils/audio_generator.py *)

Module AudioGenerator.

Definition bytes := list Byte.byte.

(** The audio files of the temporary directory [self._temp_dir]. *)
Inductive path :=
| silence_mp3 (n : nat)     (* silence_{n}.mp3 *)
| audio_mp3 (n : nat)       (* audio_{n}.mp3 *)
| output_mp3.               (* output.mp3 *)

Definition eqb_path (a b : path) : bool :=
  match a, b with
  | silence_mp3 n, silence_mp3 m => n =? m
  | audio_mp3 n, audio_mp3 m => n =? m
  | output_mp3, output_mp3 => true
  | _, _ => false
  end.

Definition is_audio (p : path) : bool :=
  match p with audio_mp3 _ => true | _ => false end.

(** The dictionary [settings]; an absent key is [None]. *)
Record settings := {
  speed : option Q;
  pause_between : option Q;
  repetitions : option Z;
  include_examples : option bool;
  test_mode : option string;
  voice : option string
}.

(** config.py *)
Definition DEFAULT_VOICE : string := "echo".
Definition TEST_PAUSE_DURATION : Q := 2%Q.

(** [d.get(key, default)] *)
Definition get {A} (field : option A) (default : A) : A :=
  match field with Some v => v | None => default end.

(** The processes and services the generator calls.  [text_to_speech] is
    [OpenAIHelper.text_to_speech]: the bytes of the answer, or [None] when
    the call raises.  The two [ffmpeg] runs give their return code and the
    file they leave at the output path, if any; the run of the concat
    demuxer is given the contents of the files listed ([None] for a file
    that does not exist). *)
Record backend := {
  text_to_speech : str -> string -> Q -> option bytes;
  ffmpeg_silence : Q -> Z * option bytes;
  ffmpeg_concat : list (option bytes) -> Z * option bytes
}.

Record tts_call := { tts_text : str; tts_voice : string; tts_speed : Q }.

Record concat_call := {
  concat_inputs : list path;         (* the files listed in filelist.txt *)
  concat_returncode : Z;             (* [result.returncode] *)
  concat_output : option bytes       (* output.mp3 as left by the run *)
}.

(** The generator, the list it is given and the calls it has made.  The
    numbers of the settings are Python floats; the program only passes
    them on and never computes with them, and they are modelled as
    rationals. *)
Record state := {
  stored_words : list word;          (* the list object [words] *)
  _file_counter : nat;
  _temp_dir : list (path * bytes);   (* the files written, newest first *)
  tts_calls : list tts_call;         (* calls of [text_to_speech] *)
  silence_calls : list Q;            (* durations asked of [ffmpeg] *)
  concat_calls : list concat_call    (* runs of the concat demuxer *)
}.

Definition fresh (ws : list word) : state :=
  {| stored_words := ws; _file_counter := 0; _temp_dir := [];
     tts_calls := []; silence_calls := []; concat_calls := [] |}.

Fixpoint read_file (p : path) (dir : list (path * bytes)) : option bytes :=
  match dir with
  | [] => None
  | (q, b) :: rest => if eqb_path p q then Some b else read_file p rest
  end.

(** ** Computations that change the state and may raise *)

Inductive outcome (A : Type) :=
| Returned (a : A)
| Raised.
Arguments Raised {A}.

Definition M (A : Type) := state -> state * outcome A.

Definition ret {A} (a : A) : M A := fun st => (st, Returned a).

Definition raise {A} : M A := fun st => (st, Raised).

Definition bind {A B} (m : M A) (f : A -> M B) : M B :=
  fun st =>
    match m st with
    | (st', Returned a) => f a st'
    | (st', Raised) => (st', Raised)
    end.

Notation "x <- m ;; k" := (bind m (fun x => k))
  (at level 61, m at next level, right associativity).
Notation "m ;;; k" := (bind m (fun _ => k))
  (at level 61, right associativity).

(** [try: body finally: handler] *)
Definition try_finally {A} (body : M A) (handler : M unit) : M A :=
  fun st =>
    match body st with
    | (st', r) => (fst (handler st'), r)
    end.

Definition update (f : state -> state) : M unit := fun st => (f st, Returned tt).

Definition read {A} (f : state -> A) : M A := fun st => (st, Returned (f st)).

Definition set_counter (n : nat) (st : state) : state :=
  {| stored_words := stored_words st; _file_counter := n;
     _temp_dir := _temp_dir st; tts_calls := tts_calls st;
     silence_calls := silence_calls st; concat_calls := concat_calls st |}.

Definition set_temp_dir (d : list (path * bytes)) (st : state) : state :=
  {| stored_words := stored_words st; _file_counter := _file_counter st;
     _temp_dir := d; tts_calls := tts_calls st;
     silence_calls := silence_calls st; concat_calls := concat_calls st |}.

Definition write_file (p : path) (b : bytes) (st : state) : state :=
  set_temp_dir ((p, b) :: _temp_dir st) st.

Definition log_tts (c : tts_call) (st : state) : state :=
  {| stored_words := stored_words st; _file_counter := _file_counter st;
     _temp_dir := _temp_dir st; tts_calls := tts_calls st ++ [c];
     silence_calls := silence_calls st; concat_calls := concat_calls st |}.

Definition log_silence (d : Q) (st : state) : state :=
  {| stored_words := stored_words st; _file_counter := _file_counter st;
     _temp_dir := _temp_dir st; tts_calls := tts_calls st;
     silence_calls := silence_calls st ++ [d]; concat_calls := concat_calls st |}.

Definition log_concat (c : concat_call) (st : state) : state :=
  {| stored_words := stored_words st; _file_counter := _file_counter st;
     _temp_dir := _temp_dir st; tts_calls := tts_calls st;
     silence_calls := silence_calls st; concat_calls := concat_calls st ++ [c] |}.

(** [self._file_counter += 1], giving the new value *)
Definition next_counter : M nat :=
  update (fun st => set_counter (S (_file_counter st)) st) ;;;
  read _file_counter.

Section Generator.
Context {U : Unicode}.
Variable B : backend.

(** [_generate_silence]: the return code of [ffmpeg] is only printed, and
    the path is returned whether or not the file was written. *)
Definition _generate_silence (duration_sec : Q) : M path :=
  n <- next_counter ;;
  let path := silence_mp3 n in
  update (log_silence duration_sec) ;;;
  match snd (ffmpeg_silence B duration_sec) with
  | Some b => update (write_file path b)
  | None => ret tt
  end ;;;
  ret path.

(** [_text_to_file]: an exception of the speech service is not caught. *)
Definition _text_to_file (text : str) (speed : Q) (voice : string) : M path :=
  n <- next_counter ;;
  let path := audio_mp3 n in
  update (log_tts {| tts_text := text; tts_voice := voice; tts_speed := speed |}) ;;;
  match text_to_speech B text voice speed with
  | Some audio_bytes => update (write_file path audio_bytes) ;;; ret path
  | None => raise
  end.

Definition is_mode (test_mode : option string) (name : string) : bool :=
  match test_mode with
  | Some m => String.eqb m name
  | None => false
  end.

(** [_generate_word_files]: the files of one entry, by learning mode. *)
Definition _generate_word_files (english polish example : str)
    (include_examples : bool) (test_mode : option string)
    (speed : Q) (voice : string) (silence_1s silence_test : path)
  : M (list path) :=
  if is_mode test_mode "pl_to_en" then
    f1 <- _text_to_file polish speed voice ;;
    f2 <- _text_to_file english speed voice ;;
    ret [f1; silence_test; f2]
  else if is_mode test_mode "en_to_pl" then
    f1 <- _text_to_file english speed voice ;;
    f2 <- _text_to_file polish speed voice ;;
    ret [f1; silence_test; f2]
  else
    f1 <- _text_to_file english speed voice ;;
    f2 <- _text_to_file polish speed voice ;;
    if include_examples && negb (is_empty example) then
      f3 <- _text_to_file example speed voice ;;
      ret [f1; silence_1s; f2; silence_1s; f3]
    else ret [f1; silence_1s; f2].

(** [_concat_files]: the files are listed in filelist.txt for the run of
    [ffmpeg]; its return code is only printed. *)
Definition _concat_files (file_list : list path) (output_path : path) : M unit :=
  dir <- read _temp_dir ;;
  let result := ffmpeg_concat B (map (fun p => read_file p dir) file_list) in
  update (log_concat {| concat_inputs := file_list;
                        concat_returncode := fst result;
                        concat_output := snd result |}) ;;;
  match snd result with
  | Some b => update (write_file output_path b)
  | None => ret tt
  end.

(** [_cleanup]: [shutil.rmtree] of the temporary directory. *)
Definition _cleanup : M unit := update (set_temp_dir []).

(** [for rep in range(repetitions)] *)
Definition repeated (repetitions : Z) (word_files : list path)
    (silence_1s : path) (file_list : list path) : list path :=
  fold_left
    (fun file_list rep =>
       let file_list := file_list ++ word_files in
       if (Z.of_nat rep <? repetitions - 1)%Z then file_list ++ [silence_1s]
       else file_list)
    (seq 0 (Z.to_nat repetitions)) file_list.

(** [word.get('example') or ''] *)
Definition or_empty (field : option str) : str :=
  match field with Some s => s | None => [] end.

(** The text of the headword that is read aloud. *)
Definition cleaned (english : str) : str :=
  if has_char LPAREN english then strip (hd [] (split LPAREN english))
  else english.

Section Loop.
Variable s : settings.
Variables silence_1s_path silence_between_path silence_test_path : path.
Variable len_words : nat.

(** [for i, word in enumerate(words, 1)], from entry [i] on *)
Fixpoint for_words (i : nat) (ws : list word) (file_list : list path)
  : M (list path) :=
  match ws with
  | [] => ret file_list
  | word :: rest =>
    let english := strip (WordParser.english word) in
    let polish := strip (WordParser.polish word) in
    let example := strip (or_empty (WordParser.example word)) in
    if is_empty english || is_empty polish then for_words (S i) rest file_list
    else
      let english := cleaned english in
      word_files <- _generate_word_files english polish example
                      (get (include_examples s) true) (test_mode s)
                      (get (speed s) 1%Q) (get (voice s) DEFAULT_VOICE)
                      silence_1s_path silence_test_path ;;
      let file_list :=
        repeated (get (repetitions s) 1%Z) word_files silence_1s_path file_list in
      let file_list :=
        if i <? len_words then file_list ++ [silence_between_path]
        else file_list in
      for_words (S i) rest file_list
  end.

End Loop.

(** [generate_audio(words, settings)]; [words] is read from the state,
    where the list object is kept so that a write to it would show. *)
Definition generate_audio (s : settings) : M bytes :=
  words <- read stored_words ;;
  update (set_temp_dir []) ;;;
  update (set_counter 0) ;;;
  try_finally
    (silence_1s_path <- _generate_silence 1%Q ;;
     silence_between_path <- _generate_silence (get (pause_between s) 2%Q) ;;
     silence_test_path <- _generate_silence TEST_PAUSE_DURATION ;;
     file_list <- for_words s silence_1s_path silence_between_path
                    silence_test_path (List.length words) 1 words [] ;;
     let output_path := output_mp3 in
     _concat_files file_list output_path ;;;
     dir <- read _temp_dir ;;
     match read_file output_path dir with
     | Some buffer => ret buffer
     | None => ret []
     end)
    _cleanup.

(** A call of [generate_audio(words, settings)] on a new generator. *)
Definition call_generate_audio (ws : list word) (s : settings)
  : state * outcome bytes :=
  generate_audio s (fresh ws).

End Generator.

(** The segments handed to the concat demuxer by the last run. *)
Definition file_list_of (st : state) : list path :=
  match concat_calls st with
  | [] => []
  | c :: _ => concat_inputs c
  end.

End AudioGenerator.

Import AudioGenerator.

(* ------------------------------------------------------------------ *)
(** * Vocabulary of the properties *)

Section Vocabulary.
Context {U : Unicode}.

(** Lines as [parse_text] classifies them. *)
Definition is_header (raw : str) : bool :=
  negb (is_skipped (strip raw)) && is_category (strip raw).

Definition is_headword (raw : str) : bool :=
  negb (is_skipped (strip raw)) && negb (is_category (strip raw))
  && matches word_pattern (strip raw).

Definition count_headwords (lines : list str) : nat :=
  List.length (filter is_headword lines).

(** The categories of the entries of some lines, when the category in
    force before them is [cat]: a header replaces it, a headword line
    takes it. *)
Fixpoint sticky (cat : option str) (lines : list str) : list (option str) :=
  match lines with
  | [] => []
  | l :: rest =>
    if is_header l then sticky (Some (strip l)) rest
    else if is_headword l then cat :: sticky cat rest
    else sticky cat rest
  end.

(** An entry that [generate_audio] does not skip. *)
Definition valid (w : word) : bool :=
  negb (is_empty (strip (english w)) || is_empty (strip (polish w))).

(** An entry that is not skipped and has an example to read. *)
Definition complete (w : word) : Prop :=
  valid w = true /\ is_empty (strip (or_empty (example w))) = false.

(** What [generate_audio] reads of an entry. *)
Definition audio_view (w : word) : str * str * str :=
  (strip (english w), strip (polish w), strip (or_empty (example w))).

(** The texts read aloud for one entry that is not skipped, in order. *)
Definition phrases (s : settings) (w : word) : list str :=
  let en := cleaned (strip (english w)) in
  let pl := strip (polish w) in
  let ex := strip (or_empty (example w)) in
  if is_mode (test_mode s) "pl_to_en" then [pl; en]
  else if is_mode (test_mode s) "en_to_pl" then [en; pl]
  else if get (include_examples s) true && negb (is_empty ex) then [en; pl; ex]
  else [en; pl].

Definition spoken (s : settings) (ws : list word) : list str :=
  flat_map (fun w => if valid w then phrases s w else []) ws.

End Vocabulary.

Definition call_for (s : settings) (text : str) : tts_call :=
  {| tts_text := text;
     tts_voice := get (voice s) DEFAULT_VOICE;
     tts_speed := get (speed s) 1%Q |}.

(** A speech service that answers every call. *)
Definition tts_total (B : backend) : Prop :=
  forall text v sp, text_to_speech B text v sp <> None.

Definition speech_segments (file_list : list path) : nat :=
  List.length (filter is_audio file_list).

(** The pause between entries is the second silence of a run. *)
Definition pauses_between (file_list : list path) : nat :=
  List.length (filter (eqb_path (silence_mp3 2)) file_list).

(** An invariant of the state that a computation keeps, whether it returns
    or raises. *)
Definition keeps (I : state -> Prop) {A} (m : M A) : Prop :=
  forall st, I st -> I (fst (m st)).

(** The state after [texts] have been synthesized with the settings [s],
    the files written apart. *)
Definition spoke (s : settings) (text : str) (st : state) : state :=
  log_tts (call_for s text) (set_counter (S (_file_counter st)) st).

Definition advance (s : settings) (texts : list str) (st : state) : state :=
  fold_left (fun st text => spoke s text st) texts st.

(** The state of a run after its three silences are generated; [dir]
    holds the silence files that [ffmpeg] has written. *)
Definition after_silences (ws : list word) (s : settings)
    (dir : list (path * bytes)) : state :=
  {| stored_words := ws; _file_counter := 3; _temp_dir := dir;
     tts_calls := [];
     silence_calls := [1%Q; get (pause_between s) 2%Q; TEST_PAUSE_DURATION];
     concat_calls := [] |}.

Section Plan.
Context {U : Unicode}.
Variable s : settings.
Variables silence_1s_path silence_between_path silence_test_path : path.
Variable len_words : nat.

(** The files of one entry when every synthesis succeeds, [counter] being
    the file counter before the entry. *)
Definition word_paths (counter : nat) (w : word) : list path :=
  let f1 := audio_mp3 (1 + counter) in
  let f2 := audio_mp3 (2 + counter) in
  let f3 := audio_mp3 (3 + counter) in
  if is_mode (test_mode s) "pl_to_en" then [f1; silence_test_path; f2]
  else if is_mode (test_mode s) "en_to_pl" then [f1; silence_test_path; f2]
  else if get (include_examples s) true
          && negb (is_empty (strip (or_empty (example w))))
       then [f1; silence_1s_path; f2; silence_1s_path; f3]
       else [f1; silence_1s_path; f2].

(** The list built by the loop of [generate_audio] when every synthesis
    succeeds. *)
Fixpoint plan (i counter : nat) (ws : list word) (file_list : list path)
  : list path :=
  match ws with
  | [] => file_list
  | w :: rest =>
    if valid w then
      let file_list :=
        repeated (get (repetitions s) 1%Z) (word_paths counter w)
                 silence_1s_path file_list in
      let file_list :=
        if i <? len_words then file_list ++ [silence_between_path]
        else file_list in
      plan (S i) (List.length (phrases s w) + counter) rest file_list
    else plan (S i) counter rest file_list
  end.

End Plan.

(** The buffer returned for the output file: empty when it is missing. *)
Definition buffer_of (output : option bytes) : bytes :=
  match output with Some b => b | None => [] end.

(** The directory after a run of [ffmpeg] that was to write [p]. *)
Definition written (p : path) (output : option bytes)
    (dir : list (path * bytes)) : list (path * bytes) :=
  match output with Some b => (p, b) :: dir | None => dir end.

(** The directory once the three silences of a run are generated. *)
Definition silence_dir (B : backend) (s : settings) : list (path * bytes) :=
  written (silence_mp3 3) (snd (ffmpeg_silence B TEST_PAUSE_DURATION))
    (written (silence_mp3 2) (snd (ffmpeg_silence B (get (pause_between s) 2%Q)))
       (written (silence_mp3 1) (snd (ffmpeg_silence B 1%Q)) [])).

(** The same state around another list object. *)
Definition with_words (ws : list word) (st : state) : state :=
  {| stored_words := ws; _file_counter := _file_counter st;
     _temp_dir := _temp_dir st; tts_calls := tts_calls st;
     silence_calls := silence_calls st; concat_calls := concat_calls st |}.

(** A computation that neither reads nor writes the list object. *)
Definition oblivious {A} (m : M A) : Prop :=
  forall ws st, m (with_words ws st) = (with_words ws (fst (m st)), snd (m st)).

(** A directory in which output.mp3 does not exist. *)
Definition no_output (dir : list (path * bytes)) : Prop :=
  read_file output_mp3 dir = None.

(** The body of [generate_audio] from the loop on, that is, after the
    three silences. *)
Definition assemble {U : Unicode} (B : backend) (s : settings)
    (ws : list word) : M bytes :=
  file_list <- for_words B s (silence_mp3 1) (silence_mp3 2) (silence_mp3 3)
                 (List.length ws) 1 ws [] ;;
  _concat_files B file_list output_mp3 ;;;
  dir <- read _temp_dir ;;
  match read_file output_mp3 dir with
  | Some buffer => ret buffer
  | None => ret []
  end.

(** What a run shows to the outside: the calls made and the counter. *)
Definition observed (st : state) :=
  (tts_calls st, silence_calls st, concat_calls st, _file_counter st).

(** ** The text shown, read back *)

(** What is asked of the tables of the runtime, all of it true of Unicode. *)
Record Tables_ok (U : Unicode) : Prop := {
  space_is_space : isspace SPACE = true;
  star_no_space : isspace STAR = false;
  lparen_no_space : isspace LPAREN = false;
  dash_no_space : isspace EN_DASH = false;
  digit_value : forall d, (d < 10)%N -> decimal (digit_char d) = Some d;
  digit_no_space : forall d, (d < 10)%N -> isspace (digit_char d) = false;
  period_no_digit : decimal PERIOD = None;
  star_no_digit : decimal STAR = None;
  star_no_case : is_lower_or_title STAR = false;
  e_is_lower : is_lower_or_title 101%N = true;
  star_lower : lower_ch STAR = [STAR]
}.

(** [**text**] *)
Definition bold (t : str) : str := [STAR; STAR] ++ t ++ [STAR; STAR].

(** The entry read back from the line shown for [w], under the category
    [cat] in force. *)
Definition read_back (cat : option str) (w : word) : word :=
  {| number := number w; english := bold (english w);
     pronunciation := pronunciation w; polish := polish w;
     example := None; category := cat |}.

(** The category in force after the header shown for the key [c]. *)
Definition shown_category (cat : option str) (c : option str) : option str :=
  match c with
  | Some ((_ :: _) as c) => Some (bold c)
  | _ => cat
  end.

Fixpoint read_back_groups (cat : option str)
    (groups : list (option str * list word)) : list word :=
  match groups with
  | [] => []
  | (c, ws) :: rest =>
    map (read_back (shown_category cat c)) ws
    ++ read_back_groups (shown_category cat c) rest
  end.

Section Plain.
Context {U : Unicode}.

Definition one_line (t : str) : bool := negb (has_char NL t).

(** [t] is not empty and [t.strip() == t] *)
Definition trimmed (t : str) : bool :=
  negb (is_empty t) && eqb_str (strip t) t.

(** An entry whose fields are such as the line shown for it is read as a
    headword line with these fields. *)
Definition plain (w : word) : bool :=
  one_line (english w) && negb (has_char LPAREN (english w))
  && trimmed (pronunciation w) && one_line (pronunciation w)
  && negb (has_char RPAREN (pronunciation w))
  && trimmed (polish w) && one_line (polish w)
  && negb (contains ex_colon (lower (polish w)))
  && negb (isupper (entry_line w))
  && match example w with Some e => one_line e | None => true end
  && match category w with
     | Some c => one_line c && (is_empty c || isupper c)
     | None => true
     end.

(** A group of the text shown whose entries are plain and whose key, when
    it is shown, is one line in upper case. *)
Definition shown_well (g : option str * list word) : Prop :=
  forallb plain (snd g) = true
  /\ match fst g with
     | Some ((_ :: _) as c) => one_line c = true /\ isupper c = true
     | _ => True
     end.

(** A group as [format_words_for_display] builds them: not empty, under
    the category of its entries. *)
Definition grouped (g : option str * list word) : Prop :=
  snd g <> []
  /\ Forall (fun w => plain w = true /\ category w = fst g) (snd g).

End Plain.

(** ** Inputs of the examples *)

Definition default_settings : settings :=
  {| speed := None; pause_between := None; repetitions := None;
     include_examples := None; test_mode := None; voice := None |}.

(** A speech service and an [ffmpeg] that succeed; the concat run joins
    the files it is given. *)
Definition joined (inputs : list (option bytes)) : bytes :=
  flat_map (fun f => match f with Some b => b | None => [] end) inputs.

Definition working : backend :=
  {| text_to_speech := fun _ _ _ => Some [Byte.x01];
     ffmpeg_silence := fun _ => (0%Z, Some [Byte.x00]);
     ffmpeg_concat := fun inputs => (0%Z, Some (joined inputs)) |}.

(** An [ffmpeg] whose concat run stops with return code 1 after it has
    written the first input. *)
Definition failing_concat : backend :=
  {| text_to_speech := fun _ _ _ => Some [Byte.x01];
     ffmpeg_silence := fun _ => (0%Z, Some [Byte.x00]);
     ffmpeg_concat := fun inputs => (1%Z, Some (joined (firstn 1 inputs))) |}.

Definition twice : settings :=
  {| speed := None; pause_between := None; repetitions := Some 2%Z;
     include_examples := None; test_mode := None; voice := None |}.

(** Settings outside the ranges of the sliders: speed 3.0, pause 10.0. *)
Definition out_of_range : settings :=
  {| speed := Some 3%Q; pause_between := Some 10%Q; repetitions := None;
     include_examples := None; test_mode := None; voice := None |}.

Definition entry (n : N) (en pron pl : string) (ex : option string) : word :=
  {| number := n; english := u en; pronunciation := u pron; polish := u pl;
     example := option_map u ex; category := None |}.

Definition run_entry : word :=
  entry 1 "run" "ran" "biegać" (Some "She runs fast."%string).

Definition light_entry : word := entry 2 "light (adj.)" "lajt" "jasny" None.

(** An entry whose example is blank. *)
Definition spaced_entry : word :=
  entry 4 "lamp" "lamp" "lampa" (Some "   "%string).

Definition scenario_A : str :=
  u "CZASOWNIKI" ++ [NL; NL]
  ++ u "1. run (ran) – biegać" ++ [NL] ++ u "ex: She runs fast." ++ [NL].

(** Two headers, each followed by its entries, after an entry that has no
    header. *)
Definition lines_before : list str := [u "1. go (goł) – iść"].
Definition lines_of_verbs : list str :=
  [ []; u "2. run (ran) – biegać"; u "ex: She runs fast.";
    u "3. eat (it) – jeść" ].
Definition lines_after : list str :=
  [ u "PRZYMIOTNIKI"; u "4. red (red) – czerwony" ].

Definition two_categories : str :=
  join [NL] (lines_before ++ u "CZASOWNIKI" :: lines_of_verbs ++ lines_after).

(** A text whose last entry has its example on the headword line and no
    translation. *)
Definition trailing_skipped : str :=
  u "1. light (lajt) – jasny" ++ [NL] ++ u "2. lamp (lamp) – ex: The lamp is on.".

Definition compressed_entry : str :=
  u "1. run (ran) – biegać ex: She runs fast.".

(* ------------------------------------------------------------------ *)
(** * utils/word_parser.py: the list of the headwords *)

Section WordList.
Context {U : Unicode}.

(** [extract_word_list]:
    [[word['english'].lower() for word in words if word.get('english')]] *)
Definition extract_word_list (ws : list word) : list str :=
  map (fun w => lower (english w))
      (filter (fun w => negb (is_empty (english w))) ws).

End WordList.

(* ------------------------------------------------------------------ *)
(** * utils/database.py *)

Module DatabaseManager.

(** An answer to an HTTP request. *)
Record response (A : Type) := { status_code : nat; body : A }.

(** [response.raise_for_status()] raises for the codes 400 to 599; a
    computation that raises is [None]. *)
Definition raise_for_status {A} (r : response A) : option unit :=
  if (400 <=? status_code r) && (status_code r <? 600) then None else Some tt.

Definition and_then {A B} (m : option A) (f : A -> option B) : option B :=
  match m with Some a => f a | None => None end.

Notation "x <<- m ;; k" := (and_then m (fun x => k))
  (at level 61, m at next level, right associativity).

(** One dictionary of the list of blobs; an absent key is [None]. *)
Record blob := { pathname : option str; url : option str }.

(** The dictionary [history_data] written to the history file. *)
Record history_data := {
  words : list str;
  last_updated : str;
  total_count : nat
}.

(** The storage service, the clock and [json], which the manager calls.
    A request is [None] when [requests] raises; a body read with
    [response.json()] is [None] when that raises.  [json_loads] stands for
    [json.loads(data.decode('utf-8'))] followed by the reading of the key
    ['words'] ([Some None] when the key is absent), [json_dumps] for
    [json.dumps(history_data, ensure_ascii=False, indent=2).encode('utf-8')]. *)
Record web := {
  put : str -> bytes -> option (response (option blob));
  get_listing : option (response (option (option (list blob))));
  get_file : str -> option (response bytes);
  post_delete : str -> option (response unit);
  json_loads : bytes -> option (option (list str));
  json_dumps : history_data -> bytes;
  now_isoformat : str;              (* [datetime.now().isoformat()] *)
  now_date : str                    (* [datetime.now().strftime("%y.%m.%d")] *)
}.

(** [self.history_filename] *)
Definition history_filename : str := u "words_history.json".

(** [s.endswith(suffix)] *)
Definition endswith (suffix s : str) : bool := startswith (rev suffix) (rev s).

Section Manager.
Context {U : Unicode}.
Variable W : web.

Definition upload_file (file_data : bytes) (filename : str) : option blob :=
  response <<- put W filename file_data ;;
  _ <<- raise_for_status response ;;
  body response.

Definition download_file (file_url : str) : option bytes :=
  response <<- get_file W file_url ;;
  _ <<- raise_for_status response ;;
  Some (body response).

Definition list_files : option (list blob) :=
  response <<- get_listing W ;;
  _ <<- raise_for_status response ;;
  data <<- body response ;;
  Some (get data []).

Definition delete_file (file_url : str) : option bool :=
  response <<- post_delete W file_url ;;
  Some (status_code response =? 200).

(** The first file of the list whose path ends with the name of the
    history file. *)
Definition find_history_file (files : list blob) : option blob :=
  List.find (fun f => endswith history_filename (get (pathname f) [])) files.

(** The body of the [try] of [get_words_history]. *)
Definition read_history : option (list str) :=
  files <<- list_files ;;
  match find_history_file files with
  | None => Some []
  | Some history_file =>
    file_url <<- url history_file ;;
    file_data <<- download_file file_url ;;
    history <<- json_loads W file_data ;;
    Some (get history [])
  end.

(** [get_words_history]: any exception gives the empty list. *)
Definition get_words_history : list str :=
  match read_history with
  | Some history => history
  | None => []
  end.

(** One turn of the loop of [add_words_to_history]. *)
Definition add_word (current_words : list str) (word : str) : list str :=
  let word_lower := strip (lower word) in
  if negb (is_empty word_lower)
     && negb (existsb (eqb_str word_lower) current_words)
  then current_words ++ [word_lower]
  else current_words.

Definition merge_words (current_words new_words : list str) : list str :=
  fold_left add_word new_words current_words.

(** The dictionary that [add_words_to_history] writes. *)
Definition history_after (new_words : list str) : history_data :=
  let current_words := merge_words get_words_history new_words in
  {| words := current_words;
     last_updated := now_isoformat W;
     total_count := List.length current_words |}.

(** [add_words_to_history]: [True] when the upload has not raised. *)
Definition add_words_to_history (new_words : list str) : bool :=
  match upload_file (json_dumps W (history_after new_words)) history_filename with
  | Some _ => true
  | None => false
  end.

(** [save_word_document]: the name of the file is made of the date. *)
Definition save_word_document (doc_data : bytes) (topic : str) : option blob :=
  let filename := u "Słówka " ++ now_date W ++ u ".docx" in
  upload_file doc_data filename.

Definition test_connection : bool :=
  match list_files with Some _ => true | None => false end.

End Manager.

End DatabaseManager.

(* ------------------------------------------------------------------ *)
(** * utils/word_generator.py

    [create_document] is followed up to the document that it hands to
    [doc.save]: the sections and the paragraphs of a [docx.Document], with
    the runs of each paragraph. *)

Module WordGenerator.













Section WithTables.
Context {U : Unicode}.

(** [r'^(\d+)\.\s+(.+?)\s*\(([^)]+)\)\s*[–-]\s*(.+)$'] *)
Definition word_pattern : pattern :=
  [ Caret; Open; Many is_digit 1 true; Close; One (just PERIOD);
    Many isspace 1 true;
    Open; Many dot 1 false; Close;
    Many isspace 0 true; One (just LPAREN);
    Open; Many (except RPAREN) 1 true; Close; One (just RPAREN);
    Many isspace 0 true; One (either EN_DASH HYPHEN);
    Many isspace 0 true;
    Open; Many dot 1 true; Close; Dollar ].




End WithTables.

End WordGenerator.

(* ------------------------------------------------------------------ *)
(** * Vocabulary of the further properties *)

Section ParserVocabulary.
Context {U : Unicode}.

(** The category in force after some lines: their last header. *)
Definition category_in_force (lines : list str) : option str :=
  fold_left (fun cat l => if is_header l then Some (strip l) else cat) lines None.

(** The entries of some lines that are read under the category [cat]. *)
Definition parse_under (cat : option str) (lines : list str) : list word :=
  flush (fold_left text_line lines
           {| words := []; current_category := cat; current_word := None |}).

(** An entry whose texts have no white space at their ends. *)
Definition stripped (w : word) : Prop :=
  strip (english w) = english w
  /\ strip (pronunciation w) = pronunciation w
  /\ strip (polish w) = polish w
  /\ forall e, example w = Some e -> strip e = e.

(** A state of the loop whose entries, closed or open, are stripped. *)
Definition all_stripped (st : pstate) : Prop :=
  Forall stripped (words st)
  /\ forall w, current_word st = Some w -> stripped w.

(** A paragraph that [parse_document] and [parse_text] read alike: it is
    skipped or a header, or it holds no line break and is neither a
    headword line with "ex:" in its translation nor a bare "ex:". *)
Definition read_alike (para : str) : bool :=
  let text := strip para in
  is_skipped text || is_category text
  || negb (has_char NL text)
     && match run word_pattern text with
        | Some g => negb (contains ex_colon (lower (strip (group g 4))))
        | None =>
          matches example_pattern text
          || negb (startswith ex_colon (lower text)
                   && is_empty (strip (skipn 3 text)))
        end.

End ParserVocabulary.

(** The state of the loop of [parse_text] with more entries closed before
    it. *)
Definition prepend (before : list word) (st : pstate) : pstate :=
  {| words := before ++ words st; current_category := current_category st;
     current_word := current_word st |}.

(** The entries of [ws] that go under the key [c]. *)
Definition members (c : option str) (ws : list word) : list word :=
  filter (fun w => eqb_category c (category w)) ws.

(** What the dictionary [categories] of [format_words_for_display] is for
    the entries [ws]: its keys are distinct and are the categories of the
    entries, and under each key stand, in their order, the entries of that
    category, at least one. *)
Definition groups_of (ws : list word)
    (categories : list (option str * list word)) : Prop :=
  NoDup (map fst categories)
  /\ (forall c ms, In (c, ms) categories -> ms <> [] /\ ms = members c ws)
  /\ (forall w, In w ws -> In (category w) (map fst categories)).

(** The form under which [add_words_to_history] keeps a word. *)
Definition kept_form {U : Unicode} (word : str) : str := strip (lower word).

(** What [tab_generate_words] of app.py writes to the history for a
    generated text: the headwords of its entries. *)
Definition history_of_text {U : Unicode} (W : DatabaseManager.web)
    (generated_text : str) : DatabaseManager.history_data :=
  DatabaseManager.history_after W (extract_word_list (parse_text generated_text)).


(** ** The run of the generator when the speech service may refuse *)





(** An entry without translation. *)
Definition untranslated_entry : word := entry 5 "lamp" "lamp" "  " None.

(** ** What is handed to the concat run *)

(** [one] taken [n] times, with [pause] between two takes. *)
Fixpoint rounds {A} (n : nat) (one : list A) (pause : A) : list A :=
  match n with
  | 0 => []
  | S n' =>
    match n' with
    | 0 => one
    | S _ => one ++ pause :: rounds n' one pause
    end
  end.

Section Timeline.
Context {U : Unicode}.
Variable B : backend.
Variable s : settings.

(** The answer of the speech service for a text, under the settings. *)
Definition said (text : str) : option bytes :=
  text_to_speech B text (get (voice s) DEFAULT_VOICE) (get (speed s) 1%Q).

(** The three silences, as [ffmpeg] has left them ([None] for a file that
    it has not written). *)
Definition pause_1s : option bytes := snd (ffmpeg_silence B 1%Q).
Definition pause_of_entries : option bytes :=
  snd (ffmpeg_silence B (get (pause_between s) 2%Q)).
Definition pause_of_test : option bytes :=
  snd (ffmpeg_silence B TEST_PAUSE_DURATION).

(** One reading of an entry. *)
Definition reading (w : word) : list (option bytes) :=
  let en := said (cleaned (strip (english w))) in
  let pl := said (strip (polish w)) in
  let ex := strip (or_empty (example w)) in
  if is_mode (test_mode s) "pl_to_en" then [pl; pause_of_test; en]
  else if is_mode (test_mode s) "en_to_pl" then [en; pause_of_test; pl]
  else if get (include_examples s) true && negb (is_empty ex)
       then [en; pause_1s; pl; pause_1s; said ex]
       else [en; pause_1s; pl].

(** The sounds of the entries from the [i]-th on, in a list of [len]
    entries: each entry that is not skipped is read as many times as the
    repetitions say, and is followed by the pause of the entries unless
    it is the last of the list. *)
Fixpoint timeline_from (len i : nat) (ws : list word) : list (option bytes) :=
  match ws with
  | [] => []
  | w :: rest =>
    (if valid w
     then rounds (Z.to_nat (get (repetitions s) 1%Z)) (reading w) pause_1s
          ++ (if i <? len then [pause_of_entries] else [])
     else [])
    ++ timeline_from len (S i) rest
  end.

Definition timeline (ws : list word) : list (option bytes) :=
  timeline_from (List.length ws) 1 ws.

(** The directory after the answers for [texts] are written, [counter]
    being the file counter before. *)
Fixpoint recorded (texts : list str) (counter : nat)
    (dir : list (path * bytes)) : list (path * bytes) :=
  match texts with
  | [] => dir
  | text :: rest =>
    recorded rest (S counter)
             (written (audio_mp3 (S counter)) (said text) dir)
  end.

End Timeline.

(** ** The document written and read *)


(** More of what is true of the tables of Unicode. *)
Record Tables_more (U : Unicode) : Prop := {
  digit_is_no_space : forall c, is_digit c = true -> isspace c = false;
  hyphen_no_digit : decimal HYPHEN = None
}.

Section DocumentVocabulary.
Context {U : Unicode}.




End DocumentVocabulary.


(** An entry whose texts hold no line break, and whose pronunciation
    holds no closing parenthesis. *)
Definition single_line (w : word) : Prop :=
  forallb dot (english w) = true
  /\ forallb dot (pronunciation w) = true
  /\ forallb (except RPAREN) (pronunciation w) = true
  /\ forallb dot (polish w) = true
  /\ forall e, example w = Some e -> forallb dot e = true.

(** A state of the loop of [parse_text] whose entries are such. *)
Definition all_single_line (st : pstate) : Prop :=
  Forall single_line (words st)
  /\ forall w, current_word st = Some w -> single_line w.

(** A line that [parse_text] reads as an example: it is not skipped, no
    header and no headword line, and begins with "ex:" in any case. *)
Definition is_example_line {U : Unicode} (raw : str) : bool :=
  negb (is_skipped (strip raw)) && negb (is_category (strip raw))
  && negb (matches word_pattern (strip raw))
  && startswith ex_colon (lower (strip raw)).

(** A headword line that holds its example: "ex:" stands in what the
    pattern takes for the translation. *)
Definition holds_example {U : Unicode} (raw : str) : bool :=
  match run word_pattern (strip raw) with
  | Some g => contains ex_colon (lower (strip (group g 4)))
  | None => false
  end.

(** A paragraph of two lines: a headword, a line break, its example. *)
Definition paired_entry : str :=
  u "1. run (ran) – biegać" ++ [NL] ++ u "ex: She runs fast.".

(* ------------------------------------------------------------------ *)
(** * Facts about the computations of the generator *)

Section MonadFacts.

Variable I : state -> Prop.

Lemma keeps_ret A (a : A) : keeps I (ret a).
Proof. intros st H. exact H. Qed.

Lemma keeps_raise A : keeps I (@raise A).
Proof. intros st H. exact H. Qed.

Lemma keeps_read A (f : state -> A) : keeps I (read f).
Proof. intros st H. exact H. Qed.

Lemma keeps_update (f : state -> state) :
  (forall st, I st -> I (f st)) -> keeps I (update f).
Proof. intros Hf st H. apply Hf, H. Qed.

Lemma keeps_bind A B (m : M A) (f : A -> M B) :
  keeps I m -> (forall a, keeps I (f a)) -> keeps I (bind m f).
Proof.
  intros Hm Hf st H. unfold bind.
  specialize (Hm st H). destruct (m st) as [st' [a|]]; simpl in *.
  - apply Hf, Hm.
  - exact Hm.
Qed.

Lemma keeps_try_finally A (body : M A) (handler : M unit) :
  keeps I body -> keeps I handler -> keeps I (try_finally body handler).
Proof.
  intros Hb Hh st H. unfold try_finally.
  specialize (Hb st H). destruct (body st) as [st' r]; simpl in *.
  apply Hh, Hb.
Qed.

End MonadFacts.

Lemma bind_run A C (m : M A) (f : A -> M C) (st : state) :
  bind m f st
  = match m st with
    | (st', Returned a) => f a st'
    | (st', Raised) => (st', Raised)
    end.
Proof. reflexivity. Qed.

Create HintDb keeps.

#[local] Hint Resolve keeps_ret keeps_raise keeps_read keeps_bind
  keeps_try_finally : keeps.

Section GeneratorFacts.
Context {U : Unicode}.
Variable B : backend.

Lemma silence_run (d : Q) (st : state) :
  _generate_silence B d st
  = (set_temp_dir
       (written (silence_mp3 (S (_file_counter st)))
                (snd (ffmpeg_silence B d)) (_temp_dir st))
       (log_silence d (set_counter (S (_file_counter st)) st)),
     Returned (silence_mp3 (S (_file_counter st)))).
Proof.
  unfold _generate_silence, next_counter, bind, update, read, ret, written.
  destruct (snd (ffmpeg_silence B d)); reflexivity.
Qed.

Lemma no_output_written_silence (n : nat) (output : option bytes)
    (dir : list (path * bytes)) :
  no_output dir -> no_output (written (silence_mp3 n) output dir).
Proof. destruct output; simpl; auto. Qed.

Lemma no_output_silence_dir (s : settings) : no_output (silence_dir B s).
Proof.
  unfold silence_dir. repeat apply no_output_written_silence. reflexivity.
Qed.

Lemma generate_audio_steps (ws : list word) (s : settings) :
  call_generate_audio B ws s
  = try_finally (assemble B s ws) _cleanup
                (after_silences ws s (silence_dir B s)).
Proof.
  unfold call_generate_audio, generate_audio.
  unfold bind at 1. unfold read at 1. simpl stored_words.
  unfold bind at 1. unfold update at 1.
  unfold bind at 1. unfold update at 1.
  unfold try_finally.
  unfold bind at 1. rewrite silence_run.
  unfold bind at 1. rewrite silence_run.
  unfold bind at 1. rewrite silence_run.
  reflexivity.
Qed.

End GeneratorFacts.

(** Invariants of the state that no step of the loop, of the concat run
    and of the clean-up breaks. *)
Section Invariant.
Context {U : Unicode}.
Variable B : backend.
Variable s : settings.
Variable I : state -> Prop.
Hypothesis I_counter : forall n st, I st -> I (set_counter n st).
Hypothesis I_audio : forall n b st, I st -> I (write_file (audio_mp3 n) b st).
Hypothesis I_tts : forall text st, I st -> I (log_tts (call_for s text) st).

Lemma keeps_next_counter : keeps I next_counter.
Proof.
  unfold next_counter. apply keeps_bind; auto with keeps.
  apply keeps_update. intros st H. apply I_counter, H.
Qed.

Lemma keeps_text_to_file (text : str) :
  keeps I (_text_to_file B text (get (speed s) 1%Q) (get (voice s) DEFAULT_VOICE)).
Proof.
  unfold _text_to_file.
  apply keeps_bind; [apply keeps_next_counter|intros n].
  apply keeps_bind; [apply keeps_update; intros st H; apply (I_tts text), H|intros _].
  destruct (text_to_speech B text _ _); auto with keeps.
  apply keeps_bind; auto with keeps.
  apply keeps_update. intros st H. apply I_audio, H.
Qed.

Lemma keeps_generate_word_files (en pl ex : str) (inc : bool) (s1 s3 : path) :
  keeps I (_generate_word_files B en pl ex inc (test_mode s)
             (get (speed s) 1%Q) (get (voice s) DEFAULT_VOICE) s1 s3).
Proof.
  unfold _generate_word_files.
  destruct (is_mode (test_mode s) "pl_to_en");
    [|destruct (is_mode (test_mode s) "en_to_pl")];
    repeat (apply keeps_bind; [apply keeps_text_to_file|intros ?]);
    auto with keeps.
  destruct (inc && negb (is_empty ex)); auto with keeps.
  apply keeps_bind; [apply keeps_text_to_file|intros ?]; auto with keeps.
Qed.

Lemma keeps_for_words (s1 s2 s3 : path) (n : nat) (ws : list word) :
  forall i file_list, keeps I (for_words B s s1 s2 s3 n i ws file_list).
Proof.
  induction ws as [|w rest IH]; intros i file_list; simpl.
  - apply keeps_ret.
  - destruct (is_empty (strip (english w)) || is_empty (strip (polish w))).
    + apply IH.
    + apply keeps_bind; [apply keeps_generate_word_files|intros files].
      apply IH.
Qed.

Hypothesis I_concat : forall c st, I st -> I (log_concat c st).
Hypothesis I_output : forall b st, I st -> I (write_file output_mp3 b st).
Hypothesis I_cleanup : forall st, I st -> I (set_temp_dir [] st).

Lemma keeps_concat_files (file_list : list path) :
  keeps I (_concat_files B file_list output_mp3).
Proof.
  unfold _concat_files.
  apply keeps_bind; [apply keeps_read|intros dir].
  apply keeps_bind; [apply keeps_update; intros st H; apply I_concat, H|intros _].
  destruct (snd (ffmpeg_concat B _)); auto with keeps.
  apply keeps_update. intros st H. apply I_output, H.
Qed.

Lemma keeps_assemble (ws : list word) : keeps I (assemble B s ws).
Proof.
  unfold assemble.
  apply keeps_bind; [apply keeps_for_words|intros file_list].
  apply keeps_bind; [apply keeps_concat_files|intros _].
  apply keeps_bind; [apply keeps_read|intros dir].
  destruct (read_file output_mp3 dir); apply keeps_ret.
Qed.

(** What holds once the silences are generated holds when the run ends. *)
Lemma invariant_of_run (ws : list word) :
  (forall dir, I (after_silences ws s dir)) ->
  I (fst (call_generate_audio B ws s)).
Proof.
  intros H0. rewrite generate_audio_steps.
  apply keeps_try_finally; [apply keeps_assemble| |apply H0].
  apply keeps_update. intros st H. apply I_cleanup, H.
Qed.

End Invariant.

(** The run when the speech service answers every call. *)
Section Total.
Context {U : Unicode}.
Variable B : backend.
Variable s : settings.
Hypothesis tts_answers : tts_total B.

Lemma set_temp_dir_same (st : state) : set_temp_dir (_temp_dir st) st = st.
Proof. destruct st; reflexivity. Qed.

Lemma advance_set_temp_dir (texts : list str) : forall d st,
  advance s texts (set_temp_dir d st) = set_temp_dir d (advance s texts st).
Proof.
  induction texts as [|t rest IH]; intros d st; simpl; [reflexivity|].
  rewrite <- IH. reflexivity.
Qed.

Lemma advance_app (a b : list str) (st : state) :
  advance s (a ++ b) st = advance s b (advance s a st).
Proof. unfold advance. apply fold_left_app. Qed.

Lemma counter_advance (texts : list str) : forall st,
  _file_counter (advance s texts st) = List.length texts + _file_counter st.
Proof.
  induction texts as [|t rest IH]; intros st; simpl; [reflexivity|].
  rewrite IH. simpl. lia.
Qed.

Lemma tts_calls_advance (texts : list str) : forall st,
  tts_calls (advance s texts st) = tts_calls st ++ map (call_for s) texts.
Proof.
  induction texts as [|t rest IH]; intros st; simpl.
  - symmetry. apply app_nil_r.
  - rewrite IH. simpl. rewrite <- app_assoc. reflexivity.
Qed.

Lemma advance_frame (texts : list str) : forall st,
  stored_words (advance s texts st) = stored_words st
  /\ silence_calls (advance s texts st) = silence_calls st
  /\ concat_calls (advance s texts st) = concat_calls st.
Proof.
  induction texts as [|t rest IH]; intros st; simpl; [auto|].
  destruct (IH (spoke s t st)) as (H1 & H2 & H3).
  rewrite H1, H2, H3. auto.
Qed.

Lemma text_to_file_total (text : str) (st : state) :
  exists dir,
    (no_output (_temp_dir st) -> no_output dir)
    /\ _text_to_file B text (get (speed s) 1%Q) (get (voice s) DEFAULT_VOICE) st
       = (set_temp_dir dir (spoke s text st),
          Returned (audio_mp3 (S (_file_counter st)))).
Proof.
  unfold _text_to_file, next_counter, bind, update, read, ret, raise.
  simpl.
  destruct (text_to_speech B text (get (voice s) DEFAULT_VOICE) (get (speed s) 1%Q))
    as [b|] eqn:E.
  - eexists. split; [|reflexivity]. unfold no_output. simpl. auto.
  - exfalso. exact (tts_answers _ _ _ E).
Qed.

End Total.

Section TotalLoop.
Context {U : Unicode}.
Variable B : backend.
Variable s : settings.
Hypothesis tts_answers : tts_total B.
Variables s1 s2 s3 : path.
Variable n : nat.

Lemma generate_word_files_total (w : word) (st : state) :
  exists dir,
    (no_output (_temp_dir st) -> no_output dir)
    /\ _generate_word_files B (cleaned (strip (english w))) (strip (polish w))
         (strip (or_empty (example w))) (get (include_examples s) true)
         (test_mode s) (get (speed s) 1%Q) (get (voice s) DEFAULT_VOICE) s1 s3 st
       = (set_temp_dir dir (advance s (phrases s w) st),
          Returned (word_paths s s1 s3 (_file_counter st) w)).
Proof.
  unfold _generate_word_files, phrases, word_paths.
  destruct (is_mode (test_mode s) "pl_to_en");
    [|destruct (is_mode (test_mode s) "en_to_pl");
      [|destruct (get (include_examples s) true
                  && negb (is_empty (strip (or_empty (example w)))))]].
  all: repeat
    match goal with
    | |- context [bind (_text_to_file B ?text _ _) _ ?st0] =>
      let N := fresh "N" in let E := fresh "E" in
      destruct (text_to_file_total s tts_answers text st0) as [? [N E]];
      unfold bind at 1; rewrite E; clear E
    end.
  all: unfold ret; eexists; split;
    [|simpl; rewrite ?advance_set_temp_dir; reflexivity].
  all: simpl in *; auto.
Qed.

Lemma set_temp_dir_twice (d d' : list (path * bytes)) (st : state) :
  set_temp_dir d (set_temp_dir d' st) = set_temp_dir d st.
Proof. reflexivity. Qed.

Lemma for_words_total (ws : list word) : forall i file_list st,
  exists dir,
    (no_output (_temp_dir st) -> no_output dir)
    /\ for_words B s s1 s2 s3 n i ws file_list st
       = (set_temp_dir dir (advance s (spoken s ws) st),
          Returned (plan s s1 s2 s3 n i (_file_counter st) ws file_list)).
Proof.
  induction ws as [|w rest IH]; intros i file_list st.
  - exists (_temp_dir st). split; [auto|].
    simpl. rewrite set_temp_dir_same. reflexivity.
  - simpl. unfold valid.
    destruct (is_empty (strip (english w)) || is_empty (strip (polish w))); simpl.
    + apply IH.
    + destruct (generate_word_files_total w st) as [d1 [N1 E1]].
      unfold bind at 1. rewrite E1. clear E1.
      match goal with
      | |- context [for_words B s s1 s2 s3 n (S i) rest ?fl ?st1] =>
        destruct (IH (S i) fl st1) as [d2 [N2 E2]]
      end.
      rewrite E2. clear E2. exists d2. split.
      * intros H. apply N2. simpl. auto.
      * rewrite advance_app, advance_set_temp_dir, set_temp_dir_twice.
        simpl _file_counter. rewrite counter_advance. reflexivity.
Qed.

End TotalLoop.

(** The end of a run: the concat run, and the reading of its output. *)
Section Outcome.
Context {U : Unicode}.
Variable B : backend.

Lemma concat_and_read (file_list : list path) (st : state) :
  no_output (_temp_dir st) ->
  exists dir c,
    concat_inputs c = file_list
    /\ (_concat_files B file_list output_mp3 ;;;
        dir <- read _temp_dir ;;
        match read_file output_mp3 dir with
        | Some buffer => ret buffer
        | None => ret []
        end) st
       = (set_temp_dir dir (log_concat c st), Returned (buffer_of (concat_output c))).
Proof.
  intros N. unfold _concat_files, bind, read, update, ret. simpl.
  set (result := ffmpeg_concat B (map (fun p => read_file p (_temp_dir st)) file_list)).
  exists (match snd result with
          | Some b => (output_mp3, b) :: _temp_dir st
          | None => _temp_dir st
          end).
  exists {| concat_inputs := file_list; concat_returncode := fst result;
            concat_output := snd result |}.
  split; [reflexivity|].
  destruct (snd result) as [b|]; simpl; [reflexivity|].
  unfold no_output in N. rewrite N. reflexivity.
Qed.

(** A run either raises before the concat run, or makes one concat run
    and returns the output file that this run has left. *)
Lemma run_outcome (ws : list word) (s : settings) :
  let result := call_generate_audio B ws s in
  (concat_calls (fst result) = [] /\ snd result = Raised)
  \/ (exists c, concat_calls (fst result) = [c]
               /\ snd result = Returned (buffer_of (concat_output c))).
Proof.
  simpl. rewrite generate_audio_steps.
  set (dir0 := silence_dir B s).
  assert (N0 : no_output dir0) by apply no_output_silence_dir.
  unfold try_finally, assemble.
  rewrite (bind_run (for_words _ _ _ _ _ _ _ _ _)).
  pose (I := fun st => concat_calls st = [] /\ no_output (_temp_dir st)).
  assert (K : I (fst (for_words B s (silence_mp3 1) (silence_mp3 2)
                        (silence_mp3 3) (List.length ws) 1 ws []
                        (after_silences ws s dir0)))).
  { apply (@keeps_for_words U B s I); unfold I; simpl; tauto. }
  destruct (for_words B s _ _ _ _ 1 ws [] (after_silences ws s dir0))
    as [st1 [file_list|]]; simpl in K; destruct K as [K1 K2].
  - right. destruct (concat_and_read file_list st1 K2) as (dir & c & _ & E).
    rewrite E. exists c. simpl. rewrite K1. auto.
  - left. simpl. auto.
Qed.

(** The whole run when the speech service answers every call. *)
Lemma run_total (ws : list word) (s : settings) :
  tts_total B ->
  exists c,
    concat_inputs c
    = plan s (silence_mp3 1) (silence_mp3 2) (silence_mp3 3)
           (List.length ws) 1 3 ws []
    /\ call_generate_audio B ws s
       = (set_temp_dir []
            (log_concat c (advance s (spoken s ws)
                             (after_silences ws s (silence_dir B s)))),
          Returned (buffer_of (concat_output c))).
Proof.
  intros T.
  rewrite generate_audio_steps.
  set (dir0 := silence_dir B s).
  assert (N0 : no_output dir0) by apply no_output_silence_dir.
  unfold try_finally, assemble.
  rewrite (bind_run (for_words _ _ _ _ _ _ _ _ _)).
  destruct (for_words_total s T (silence_mp3 1) (silence_mp3 2) (silence_mp3 3)
              (List.length ws) ws 1 [] (after_silences ws s dir0))
    as (d1 & N1 & E1).
  rewrite E1. clear E1.
  match goal with
  | |- context [bind (_concat_files B ?fl output_mp3) _ ?st1] =>
    destruct (concat_and_read fl st1 (N1 N0)) as (d2 & c & Hc & E2)
  end.
  rewrite E2. clear E2. exists c. split; [exact Hc|]. reflexivity.
Qed.

End Outcome.

(** The run does not depend on the list object beyond what the loop reads
    of its entries. *)
Section Oblivious.
Context {U : Unicode}.
Variable B : backend.

Lemma oblivious_ret A (a : A) : oblivious (ret a).
Proof. intros ws st. reflexivity. Qed.

Lemma oblivious_raise A : oblivious (@raise A).
Proof. intros ws st. reflexivity. Qed.

Lemma oblivious_read A (f : state -> A) :
  (forall ws st, f (with_words ws st) = f st) -> oblivious (read f).
Proof. intros Hf ws st. unfold read. simpl. rewrite Hf. reflexivity. Qed.

Lemma oblivious_update (f : state -> state) :
  (forall ws st, f (with_words ws st) = with_words ws (f st)) ->
  oblivious (update f).
Proof. intros Hf ws st. unfold update. simpl. rewrite Hf. reflexivity. Qed.

Lemma oblivious_bind A C (m : M A) (f : A -> M C) :
  oblivious m -> (forall a, oblivious (f a)) -> oblivious (bind m f).
Proof.
  intros Hm Hf ws st. unfold bind. rewrite Hm.
  destruct (m st) as [st' [a|]]; simpl; [apply Hf|reflexivity].
Qed.

Lemma oblivious_try_finally A (body : M A) (handler : M unit) :
  oblivious body -> oblivious handler -> oblivious (try_finally body handler).
Proof.
  intros Hb Hh ws st. unfold try_finally. rewrite Hb.
  destruct (body st) as [st' r]; simpl. rewrite Hh. reflexivity.
Qed.

Ltac oblivious_step :=
  first [ apply oblivious_ret | apply oblivious_raise
        | apply oblivious_update; reflexivity
        | apply oblivious_read; reflexivity
        | apply oblivious_bind; [|intros ?] ].

Lemma oblivious_text_to_file (text : str) (sp : Q) (v : string) :
  oblivious (_text_to_file B text sp v).
Proof.
  unfold _text_to_file, next_counter. repeat oblivious_step.
  destruct (text_to_speech B text v sp); repeat oblivious_step.
Qed.

Lemma oblivious_generate_word_files (en pl ex : str) (inc : bool)
    (mode : option string) (sp : Q) (v : string) (s1 s3 : path) :
  oblivious (_generate_word_files B en pl ex inc mode sp v s1 s3).
Proof.
  unfold _generate_word_files.
  destruct (is_mode mode "pl_to_en"); [|destruct (is_mode mode "en_to_pl")];
    repeat (apply oblivious_bind; [apply oblivious_text_to_file|intros ?]);
    try apply oblivious_ret.
  destruct (inc && negb (is_empty ex)); [|apply oblivious_ret].
  apply oblivious_bind; [apply oblivious_text_to_file|intros ?].
  apply oblivious_ret.
Qed.

Lemma oblivious_for_words (s : settings) (s1 s2 s3 : path) (n : nat)
    (ws : list word) :
  forall i file_list, oblivious (for_words B s s1 s2 s3 n i ws file_list).
Proof.
  induction ws as [|w rest IH]; intros i file_list; simpl.
  - apply oblivious_ret.
  - destruct (is_empty (strip (english w)) || is_empty (strip (polish w))).
    + apply IH.
    + apply oblivious_bind; [apply oblivious_generate_word_files|intros ?].
      apply IH.
Qed.

Lemma oblivious_assemble (s : settings) (ws : list word) :
  oblivious (assemble B s ws).
Proof.
  unfold assemble.
  apply oblivious_bind; [apply oblivious_for_words|intros file_list].
  unfold _concat_files. repeat oblivious_step.
  - destruct (snd (ffmpeg_concat B _)); repeat oblivious_step.
  - destruct (read_file output_mp3 _); apply oblivious_ret.
Qed.

(** The loop reads of each entry its [audio_view] only. *)
Lemma for_words_view (s : settings) (s1 s2 s3 : path) (n : nat) :
  forall ws ws', map audio_view ws = map audio_view ws' ->
  forall i file_list st,
    for_words B s s1 s2 s3 n i ws file_list st
    = for_words B s s1 s2 s3 n i ws' file_list st.
Proof.
  induction ws as [|w rest IH]; intros [|w' rest'] E i file_list st;
    try discriminate; [reflexivity|].
  simpl in E. inversion E as [[E1 E2 E3 Er]].
  simpl. rewrite E1, E2, E3.
  destruct (is_empty (strip (english w')) || is_empty (strip (polish w'))).
  - apply IH, Er.
  - rewrite !bind_run.
    destruct (_generate_word_files B _ _ _ _ _ _ _ _ _ st) as [st' [files|]];
      [apply IH, Er|reflexivity].
Qed.

Lemma run_view (s : settings) (ws ws' : list word) :
  map audio_view ws = map audio_view ws' ->
  call_generate_audio B ws s
  = (with_words ws (fst (call_generate_audio B ws' s)),
     snd (call_generate_audio B ws' s)).
Proof.
  intros E. rewrite !generate_audio_steps.
  change (after_silences ws s (silence_dir B s))
    with (with_words ws (after_silences ws' s (silence_dir B s))).
  assert (L : List.length ws = List.length ws').
  { rewrite <- (length_map audio_view ws), E. apply length_map. }
  assert (A : forall st, assemble B s ws st = assemble B s ws' st).
  { intros st. unfold assemble. rewrite !bind_run, L.
    rewrite (for_words_view s _ _ _ _ ws ws' E). reflexivity. }
  assert (C : oblivious _cleanup) by (apply oblivious_update; reflexivity).
  rewrite (oblivious_try_finally (oblivious_assemble s ws) C).
  unfold try_finally. rewrite A. reflexivity.
Qed.

End Oblivious.

(** The list of segments of a run whose syntheses succeed. *)
Section PlanFacts.
Context {U : Unicode}.
Variable s : settings.

Lemma speech_segments_app (a b : list path) :
  speech_segments (a ++ b) = speech_segments a + speech_segments b.
Proof. unfold speech_segments. rewrite filter_app, length_app. reflexivity. Qed.

Lemma pauses_between_app (a b : list path) :
  pauses_between (a ++ b) = pauses_between a + pauses_between b.
Proof. unfold pauses_between. rewrite filter_app, length_app. reflexivity. Qed.

Lemma speech_segments_silence (p : path) :
  is_audio p = false -> speech_segments [p] = 0.
Proof. intros H. unfold speech_segments. simpl. rewrite H. reflexivity. Qed.

Lemma speech_segments_repeated (r : Z) (files : list path) (s1 : path) :
  is_audio s1 = false ->
  forall file_list,
    speech_segments (repeated r files s1 file_list)
    = speech_segments file_list + Z.to_nat r * speech_segments files.
Proof.
  intros H1. unfold repeated. generalize 0 as start.
  induction (Z.to_nat r) as [|len IH]; intros start file_list.
  - simpl. lia.
  - cbn [seq fold_left]. rewrite IH.
    destruct (Z.of_nat start <? r - 1)%Z;
      rewrite ?speech_segments_app, ?(speech_segments_silence _ H1); lia.
Qed.

Lemma speech_segments_word_paths (s1 s3 : path) (counter : nat) (w : word) :
  is_audio s1 = false -> is_audio s3 = false ->
  speech_segments (word_paths s s1 s3 counter w) = List.length (phrases s w).
Proof.
  intros H1 H3. unfold word_paths, phrases, speech_segments.
  destruct (is_mode (test_mode s) "pl_to_en");
    [|destruct (is_mode (test_mode s) "en_to_pl");
      [|destruct (get (include_examples s) true
                  && negb (is_empty (strip (or_empty (example w)))))]];
    simpl; rewrite ?H1, ?H3; reflexivity.
Qed.

Lemma speech_segments_plan (s1 s2 s3 : path) (n : nat) :
  is_audio s1 = false -> is_audio s2 = false -> is_audio s3 = false ->
  forall ws i counter file_list,
    speech_segments (plan s s1 s2 s3 n i counter ws file_list)
    = speech_segments file_list
      + Z.to_nat (get (repetitions s) 1%Z) * List.length (spoken s ws).
Proof.
  intros H1 H2 H3.
  induction ws as [|w rest IH]; intros i counter file_list; simpl.
  - lia.
  - destruct (valid w); [|apply IH].
    rewrite IH, length_app.
    assert (E : forall l, speech_segments
                            (if i <? n then l ++ [s2] else l)
                          = speech_segments l).
    { intros l. destruct (i <? n); [|reflexivity].
      rewrite speech_segments_app, (speech_segments_silence _ H2). lia. }
    rewrite E, speech_segments_repeated, speech_segments_word_paths by assumption.
    lia.
Qed.

End PlanFacts.

(* ------------------------------------------------------------------ *)
(** * Properties of the audio generator *)

Section AudioProperties.
Context {U : Unicode}.
Variable B : backend.

Lemma silence_calls_of_run (ws : list word) (s : settings) :
  silence_calls (fst (call_generate_audio B ws s))
  = [1%Q; get (pause_between s) 2%Q; TEST_PAUSE_DURATION].
Proof.
  apply (@invariant_of_run U B s
           (fun st => silence_calls st
                      = [1%Q; get (pause_between s) 2%Q; TEST_PAUSE_DURATION]));
    auto.
Qed.

Lemma speeds_of_run (ws : list word) (s : settings) :
  Forall (fun c => tts_speed c = get (speed s) 1%Q)
         (tts_calls (fst (call_generate_audio B ws s))).
Proof.
  apply (@invariant_of_run U B s
           (fun st => Forall (fun c => tts_speed c = get (speed s) 1%Q)
                             (tts_calls st))); simpl; auto.
  intros text st H. apply Forall_app. split; [exact H|].
  constructor; [reflexivity|constructor].
Qed.

Lemma stored_words_of_run (ws : list word) (s : settings) :
  stored_words (fst (call_generate_audio B ws s)) = ws.
Proof.
  apply (@invariant_of_run U B s (fun st => stored_words st = ws)); auto.
Qed.

Lemma run_total_fields (ws : list word) (s : settings) :
  tts_total B ->
  tts_calls (fst (call_generate_audio B ws s)) = map (call_for s) (spoken s ws)
  /\ file_list_of (fst (call_generate_audio B ws s))
     = plan s (silence_mp3 1) (silence_mp3 2) (silence_mp3 3)
            (List.length ws) 1 3 ws [].
Proof.
  intros T. destruct (run_total ws s T) as (c & Hc & E). rewrite E.
  unfold file_list_of. simpl.
  destruct (advance_frame s (spoken s ws) (after_silences ws s (silence_dir B s)))
    as (_ & _ & E3).
  rewrite E3, tts_calls_advance. simpl. auto.
Qed.

(** C1, amended.  A return code of the concat run other than zero does not
    make [generate_audio] fail: the call returns the bytes of output.mp3 as
    that run has left it, and an empty buffer when it has left none. *)
Theorem C1_failed_concat_is_not_an_error (ws : list word) (s : settings)
    (c : concat_call) :
  In c (concat_calls (fst (call_generate_audio B ws s))) ->
  concat_returncode c <> 0%Z ->
  snd (call_generate_audio B ws s) = Returned (buffer_of (concat_output c)).
Proof.
  intros Hin _.
  destruct (run_outcome B ws s) as [[E _]|(c' & E & R)];
    rewrite E in Hin; simpl in Hin.
  - contradiction.
  - destruct Hin as [->|[]]. exact R.
Qed.

(** C3, amended.  Silence is not memoized by duration: every run asks for
    exactly three silences, of 1.0 s, of [pause_between] and of
    [TEST_PAUSE_DURATION], in this order and whatever their values, once
    for the run and not once for each entry. *)
Theorem C3_three_silences_per_run (ws : list word) (s : settings) :
  silence_calls (fst (call_generate_audio B ws s))
  = [1%Q; get (pause_between s) 2%Q; TEST_PAUSE_DURATION].
Proof. apply silence_calls_of_run. Qed.

(** C6, amended.  The generator neither rejects nor clamps the numeric
    settings: every synthesis call is given [speed] as it stands in the
    settings, and the second silence is asked with [pause_between] as it
    stands, whatever the two values are. *)
Theorem C6_settings_passed_unchanged (ws : list word) (s : settings) :
  Forall (fun c => tts_speed c = get (speed s) 1%Q)
         (tts_calls (fst (call_generate_audio B ws s)))
  /\ nth_error (silence_calls (fst (call_generate_audio B ws s))) 1
     = Some (get (pause_between s) 2%Q).
Proof.
  split; [apply speeds_of_run|]. rewrite silence_calls_of_run. reflexivity.
Qed.

(** C4, amended.  When the speech service answers, the calls made are one
    for each phrase of each entry that is not skipped, whatever the number
    of repetitions; the files are used again for each repeat, so that the
    timeline holds [repetitions] speech segments for each call. *)
Theorem C4_one_synthesis_per_phrase (ws : list word) (s : settings) :
  tts_total B ->
  tts_calls (fst (call_generate_audio B ws s)) = map (call_for s) (spoken s ws)
  /\ speech_segments (file_list_of (fst (call_generate_audio B ws s)))
     = Z.to_nat (get (repetitions s) 1%Z)
       * List.length (tts_calls (fst (call_generate_audio B ws s))).
Proof.
  intros T. destruct (run_total_fields ws s T) as [E1 E2].
  split; [exact E1|].
  rewrite E1, E2, length_map, speech_segments_plan by reflexivity.
  reflexivity.
Qed.

Lemma split_first (c : char) (t : str) :
  has_char c t = true ->
  exists before rest,
    t = before ++ c :: rest /\ has_char c before = false
    /\ hd [] (split c t) = before.
Proof.
  induction t as [|x r IH]; simpl; [discriminate|].
  rewrite N.eqb_sym. destruct (x =? c)%N eqn:E; simpl.
  - intros _. apply N.eqb_eq in E. subst x.
    exists [], r. auto.
  - intros H. destruct (IH H) as (before & rest & E1 & E2 & E3).
    exists (x :: before), rest. subst r. simpl.
    rewrite N.eqb_sym, E, E2. repeat split.
    destruct (split c (before ++ c :: rest)); simpl in *; [|congruence].
    subst before. reflexivity.
Qed.

Lemma cleaned_in_phrases (s : settings) (w : word) :
  In (cleaned (strip (english w))) (phrases s w).
Proof.
  unfold phrases.
  destruct (is_mode (test_mode s) "pl_to_en");
    [|destruct (is_mode (test_mode s) "en_to_pl");
      [|destruct (get (include_examples s) true
                  && negb (is_empty (strip (or_empty (example w)))))]];
    simpl; auto.
Qed.

(** C9.  When the speech service answers, the headword of an entry that is
    not skipped and holds a parenthesis is read aloud as what stands
    before its first parenthesis, stripped; the list of entries given to
    [generate_audio] is left as it was. *)
Theorem C9_headword_read_without_parenthetical (ws : list word) (s : settings)
    (w : word) :
  tts_total B ->
  In w ws -> valid w = true ->
  has_char LPAREN (strip (english w)) = true ->
  exists before rest,
    strip (english w) = before ++ LPAREN :: rest
    /\ has_char LPAREN before = false
    /\ In (call_for s (strip before))
          (tts_calls (fst (call_generate_audio B ws s)))
    /\ stored_words (fst (call_generate_audio B ws s)) = ws.
Proof.
  intros T Hin Hv Hp.
  destruct (split_first _ _ Hp) as (before & rest & E1 & E2 & E3).
  exists before, rest. repeat split; auto; [|apply stored_words_of_run].
  destruct (run_total_fields ws s T) as [E _]. rewrite E.
  apply in_map. unfold spoken. apply in_flat_map. exists w. split; [exact Hin|].
  rewrite Hv. rewrite <- E3.
  replace (strip (hd [] (split LPAREN (strip (english w)))))
    with (cleaned (strip (english w))) by (unfold cleaned; rewrite Hp; reflexivity).
  apply cleaned_in_phrases.
Qed.

(** C10.  An entry whose example is missing, empty or blank is treated as
    an entry without example: the run makes the same calls and returns
    the same result, and outside the quiz modes the files of the entry are
    those of its headword and of its translation with one pause between
    them, with no third synthesis. *)
Theorem C10_blank_example_is_no_example (s : settings)
    (before after : list word) (w : word) :
  strip (or_empty (example w)) = [] ->
  is_mode (test_mode s) "pl_to_en" = false ->
  is_mode (test_mode s) "en_to_pl" = false ->
  (snd (call_generate_audio B (before ++ w :: after) s)
   = snd (call_generate_audio B (before ++ set_example None w :: after) s)
   /\ observed (fst (call_generate_audio B (before ++ w :: after) s))
      = observed (fst (call_generate_audio B
                         (before ++ set_example None w :: after) s)))
  /\ forall en pl inc sp v s1 s3 st,
       _generate_word_files B en pl (strip (or_empty (example w))) inc
         (test_mode s) sp v s1 s3 st
       = (f1 <- _text_to_file B en sp v ;;
          f2 <- _text_to_file B pl sp v ;;
          ret [f1; s1; f2]) st.
Proof.
  intros Hb H1 H2. split.
  - rewrite (@run_view U B s (before ++ w :: after)
               (before ++ set_example None w :: after)).
    + split; reflexivity.
    + rewrite !map_app. simpl. f_equal. f_equal.
      unfold audio_view. simpl. rewrite Hb. reflexivity.
  - intros. unfold _generate_word_files. rewrite H1, H2, Hb.
    simpl. rewrite andb_false_r. reflexivity.
Qed.

(** The segment-count law: outside the quiz modes, with one repetition
    and the examples read, a list of entries that are all kept and all
    have an example gives three speech segments for each entry and one
    pause less than there are entries. *)
Section CountLaw.
Variable s : settings.
Hypothesis normal_mode :
  is_mode (test_mode s) "pl_to_en" = false
  /\ is_mode (test_mode s) "en_to_pl" = false.
Hypothesis once : get (repetitions s) 1%Z = 1%Z.
Hypothesis examples_read : get (include_examples s) true = true.

Lemma three_phrases (w : word) : complete w -> List.length (phrases s w) = 3.
Proof.
  intros [_ He]. unfold phrases. destruct normal_mode as [-> ->].
  rewrite examples_read, He. reflexivity.
Qed.

Lemma spoken_complete (ws : list word) :
  Forall complete ws -> List.length (spoken s ws) = 3 * List.length ws.
Proof.
  induction 1 as [|w rest Hw _ IH]; simpl; [reflexivity|].
  rewrite length_app, IH. destruct Hw as [Hv He]. rewrite Hv.
  rewrite (three_phrases (conj Hv He)). lia.
Qed.

Lemma no_pause_in_word_paths (counter : nat) (w : word) :
  pauses_between (word_paths s (silence_mp3 1) (silence_mp3 3) counter w) = 0.
Proof.
  unfold word_paths.
  destruct (is_mode (test_mode s) "pl_to_en");
    [|destruct (is_mode (test_mode s) "en_to_pl");
      [|destruct (get (include_examples s) true
                  && negb (is_empty (strip (or_empty (example w)))))]];
    reflexivity.
Qed.

Lemma pauses_of_plan (n : nat) (ws : list word) :
  Forall complete ws ->
  forall i counter file_list,
    i + List.length ws = S n ->
    pauses_between
      (plan s (silence_mp3 1) (silence_mp3 2) (silence_mp3 3) n i counter ws
            file_list)
    = pauses_between file_list + (List.length ws - 1).
Proof.
  induction 1 as [|w rest Hw Hrest IH]; intros i counter file_list Hi; simpl.
  - lia.
  - destruct Hw as [Hv He]. rewrite Hv.
    unfold repeated. rewrite once. simpl fold_left.
    destruct rest as [|w' rest'].
    + simpl in *. replace (i <? n) with false
        by (symmetry; apply Nat.ltb_ge; lia).
      rewrite pauses_between_app, no_pause_in_word_paths. lia.
    + replace (i <? n) with true
        by (symmetry; apply Nat.ltb_lt; simpl in Hi; lia).
      rewrite IH by (simpl in *; lia).
      rewrite !pauses_between_app, no_pause_in_word_paths.
      change (pauses_between [silence_mp3 2]) with 1. simpl List.length. lia.
Qed.

Lemma segment_count_law (ws : list word) :
  tts_total B -> Forall complete ws ->
  speech_segments (file_list_of (fst (call_generate_audio B ws s)))
  = 3 * List.length ws
  /\ pauses_between (file_list_of (fst (call_generate_audio B ws s)))
     = List.length ws - 1.
Proof.
  intros T Hc. destruct (run_total_fields ws s T) as [_ E]. rewrite E. split.
  - rewrite speech_segments_plan by reflexivity.
    rewrite once, spoken_complete by assumption.
    change (speech_segments []) with 0. change (Z.to_nat 1) with 1. lia.
  - destruct ws as [|w rest]; [reflexivity|].
    rewrite pauses_of_plan by (auto; simpl; lia). reflexivity.
Qed.

End CountLaw.

End AudioProperties.

(** ** The generator on the inputs of the examples *)

(** C1, as stated, fails: the concat run stops with return code 1 after
    the first of nine files, and the call returns what it has written. *)
Lemma C1_counterexample :
  map concat_returncode
      (concat_calls (fst (call_generate_audio (U:=latin) failing_concat
                            [run_entry; light_entry] default_settings)))
  = [1%Z]
  /\ List.length
       (file_list_of (fst (call_generate_audio (U:=latin) failing_concat
                             [run_entry; light_entry] default_settings)))
     = 9
  /\ snd (call_generate_audio (U:=latin) failing_concat
            [run_entry; light_entry] default_settings)
     = Returned [Byte.x01].
Proof. vm_compute. repeat split. Qed.

Lemma C1_witness :
  snd (call_generate_audio (U:=latin) failing_concat [run_entry] default_settings)
  = Returned [Byte.x01].
Proof.
  apply (@C1_failed_concat_is_not_an_error latin failing_concat [run_entry]
           default_settings
           {| concat_inputs :=
                [audio_mp3 4; silence_mp3 1; audio_mp3 5; silence_mp3 1;
                 audio_mp3 6];
              concat_returncode := 1;
              concat_output := Some [Byte.x01] |}).
  - vm_compute. left. reflexivity.
  - vm_compute. discriminate.
Defined.

(** C2 fails on a list that ends with a skipped entry: the pause between
    entries (the second silence) follows the last entry that is read.
    Here the list is what [parse_text] gives for a text whose second entry
    has no translation. *)
Theorem C2_pause_after_the_last_entry_read :
  map polish (parse_text (U:=latin) trailing_skipped) = [u "jasny"; []]
  /\ map (valid (U:=latin)) (parse_text (U:=latin) trailing_skipped)
     = [true; false]
  /\ file_list_of (fst (call_generate_audio (U:=latin) working
                          (parse_text (U:=latin) trailing_skipped)
                          default_settings))
     = [audio_mp3 4; silence_mp3 1; audio_mp3 5; silence_mp3 2].
Proof. vm_compute. repeat split. Qed.

(** C3, as stated, fails: with the default settings the duration 2.0 is
    asked twice in one run. *)
Lemma C3_counterexample :
  silence_calls (fst (call_generate_audio (U:=latin) working []
                        default_settings))
  = [1%Q; 2%Q; 2%Q]
  /\ ~ NoDup (silence_calls (fst (call_generate_audio (U:=latin) working []
                                    default_settings))).
Proof.
  split; [reflexivity|].
  change (silence_calls _) with [1%Q; 2%Q; 2%Q].
  intros D. inversion D as [|? ? _ D1]. inversion D1 as [|? ? D2 _].
  apply D2. left. reflexivity.
Qed.

(** C4, as stated, fails: with two repetitions the entry is synthesized
    once (two calls) and its files occur twice (four speech segments). *)
Lemma C4_counterexample :
  List.length (tts_calls (fst (call_generate_audio (U:=latin) working
                                 [light_entry] twice))) = 2
  /\ speech_segments
       (file_list_of (fst (call_generate_audio (U:=latin) working
                             [light_entry] twice))) = 4.
Proof. vm_compute. split; reflexivity. Qed.

Lemma C4_witness :
  tts_calls (fst (call_generate_audio (U:=latin) working [light_entry] twice))
  = map (call_for twice) (spoken (U:=latin) twice [light_entry])
  /\ speech_segments
       (file_list_of (fst (call_generate_audio (U:=latin) working
                             [light_entry] twice)))
     = Z.to_nat (get (repetitions twice) 1%Z)
       * List.length (tts_calls (fst (call_generate_audio (U:=latin) working
                                       [light_entry] twice))).
Proof.
  apply (@C4_one_synthesis_per_phrase latin working [light_entry] twice).
  intros text v sp H. discriminate H.
Defined.

(** C6, as stated, fails: a speed of 3.0 and a pause of 10.0 reach the
    speech service and [ffmpeg], and the call returns. *)
Lemma C6_counterexample :
  map tts_speed (tts_calls (fst (call_generate_audio (U:=latin) working
                                   [light_entry] out_of_range)))
  = [3%Q; 3%Q]
  /\ silence_calls (fst (call_generate_audio (U:=latin) working
                           [light_entry] out_of_range))
     = [1%Q; 10%Q; 2%Q]
  /\ snd (call_generate_audio (U:=latin) working [light_entry] out_of_range)
     = Returned [Byte.x01; Byte.x00; Byte.x01].
Proof. vm_compute. repeat split. Qed.

Lemma C9_witness :
  exists before rest,
    strip (U:=latin) (english light_entry) = before ++ LPAREN :: rest
    /\ has_char LPAREN before = false
    /\ In (call_for default_settings (strip (U:=latin) before))
          (tts_calls (fst (call_generate_audio (U:=latin) working
                             [run_entry; light_entry] default_settings)))
    /\ stored_words (fst (call_generate_audio (U:=latin) working
                            [run_entry; light_entry] default_settings))
       = [run_entry; light_entry].
Proof.
  apply (@C9_headword_read_without_parenthetical latin working
           [run_entry; light_entry] default_settings light_entry).
  - intros text v sp H. discriminate H.
  - simpl. right. left. reflexivity.
  - vm_compute. reflexivity.
  - vm_compute. reflexivity.
Defined.

Lemma C10_witness :
  snd (call_generate_audio (U:=latin) working
         ([run_entry] ++ spaced_entry :: [light_entry]) default_settings)
  = snd (call_generate_audio (U:=latin) working
           ([run_entry] ++ set_example None spaced_entry :: [light_entry])
           default_settings)
  /\ observed (fst (call_generate_audio (U:=latin) working
                      ([run_entry] ++ spaced_entry :: [light_entry])
                      default_settings))
     = observed (fst (call_generate_audio (U:=latin) working
                        ([run_entry] ++ set_example None spaced_entry
                           :: [light_entry]) default_settings)).
Proof.
  apply (@C10_blank_example_is_no_example latin working default_settings
           [run_entry] [light_entry] spaced_entry).
  - vm_compute. reflexivity.
  - reflexivity.
  - reflexivity.
Defined.

(* ------------------------------------------------------------------ *)
(** * Properties of the parser *)

Section Categories.
Context {U : Unicode}.

Lemma category_set_example (e : option str) (w : word) :
  category (set_example e w) = category w.
Proof. reflexivity. Qed.

Lemma flush_with_example (e : str) (w : word) (st : pstate) :
  current_word st = Some w ->
  map category (flush (with_example e w st)) = map category (flush st).
Proof.
  intros E. unfold flush, with_example. cbn [current_word words].
  rewrite E, !map_app. reflexivity.
Qed.

(** One line: the category it leaves in force, and the category of the
    entry it opens. *)
Lemma text_line_categories (st : pstate) (l : str) :
  current_category (text_line st l)
  = (if is_header l then Some (strip l) else current_category st)
  /\ map category (flush (text_line st l))
     = map category (flush st)
       ++ (if is_header l then []
           else if is_headword l then [current_category st] else []).
Proof.
  unfold text_line, is_header, is_headword, matches.
  destruct (is_skipped (strip l)); cbn [negb andb].
  { rewrite app_nil_r. auto. }
  destruct (is_category (strip l)); cbn [negb andb].
  { rewrite app_nil_r. auto. }
  destruct (run word_pattern (strip l)) as [g|].
  { split; [reflexivity|]. unfold flush at 1. cbn [current_word words].
    rewrite map_app. reflexivity. }
  rewrite app_nil_r.
  destruct (run example_pattern (strip l)) as [g|],
           (current_word st) as [w|] eqn:Ew;
    try destruct (startswith ex_colon (lower (strip l)));
    split; try reflexivity; apply flush_with_example, Ew.
Qed.

(** The categories of the entries are those of the scan [sticky]. *)
Lemma categories_of_scan (lines : list str) : forall st,
  map category (flush (fold_left text_line lines st))
  = map category (flush st) ++ sticky (current_category st) lines.
Proof.
  induction lines as [|l rest IH]; intros st; cbn [fold_left sticky].
  - symmetry. apply app_nil_r.
  - rewrite IH. destruct (text_line_categories st l) as [E1 E2].
    rewrite E1, E2, <- app_assoc.
    destruct (is_header l); [reflexivity|].
    destruct (is_headword l); reflexivity.
Qed.

Lemma categories_of_lines (lines : list str) :
  map category (parse_lines lines) = sticky None lines.
Proof. unfold parse_lines. rewrite categories_of_scan. reflexivity. Qed.

Lemma sticky_header (a : list str) (h : str) (b : list str) :
  is_header h = true ->
  forall c, sticky c (a ++ h :: b) = sticky c a ++ sticky (Some (strip h)) b.
Proof.
  intros Hh. induction a as [|l a IH]; intros c; simpl.
  - rewrite Hh. reflexivity.
  - destruct (is_header l); [apply IH|].
    destruct (is_headword l); [rewrite IH; reflexivity|apply IH].
Qed.

Lemma sticky_no_header (a b : list str) :
  Forall (fun l => is_header l = false) a ->
  forall c, sticky c (a ++ b) = repeat c (count_headwords a) ++ sticky c b.
Proof.
  unfold count_headwords.
  induction 1 as [|l a Hl _ IH]; intros c; simpl; [reflexivity|].
  rewrite Hl. destruct (is_headword l); simpl; rewrite IH; reflexivity.
Qed.

Lemma sticky_restart (c : option str) (b : list str) :
  b = [] \/ (exists h rest, b = h :: rest /\ is_header h = true) ->
  sticky c b = sticky None b.
Proof.
  intros [->|(h & rest & -> & Hh)]; simpl; [reflexivity|].
  rewrite Hh. reflexivity.
Qed.

(** C8.  A header is a line that is entirely in upper case and longer
    than 2, whatever else it matches; a headword line is a line that
    matches the headword pattern and is no header.  When the lines of a
    text are some lines, a header, lines without header and then either
    nothing or a header with what follows it, the entries of the lines
    after the first header number as many as these lines have headword
    lines and all carry that header; the entries of lines that have no
    header carry no category. *)
Theorem C8_category_is_sticky (text : str) (before entries after : list str)
    (header : str) :
  split NL (strip text) = before ++ header :: entries ++ after ->
  is_header header = true ->
  Forall (fun l => is_header l = false) entries ->
  after = [] \/ (exists h rest, after = h :: rest /\ is_header h = true) ->
  map category (parse_text text)
  = map category (parse_lines before)
    ++ repeat (Some (strip header)) (count_headwords entries)
    ++ map category (parse_lines after)
  /\ (Forall (fun l => is_header l = false) before ->
      map category (parse_lines before)
      = repeat None (count_headwords before)).
Proof.
  intros Hlines Hh He Ha. split.
  - unfold parse_text. rewrite Hlines, !categories_of_lines.
    rewrite (@sticky_header before header (entries ++ after) Hh).
    rewrite (@sticky_no_header entries after He).
    rewrite (sticky_restart (Some (strip header)) Ha). reflexivity.
  - intros Hb. rewrite categories_of_lines.
    rewrite <- (app_nil_r before) at 1.
    rewrite (@sticky_no_header before [] Hb). simpl. apply app_nil_r.
Qed.

End Categories.

Lemma C8_witness :
  map category (parse_text (U:=latin) two_categories)
  = map category (parse_lines (U:=latin) lines_before)
    ++ repeat (Some (strip (U:=latin) (u "CZASOWNIKI")))
              (count_headwords (U:=latin) lines_of_verbs)
    ++ map category (parse_lines (U:=latin) lines_after)
  /\ map category (parse_lines (U:=latin) lines_before)
     = repeat None (count_headwords (U:=latin) lines_before).
Proof.
  destruct (@C8_category_is_sticky latin two_categories lines_before
              lines_of_verbs lines_after (u "CZASOWNIKI")) as [H1 H2].
  - vm_compute. reflexivity.
  - vm_compute. reflexivity.
  - repeat constructor.
  - right. exists (u "PRZYMIOTNIKI"), [u "4. red (red) – czerwony"].
    split; [reflexivity|vm_compute; reflexivity].
  - split; [exact H1|]. apply H2. repeat constructor.
Defined.

(** C5 fails on a headword line that holds its example: [parse_text] cuts
    the translation at "ex:", [parse_document] keeps the whole as the
    translation and gives no example. *)
Theorem C5_parse_document_does_not_split :
  parse_text (U:=latin) compressed_entry
  = [ {| number := 1; english := u "run"; pronunciation := u "ran";
         polish := u "biegać"; example := Some (u "She runs fast.");
         category := None |} ]
  /\ parse_document (U:=latin) [compressed_entry]
     = [ {| number := 1; english := u "run"; pronunciation := u "ran";
            polish := u "biegać ex: She runs fast."; example := None;
            category := None |} ].
Proof. vm_compute. split; reflexivity. Qed.

(** C7, as stated, fails: the text shown for the entry of scenario A is
    read back with the marks of bold type around the headword and around
    the category, and without the example. *)
Lemma C7_counterexample :
  parse_text (U:=latin) scenario_A
  = [ {| number := 1; english := u "run"; pronunciation := u "ran";
         polish := u "biegać"; example := Some (u "She runs fast.");
         category := Some (u "CZASOWNIKI") |} ]
  /\ parse_text (U:=latin)
       (format_words_for_display (parse_text (U:=latin) scenario_A))
     = [ {| number := 1; english := u "**run**"; pronunciation := u "ran";
            polish := u "biegać"; example := None;
            category := Some (u "**CZASOWNIKI**") |} ].
Proof. vm_compute. split; reflexivity. Qed.

(* ------------------------------------------------------------------ *)
(** * Facts about strings *)

Section StringFacts.
Context {U : Unicode}.

Lemma eqb_str_eq (a b : str) : eqb_str a b = true <-> a = b.
Proof.
  unfold eqb_str. destruct (list_eq_dec N.eq_dec a b); split; congruence.
Qed.

Lemma lstrip_spaces (w t : str) :
  forallb isspace w = true -> lstrip (w ++ t) = lstrip t.
Proof.
  induction w as [|c w IH]; simpl; [reflexivity|].
  intros H. apply andb_prop in H. destruct H as [Hc Hw].
  rewrite Hc. apply IH, Hw.
Qed.

Lemma lstrip_split (t : str) :
  exists w, t = w ++ lstrip t /\ forallb isspace w = true.
Proof.
  induction t as [|c r IH]; simpl.
  - exists []. auto.
  - destruct (isspace c) eqn:E.
    + destruct IH as (w & E1 & E2). exists (c :: w). simpl.
      rewrite E, E2, <- E1. auto.
    + exists []. auto.
Qed.

Lemma lstrip_all_spaces (w : str) : forallb isspace w = true -> lstrip w = [].
Proof.
  intros H. rewrite <- (app_nil_r w). rewrite lstrip_spaces by exact H.
  reflexivity.
Qed.

Lemma length_lstrip (t : str) : List.length (lstrip t) <= List.length t.
Proof.
  induction t as [|c r IH]; simpl; [lia|].
  destruct (isspace c); simpl; lia.
Qed.

Lemma lstrip_fixed (c : char) (r : str) :
  lstrip (c :: r) = c :: r -> isspace c = false.
Proof.
  simpl. destruct (isspace c); [|reflexivity].
  intros E. pose proof (length_lstrip r) as L. rewrite E in L. simpl in L. lia.
Qed.

Lemma rstrip_spaces (t w : str) :
  forallb isspace w = true -> rstrip (t ++ w) = rstrip t.
Proof.
  intros H. unfold rstrip. rewrite rev_app_distr, lstrip_spaces; [reflexivity|].
  rewrite forallb_forall in *. intros x Hx. apply H, in_rev, Hx.
Qed.

Lemma rstrip_ends (t : str) (c : char) :
  isspace c = false -> rstrip (t ++ [c]) = t ++ [c].
Proof.
  intros H. unfold rstrip. rewrite rev_app_distr. simpl. rewrite H.
  change (c :: rev t) with (rev [c] ++ rev t).
  rewrite <- rev_app_distr. apply rev_involutive.
Qed.

Lemma length_rstrip (t : str) : List.length (rstrip t) <= List.length t.
Proof.
  unfold rstrip. rewrite length_rev.
  pose proof (length_lstrip (rev t)) as L. rewrite length_rev in L. exact L.
Qed.

(** A string between two characters that are no white space is its own
    [strip]. *)
Lemma strip_kept (c d : char) (t : str) :
  isspace c = false -> isspace d = false ->
  strip (c :: t ++ [d]) = c :: t ++ [d].
Proof.
  intros Hc Hd. unfold strip. simpl lstrip. rewrite Hc.
  change (c :: t ++ [d]) with ((c :: t) ++ [d]). apply rstrip_ends, Hd.
Qed.

Lemma strip_spaces_after (t w : str) :
  forallb isspace w = true -> strip (t ++ w) = strip t.
Proof.
  intros H. unfold strip.
  destruct (lstrip_split t) as (v & E & Hv).
  destruct (lstrip t) as [|c r] eqn:El.
  - rewrite app_nil_r in E. subst v.
    rewrite lstrip_all_spaces; [reflexivity|].
    rewrite forallb_app, Hv, H. reflexivity.
  - rewrite E at 1. rewrite <- app_assoc, lstrip_spaces by exact Hv.
    assert (Hc : isspace c = false).
    { apply (@lstrip_fixed c r). rewrite <- El.
      clear. induction t as [|x t IH]; simpl; [reflexivity|].
      destruct (isspace x) eqn:Ex; [exact IH|]. simpl. rewrite Ex. reflexivity. }
    simpl. rewrite Hc. apply (rstrip_spaces (c :: r)), H.
Qed.

Lemma strip_spaces_before (c : char) (t : str) :
  isspace c = true -> strip (c :: t) = strip t.
Proof. intros H. unfold strip. simpl. rewrite H. reflexivity. Qed.

Lemma strip_all_spaces (w : str) : forallb isspace w = true -> strip w = [].
Proof.
  intros H. unfold strip. rewrite lstrip_all_spaces by exact H. reflexivity.
Qed.

(** The ends of a string that is its own [strip]. *)
Lemma trimmed_ends (t : str) :
  trimmed t = true ->
  strip t = t
  /\ exists c r, t = c :: r /\ isspace c = false
     /\ exists r' d, t = r' ++ [d] /\ isspace d = false.
Proof.
  unfold trimmed. intros H. apply andb_prop in H. destruct H as [Hn He].
  apply eqb_str_eq in He. split; [exact He|].
  destruct t as [|c r]; [discriminate|]. exists c, r. split; [reflexivity|].
  assert (Hc : isspace c = false).
  { destruct (isspace c) eqn:E; [|reflexivity].
    unfold strip in He. simpl in He. rewrite E in He.
    pose proof (length_rstrip (lstrip r)) as L1.
    pose proof (length_lstrip r) as L2. rewrite He in L1. simpl in L1. lia. }
  split; [exact Hc|].
  destruct (exists_last (l:=c :: r)) as (r' & d & E); [discriminate|].
  exists r', d. split; [exact E|].
  unfold strip in He. simpl in He. rewrite Hc in He. rewrite E in He.
  unfold rstrip in He. rewrite rev_app_distr in He. simpl in He.
  destruct (isspace d) eqn:Ed; [|reflexivity].
  apply (f_equal (@List.length char)) in He.
  rewrite length_rev, length_app in He. simpl in He.
  pose proof (length_lstrip (rev r')) as L. rewrite length_rev in L. lia.
Qed.

End StringFacts.

Section SplitFacts.

Lemma split_not_nil (c : char) (t : str) : split c t <> [].
Proof.
  destruct t as [|x r]; simpl; [discriminate|].
  destruct (x =? c)%N; [discriminate|].
  destruct (split c r); discriminate.
Qed.

(** The lines of two texts with a separator between them. *)
Lemma split_sep (c : char) (a b : str) :
  split c (a ++ c :: b) = split c a ++ split c b.
Proof.
  induction a as [|x r IH]; simpl.
  - rewrite N.eqb_refl. reflexivity.
  - destruct (x =? c)%N; [rewrite IH; reflexivity|].
    rewrite IH. destruct (split c r) as [|h t] eqn:E; [|reflexivity].
    exfalso. exact (split_not_nil _ _ E).
Qed.

(** The lines of two texts joined end to start: the last line of the
    first is continued by the first line of the second. *)
Lemma split_app (c : char) (a b : str) :
  exists init l,
    split c a = init ++ [l]
    /\ split c (a ++ b)
       = init ++ (l ++ hd [] (split c b)) :: tl (split c b).
Proof.
  induction a as [|x r IH]; simpl.
  - exists [], []. split; [reflexivity|]. simpl.
    destruct (split c b) eqn:E; [exfalso; exact (split_not_nil _ _ E)|reflexivity].
  - destruct IH as (init & l & E1 & E2).
    destruct (x =? c)%N.
    + exists ([] :: init), l. rewrite E1, E2. auto.
    + rewrite E1, E2. destruct init as [|i init]; simpl.
      * exists [], (x :: l). auto.
      * exists ((x :: i) :: init), l. auto.
Qed.

Lemma split_one_line (t : str) : has_char NL t = false -> split NL t = [t].
Proof.
  unfold has_char. induction t as [|x r IH]; [reflexivity|].
  cbn [existsb split]. rewrite (N.eqb_sym NL x).
  destruct (x =? NL)%N; [discriminate|].
  intros H. rewrite (IH H). reflexivity.
Qed.

Lemma split_join (pieces : list str) :
  pieces <> [] ->
  split NL (join [NL] pieces) = flat_map (split NL) pieces.
Proof.
  induction pieces as [|p rest IH]; [congruence|]. intros _.
  destruct rest as [|q rest].
  - simpl. symmetry. apply app_nil_r.
  - change (join [NL] (p :: q :: rest)) with (p ++ NL :: join [NL] (q :: rest)).
    rewrite split_sep, IH by discriminate. reflexivity.
Qed.

End SplitFacts.

(** [parse_text] on the lines of the text: the first [strip] changes
    nothing, the lines being stripped one by one and the blank ones left
    out. *)
Section TextLines.
Context {U : Unicode}.

Lemma text_line_strip (st : pstate) (a b : str) :
  strip a = strip b -> text_line st a = text_line st b.
Proof. intros E. unfold text_line. rewrite E. reflexivity. Qed.

Lemma text_line_blank (st : pstate) (l : str) :
  strip l = [] -> text_line st l = st.
Proof. intros E. unfold text_line. rewrite E. reflexivity. Qed.

Lemma split_spaces (w : str) :
  forallb isspace w = true ->
  Forall (fun l => forallb isspace l = true) (split NL w).
Proof.
  induction w as [|x r IH]; simpl.
  - repeat constructor.
  - intros H. apply andb_prop in H. destruct H as [Hx Hr].
    specialize (IH Hr). destruct (x =? NL)%N.
    + constructor; [reflexivity|exact IH].
    + destruct (split NL r) as [|h t].
      * constructor; [simpl; rewrite Hx; reflexivity|constructor].
      * inversion IH as [|? ? Hh Ht]; subst.
        constructor; [simpl; rewrite Hx; exact Hh|exact Ht].
Qed.

Lemma fold_blank_lines (ls : list str) :
  Forall (fun l => forallb isspace l = true) ls ->
  forall st, fold_left text_line ls st = st.
Proof.
  induction 1 as [|l ls Hl _ IH]; intros st; simpl; [reflexivity|].
  rewrite text_line_blank by (apply strip_all_spaces, Hl). apply IH.
Qed.

Lemma fold_lstrip (t : str) : forall st,
  fold_left text_line (split NL (lstrip t)) st
  = fold_left text_line (split NL t) st.
Proof.
  induction t as [|x r IH]; intros st; [reflexivity|].
  simpl lstrip. destruct (isspace x) eqn:Ex; [|reflexivity].
  rewrite IH. simpl split. destruct (x =? NL)%N.
  - simpl. rewrite text_line_blank; reflexivity.
  - destruct (split NL r) as [|h tl] eqn:E;
      [exfalso; exact (split_not_nil _ _ E)|].
    simpl. rewrite (@text_line_strip st (x :: h) h); [reflexivity|].
    apply strip_spaces_before, Ex.
Qed.

Lemma fold_spaces_after (t w : str) :
  forallb isspace w = true ->
  forall st,
    fold_left text_line (split NL (t ++ w)) st
    = fold_left text_line (split NL t) st.
Proof.
  intros Hw st. destruct (split_app NL t w) as (init & l & E1 & E2).
  rewrite E1, E2, !fold_left_app.
  pose proof (split_spaces w Hw) as Hs.
  destruct (split NL w) as [|h tl] eqn:E;
    [exfalso; exact (split_not_nil _ _ E)|].
  inversion Hs as [|? ? Hh Htl]; subst. simpl.
  rewrite (@text_line_strip _ (l ++ h) l) by (apply strip_spaces_after, Hh).
  apply fold_blank_lines, Htl.
Qed.

Lemma parse_text_lines (text : str) :
  parse_text text = parse_lines (split NL text).
Proof.
  unfold parse_text, parse_lines, strip. f_equal.
  destruct (lstrip_split (rev (lstrip text))) as (w & E & Hw).
  assert (E' : lstrip text = rstrip (lstrip text) ++ rev w).
  { unfold rstrip. rewrite <- rev_app_distr, <- E. symmetry. apply rev_involutive. }
  rewrite <- (fold_lstrip text).
  rewrite <- (@fold_spaces_after (rstrip (lstrip text)) (rev w)).
  - rewrite <- E'. reflexivity.
  - rewrite forallb_forall in *. intros x Hx. apply Hw, in_rev. exact Hx.
Qed.

End TextLines.

(* ------------------------------------------------------------------ *)
(** * Facts about the matcher *)

Section RepeatFacts.
Variable p : char -> bool.
Variable k : nat -> str -> option caps.

(** A greedy repetition takes the whole run of the class when the rest of
    the pattern matches after it. *)
Lemma greedy_run (run rest : str) (m : caps) :
  forallb p run = true ->
  rest = [] \/ (exists c r, rest = c :: r /\ p c = false) ->
  forall least pos,
    least <= List.length run ->
    k (pos + List.length run) rest = Some m ->
    many_greedy p k least pos (run ++ rest) = Some m.
Proof.
  intros Hrun Hrest.
  induction run as [|x run IH]; intros least pos Hl Hk.
  - simpl in Hl. assert (least = 0) by lia. subst least.
    rewrite Nat.add_0_r in Hk. simpl.
    destruct Hrest as [->|(c & r & -> & Hc)]; simpl; [exact Hk|].
    rewrite Hc. exact Hk.
  - simpl in Hrun. apply andb_prop in Hrun. destruct Hrun as [Hx Hrun].
    simpl. rewrite Hx.
    rewrite (IH Hrun (pred least) (S pos)); [reflexivity|simpl in Hl; lia|].
    simpl in Hk. rewrite Nat.add_succ_r in Hk. exact Hk.
Qed.

(** A lazy repetition takes the shortest prefix after which the rest of
    the pattern matches. *)
Lemma lazy_found (pre rest : str) (m : caps) :
  forallb p pre = true ->
  forall least pos,
    least <= List.length pre ->
    (forall a b, pre = a ++ b -> b <> [] -> least <= List.length a ->
                 k (pos + List.length a) (b ++ rest) = None) ->
    k (pos + List.length pre) rest = Some m ->
    many_lazy p k least pos (pre ++ rest) = Some m.
Proof.
  induction pre as [|x pre IH]; intros Hp least pos Hl Hfail Hk.
  - simpl in Hl. assert (least = 0) by lia. subst least.
    rewrite Nat.add_0_r in Hk. simpl. destruct rest; simpl; rewrite Hk; reflexivity.
  - simpl in Hp. apply andb_prop in Hp. destruct Hp as [Hx Hp].
    simpl in Hk. rewrite Nat.add_succ_r in Hk.
    destruct least as [|l]; simpl.
    + assert (F : k pos (x :: pre ++ rest) = None).
      { pose proof (Hfail [] (x :: pre) eq_refl) as F. simpl in F.
        rewrite Nat.add_0_r in F. apply F; [discriminate|lia]. }
      rewrite F, Hx.
      apply IH; [exact Hp|lia| |exact Hk].
      intros a b E Hb Ha. specialize (Hfail (x :: a) b). simpl in Hfail.
      rewrite Nat.add_succ_r in Hfail.
      apply Hfail; [rewrite E; reflexivity|exact Hb|lia].
    + rewrite Hx. apply IH; [exact Hp|simpl in Hl; lia| |exact Hk].
      intros a b E Hb Ha. specialize (Hfail (x :: a) b). simpl in Hfail.
      rewrite Nat.add_succ_r in Hfail.
      apply Hfail; [rewrite E; reflexivity|exact Hb|simpl; lia].
Qed.

End RepeatFacts.

Section ExecFacts.

Lemma exec_open (rest : pattern) (pos : nat) (s : str) (m : caps) :
  exec (Open :: rest) pos s m
  = exec rest pos s {| opened := pos :: opened m; closed := closed m |}.
Proof. reflexivity. Qed.

Lemma exec_close (rest : pattern) (pos b : nat) (o : list nat)
    (cl : list (nat * nat)) (s : str) :
  exec (Close :: rest) pos s {| opened := b :: o; closed := cl |}
  = exec rest pos s {| opened := o; closed := cl ++ [(b, pos)] |}.
Proof. reflexivity. Qed.

Lemma exec_one (p : char -> bool) (rest : pattern) (pos : nat) (c : char)
    (s : str) (m : caps) :
  p c = true -> exec (One p :: rest) pos (c :: s) m = exec rest (S pos) s m.
Proof. intros H. simpl. rewrite H. reflexivity. Qed.

Lemma exec_one_fails (p : char -> bool) (rest : pattern) (pos : nat)
    (c : char) (s : str) (m : caps) :
  p c = false -> exec (One p :: rest) pos (c :: s) m = None.
Proof. intros H. simpl. rewrite H. reflexivity. Qed.

Lemma exec_greedy (p : char -> bool) (least : nat) (rest : pattern)
    (pos : nat) (s : str) (m : caps) :
  exec (Many p least true :: rest) pos s m
  = many_greedy p (fun pos' s' => exec rest pos' s' m) least pos s.
Proof. reflexivity. Qed.

Lemma exec_lazy (p : char -> bool) (least : nat) (rest : pattern)
    (pos : nat) (s : str) (m : caps) :
  exec (Many p least false :: rest) pos s m
  = many_lazy p (fun pos' s' => exec rest pos' s' m) least pos s.
Proof. reflexivity. Qed.

(** White space and then a character that is not the one the pattern
    asks for next: no count of the repetition lets the pattern go on. *)
Lemma spaces_then_other (space : char -> bool) (c : char) (rest : pattern)
    (m : caps) (ws : str) (x : char) (t : str) :
  forallb space ws = true -> space x = false -> x <> c -> space c = false ->
  forall pos,
    many_greedy space (fun pos' s' => exec (One (just c) :: rest) pos' s' m)
                0 pos (ws ++ x :: t) = None.
Proof.
  intros Hws Hx Hxc Hc.
  induction ws as [|y ws IH]; intros pos.
  - simpl many_greedy. rewrite Hx. apply exec_one_fails.
    unfold just. apply N.eqb_neq. congruence.
  - simpl in Hws. apply andb_prop in Hws. destruct Hws as [Hy Hws].
    simpl many_greedy. rewrite Hy, (IH Hws). apply exec_one_fails.
    unfold just. apply N.eqb_neq. intros ->. congruence.
Qed.

Lemma substr_at (a b c : str) (from to : nat) :
  from = List.length a -> to = List.length a + List.length b ->
  substr (a ++ b ++ c) (from, to) = b.
Proof.
  intros -> ->. unfold substr. simpl fst. simpl snd.
  rewrite skipn_app, skipn_all, Nat.sub_diag. simpl.
  replace (List.length a + List.length b - List.length a) with (List.length b + 0)
    by lia.
  rewrite firstn_app_2. simpl. apply app_nil_r.
Qed.

End ExecFacts.

(** The headword pattern on a line made of a number, a headword, a
    pronunciation and a translation. *)
Section HeadwordMatch.
Context {U : Unicode}.
Variables D H P T : str.
Hypothesis digits : forallb is_digit D = true.
Hypothesis some_digit : D <> [].
Hypothesis period : is_digit PERIOD = false.
Hypothesis space : isspace SPACE = true.
Hypothesis lparen : isspace LPAREN = false.
Hypothesis dash : isspace EN_DASH = false.
Hypothesis headword_line : forallb dot H = true.
Hypothesis headword_start : exists c r, H = c :: r /\ isspace c = false.
Hypothesis headword_end :
  forall a b, H = a ++ b -> b <> [] ->
    exists ws x t, b = ws ++ x :: t /\ forallb isspace ws = true
                   /\ isspace x = false /\ x <> LPAREN.
Hypothesis pronunciation_open : forallb (except RPAREN) P = true.
Hypothesis some_pronunciation : P <> [].
Hypothesis translation_line : forallb dot T = true.
Hypothesis translation_start : exists c r, T = c :: r /\ isspace c = false.

Local Abbreviation shown :=
  (D ++ PERIOD :: SPACE :: H ++ SPACE :: LPAREN :: P
     ++ RPAREN :: SPACE :: EN_DASH :: SPACE :: T).

Lemma length_not_nil (t : str) : t <> [] -> 1 <= List.length t.
Proof. destruct t; [congruence|simpl; lia]. Qed.

Lemma headword_groups :
  exists m,
    exec word_pattern 0 shown no_caps = Some m
    /\ closed m
       = [ (0, List.length D);
           (List.length D + 2, List.length D + 2 + List.length H);
           (List.length D + List.length H + 4,
            List.length D + List.length H + 4 + List.length P);
           (List.length D + List.length H + List.length P + 8,
            List.length D + List.length H + List.length P + 8 + List.length T) ].
Proof.
  destruct headword_start as (hc & hr & EH & Hhc).
  destruct translation_start as (tc & tr & ET & Htc).
  eexists. split.
  - unfold word_pattern.
    rewrite exec_open, exec_greedy.
    apply greedy_run;
      [exact digits|right; eauto|apply length_not_nil, some_digit|].
    cbv beta. cbn [opened closed no_caps].
    rewrite exec_close, exec_one by apply N.eqb_refl.
    rewrite exec_greedy.
    apply (@greedy_run isspace _ [SPACE] (H ++ SPACE :: LPAREN :: P
             ++ RPAREN :: SPACE :: EN_DASH :: SPACE :: T));
      [simpl; rewrite space; reflexivity
      |right; rewrite EH; simpl; eauto|simpl; lia|].
    cbv beta. rewrite exec_open, exec_lazy.
    apply lazy_found;
      [exact headword_line|rewrite EH; simpl; lia| |].
    + intros a b E Hb _.
      destruct (headword_end _ E Hb) as (ws & x & t & -> & Hws & Hx & Hxl).
      rewrite exec_close, exec_greedy, <- app_assoc.
      apply spaces_then_other; assumption.
    + rewrite exec_close, exec_greedy.
      apply (@greedy_run isspace _ [SPACE] (LPAREN :: P
               ++ RPAREN :: SPACE :: EN_DASH :: SPACE :: T));
        [simpl; rewrite space; reflexivity|right; eauto|simpl; lia|].
      cbv beta. rewrite exec_one by apply N.eqb_refl.
      rewrite exec_open, exec_greedy.
      apply greedy_run;
        [exact pronunciation_open
        |right; exists RPAREN; eexists; split; [reflexivity|];
         unfold except; rewrite N.eqb_refl; reflexivity
        |apply length_not_nil, some_pronunciation|].
      cbv beta. rewrite exec_close, exec_one by apply N.eqb_refl.
      rewrite exec_greedy.
      apply (@greedy_run isspace _ [SPACE] (EN_DASH :: SPACE :: T));
        [simpl; rewrite space; reflexivity|right; eauto|simpl; lia|].
      cbv beta. rewrite exec_one by reflexivity.
      rewrite exec_greedy.
      apply (@greedy_run isspace _ [SPACE] T);
        [simpl; rewrite space; reflexivity|right; rewrite ET; eauto|simpl; lia|].
      cbv beta. rewrite exec_open, exec_greedy.
      rewrite <- (app_nil_r T) at 1.
      apply greedy_run;
        [exact translation_line|left; reflexivity
        |rewrite ET; simpl; lia|].
      cbv beta. rewrite exec_close. cbn [exec]. reflexivity.
  - cbn [closed app].
    repeat (apply (f_equal2 (@cons (nat * nat)));
            [apply (f_equal2 (@pair nat nat)); cbn [List.length]; lia|]).
    reflexivity.
Qed.

Lemma substr_in (whole a b c : str) (from to : nat) :
  whole = a ++ b ++ c -> from = List.length a -> to = from + List.length b ->
  substr whole (from, to) = b.
Proof. intros -> E1 E2. apply substr_at; [exact E1|rewrite E2, E1; reflexivity]. Qed.

Lemma headword_run : run word_pattern shown = Some [D; H; P; T].
Proof.
  unfold run. destruct headword_groups as (m & E & C). rewrite E, C.
  cbn [map]. repeat f_equal.
  - apply (@substr_in _ [] D (PERIOD :: SPACE :: H ++ SPACE :: LPAREN :: P
             ++ RPAREN :: SPACE :: EN_DASH :: SPACE :: T)); reflexivity.
  - apply (@substr_in _ (D ++ [PERIOD; SPACE]) H
             (SPACE :: LPAREN :: P ++ RPAREN :: SPACE :: EN_DASH :: SPACE :: T)).
    + rewrite <- app_assoc. reflexivity.
    + rewrite length_app. reflexivity.
    + reflexivity.
  - apply (@substr_in _ (D ++ [PERIOD; SPACE] ++ H ++ [SPACE; LPAREN]) P
             (RPAREN :: SPACE :: EN_DASH :: SPACE :: T)).
    + rewrite <- !app_assoc. reflexivity.
    + rewrite !length_app. simpl. lia.
    + reflexivity.
  - apply (@substr_in _ (D ++ [PERIOD; SPACE] ++ H ++ [SPACE; LPAREN] ++ P
                           ++ [RPAREN; SPACE; EN_DASH; SPACE]) T []).
    + rewrite <- !app_assoc, app_nil_r. reflexivity.
    + rewrite !length_app. simpl. lia.
    + reflexivity.
Qed.

End HeadwordMatch.

(** The decimal digits of a number, read back by [int]. *)
Section Numbers.
Context {U : Unicode}.
Hypothesis ok : Tables_ok U.

Lemma digit_chars (d : Decimal.uint) :
  Forall (fun c => exists k, (k < 10)%N /\ c = digit_char k) (digits_of_uint d).
Proof.
  induction d; simpl; constructor; try exact IHd;
    eexists; (split; [|reflexivity]); reflexivity.
Qed.

Lemma digits_are_digits (d : Decimal.uint) :
  forallb is_digit (digits_of_uint d) = true.
Proof.
  apply forallb_forall. intros c Hc.
  pose proof (digit_chars d) as F. rewrite Forall_forall in F.
  destruct (F c Hc) as (k & Hk & ->). unfold is_digit.
  rewrite (digit_value ok Hk). reflexivity.
Qed.

Lemma fold_digits (d : Decimal.uint) : forall acc,
  fold_left (fun acc c =>
               (acc * 10 + match decimal c with Some v => v | None => 0 end)%N)
            (digits_of_uint d) (N.pos acc)
  = N.pos (Pos.of_uint_acc d acc).
Proof.
  induction d; intros acc; cbn [digits_of_uint fold_left Pos.of_uint_acc];
    [reflexivity| ..];
    rewrite (digit_value ok) by reflexivity;
    rewrite <- IHd; f_equal; lia.
Qed.

Lemma int_of_uint (d : Decimal.uint) :
  int_of_digits (digits_of_uint d) = N.of_uint d.
Proof.
  unfold int_of_digits, N.of_uint.
  induction d; cbn [digits_of_uint fold_left Pos.of_uint]; try reflexivity;
    rewrite (digit_value ok) by reflexivity;
    first [exact IHd | rewrite <- fold_digits; f_equal].
Qed.

Lemma int_of_str (n : N) : int_of_digits (str_of_N n) = n.
Proof. unfold str_of_N. rewrite int_of_uint. apply DecimalN.Unsigned.of_to. Qed.

Lemma str_of_N_digits (n : N) : forallb is_digit (str_of_N n) = true.
Proof. apply digits_are_digits. Qed.

Lemma str_of_N_starts (n : N) :
  exists k r, (k < 10)%N /\ str_of_N n = digit_char k :: r.
Proof.
  unfold str_of_N. pose proof (digit_chars (N.to_uint n)) as F.
  destruct (digits_of_uint (N.to_uint n)) as [|c r] eqn:E.
  - exfalso. destruct n as [|q]; [discriminate|].
    simpl in E. pose proof (DecimalPos.Unsigned.to_uint_nonnil q) as Hn.
    destruct (Pos.to_uint q); [congruence|discriminate..].
  - inversion F as [|? ? (k & Hk & ->) _]. exists k, r. auto.
Qed.

End Numbers.

(* ------------------------------------------------------------------ *)
(** * The text shown, read back by [parse_text] *)

Section ShownLines.
Context {U : Unicode}.
Hypothesis ok : Tables_ok U.

Lemma one_line_dot (t : str) : one_line t = true -> forallb dot t = true.
Proof.
  unfold one_line, has_char, dot, except.
  induction t as [|c r IH]; [reflexivity|]. cbn [existsb forallb].
  destruct (NL =? c)%N; [discriminate|exact IH].
Qed.

Lemma no_char_forall (c : char) (t : str) :
  has_char c t = false -> forallb (except c) t = true.
Proof.
  unfold has_char, except.
  induction t as [|x r IH]; [reflexivity|]. cbn [existsb forallb].
  destruct (c =? x)%N; [discriminate|exact IH].
Qed.

Lemma no_char_in (c : char) (t : str) (x : char) :
  has_char c t = false -> In x t -> x <> c.
Proof.
  intros H Hin ->. unfold has_char in H.
  assert (E : existsb (N.eqb c) t = true)
    by (apply existsb_exists; exists c; split; [exact Hin|apply N.eqb_refl]).
  congruence.
Qed.

Lemma separator_fails (c : char) (r : str) :
  c <> HYPHEN -> matches separator_pattern (c :: r) = false.
Proof.
  intros H. unfold matches, run, separator_pattern.
  change (exec (Caret :: ?r) 0 ?t ?m) with (exec r 0 t m).
  rewrite exec_greedy. cbn [many_greedy]. unfold just.
  rewrite (proj2 (N.eqb_neq HYPHEN c)) by congruence. reflexivity.
Qed.

Lemma not_skipped (c : char) (r : str) :
  c <> HYPHEN -> is_skipped (c :: r) = false.
Proof. intros H. unfold is_skipped. rewrite (separator_fails r H). reflexivity. Qed.

Lemma isupper_from_true (t : str) :
  forallb (fun c => negb (is_lower_or_title c)) t = true ->
  isupper_from true t = true.
Proof.
  induction t as [|c r IH]; simpl; [reflexivity|].
  destruct (is_lower_or_title c); simpl; [discriminate|exact IH].
Qed.

Lemma isupper_from_app (t v : str) :
  forallb (fun c => negb (is_lower_or_title c)) v = true ->
  forall b, isupper_from b t = true -> isupper_from b (t ++ v) = true.
Proof.
  intros Hv. induction t as [|c r IH]; intros b; simpl.
  - intros ->. apply isupper_from_true, Hv.
  - destruct (is_lower_or_title c); [discriminate|apply IH].
Qed.

Lemma isupper_from_more (t : str) : forall b,
  isupper_from b t = true -> isupper_from (b || true) t = true.
Proof.
  induction t as [|c r IH]; intros b; simpl.
  - intros _. apply orb_true_r.
  - destruct (is_lower_or_title c); [discriminate|].
    intros H. rewrite orb_true_r. simpl.
    specialize (IH _ H). rewrite orb_true_r in IH. exact IH.
Qed.

Lemma isupper_bold (c : str) : isupper c = true -> isupper (bold c) = true.
Proof.
  unfold isupper, bold. intros H. cbn [app isupper_from].
  rewrite (star_no_case ok). cbn [orb].
  assert (T : isupper_from (is_upper STAR || is_upper STAR) c = true).
  { destruct (is_upper STAR); simpl; [|exact H].
    apply (isupper_from_more c false H). }
  apply isupper_from_app; [|exact T].
  simpl. rewrite (star_no_case ok). reflexivity.
Qed.

(** The line shown for a category is read as a header. *)
Lemma header_read (c : str) (st : pstate) :
  isupper c = true ->
  text_line st (bold c) = with_category (bold c) st.
Proof.
  intros H. unfold text_line.
  assert (E : strip (bold c) = bold c).
  { unfold bold. cbn [app].
    change (STAR :: STAR :: c ++ [STAR; STAR])
      with (STAR :: (STAR :: c ++ [STAR; STAR])).
    replace (STAR :: c ++ [STAR; STAR]) with ((STAR :: c ++ [STAR]) ++ [STAR])
      by (simpl; rewrite <- app_assoc; reflexivity).
    apply strip_kept; apply (star_no_space ok). }
  assert (L : (2 <? List.length (bold c)) = true).
  { apply Nat.ltb_lt. unfold bold. rewrite !length_app. simpl. lia. }
  assert (S : is_skipped (bold c) = false) by (apply not_skipped; discriminate).
  rewrite E, S. unfold is_category. rewrite (isupper_bold c H), L. reflexivity.
Qed.

(** The line shown for an example is not read as an example, nor as
    anything else. *)
Lemma example_line_ignored (e : str) (st : pstate) :
  text_line st (example_line e) = st.
Proof.
  unfold text_line.
  assert (E : strip (example_line e)
              = STAR :: (ex_colon ++ [SPACE] ++ e) ++ [STAR]).
  { unfold example_line. cbn [app].
    rewrite !strip_spaces_before by apply (space_is_space ok).
    replace (STAR :: ex_colon ++ SPACE :: e ++ [STAR])
      with (STAR :: (ex_colon ++ [SPACE] ++ e) ++ [STAR])
      by (rewrite <- !app_assoc; reflexivity).
    apply strip_kept; apply (star_no_space ok). }
  rewrite E. rewrite not_skipped by discriminate.
  assert (C : is_category (STAR :: (ex_colon ++ [SPACE] ++ e) ++ [STAR]) = false).
  { unfold is_category, isupper. cbn [app ex_colon isupper_from].
    rewrite (star_no_case ok), (e_is_lower ok). reflexivity. }
  rewrite C.
  assert (W : run word_pattern (STAR :: (ex_colon ++ [SPACE] ++ e) ++ [STAR]) = None).
  { unfold run, word_pattern. rewrite exec_open, exec_greedy.
    simpl many_greedy. unfold is_digit. rewrite (star_no_digit ok). reflexivity. }
  rewrite W.
  assert (X : run example_pattern (STAR :: (ex_colon ++ [SPACE] ++ e) ++ [STAR]) = None)
    by reflexivity.
  rewrite X.
  assert (L : startswith ex_colon
                (lower (STAR :: (ex_colon ++ [SPACE] ++ e) ++ [STAR])) = false).
  { unfold lower. cbn [flat_map]. rewrite (star_lower ok). reflexivity. }
  rewrite L. reflexivity.
Qed.

Lemma lstrip_head (t : str) (x : char) (r : str) :
  lstrip t = x :: r -> isspace x = false.
Proof.
  induction t as [|c t IH]; simpl; [discriminate|].
  destruct (isspace c) eqn:E; [exact IH|]. intros [= <- _]. exact E.
Qed.

(** After any part of the headword in bold type comes, past white space,
    a character that is no parenthesis. *)
Lemma bold_tail (en a b : str) :
  has_char LPAREN en = false ->
  bold en = a ++ b -> b <> [] ->
  exists ws x t, b = ws ++ x :: t /\ forallb isspace ws = true
                 /\ isspace x = false /\ x <> LPAREN.
Proof.
  intros Hen E Hb.
  destruct (exists_last Hb) as (b' & z & ->).
  assert (Hz : z = STAR).
  { unfold bold in E.
    replace ([STAR; STAR] ++ en ++ [STAR; STAR])
      with (([STAR; STAR] ++ en ++ [STAR]) ++ [STAR]) in E
      by (rewrite <- !app_assoc; reflexivity).
    rewrite (app_assoc a b' [z]) in E. apply app_inj_tail in E. symmetry. apply E. }
  subst z.
  destruct (lstrip_split (b' ++ [STAR])) as (ws & Ews & Hws).
  destruct (lstrip (b' ++ [STAR])) as [|x t] eqn:El.
  - exfalso. rewrite app_nil_r in Ews. rewrite <- Ews in Hws.
    rewrite forallb_app in Hws. simpl in Hws.
    rewrite (star_no_space ok), andb_false_r in Hws. discriminate.
  - exists ws, x, t. repeat split; [exact Ews|exact Hws|exact (lstrip_head _ El)|].
    assert (Hin : In x (bold en)).
    { rewrite E. apply in_or_app. right. rewrite Ews.
      apply in_or_app. right. left. reflexivity. }
    unfold bold in Hin. simpl in Hin.
    destruct Hin as [<-|[<-|Hin]]; try discriminate.
    apply in_app_or in Hin. destruct Hin as [Hin|[<-|[<-|[]]]]; try discriminate.
    exact (no_char_in _ Hen Hin).
Qed.

Lemma entry_line_shape (w : word) :
  entry_line w
  = str_of_N (number w) ++ PERIOD :: SPACE :: bold (english w)
      ++ SPACE :: LPAREN :: pronunciation w
      ++ RPAREN :: SPACE :: EN_DASH :: SPACE :: polish w.
Proof. unfold entry_line, bold. rewrite <- !app_assoc. reflexivity. Qed.

(** What [plain] asks of an entry. *)
Lemma plain_fields (w : word) :
  plain w = true ->
  (one_line (english w) = true /\ has_char LPAREN (english w) = false)
  /\ (trimmed (pronunciation w) = true /\ one_line (pronunciation w) = true
      /\ has_char RPAREN (pronunciation w) = false)
  /\ (trimmed (polish w) = true /\ one_line (polish w) = true
      /\ find ex_colon (lower (polish w)) = None)
  /\ isupper (entry_line w) = false
  /\ match example w with Some e => one_line e = true | None => True end
  /\ match category w with
     | Some c => one_line c = true /\ (c = [] \/ isupper c = true)
     | None => True
     end.
Proof.
  unfold plain. rewrite !andb_true_iff, !negb_true_iff.
  intros ((((((((((H1 & H2) & H3) & H4) & H5) & H6) & H7) & H8) & H9) & H10) & H11).
  repeat split; auto.
  - unfold contains in H8. destruct (find ex_colon (lower (polish w)));
      [discriminate|reflexivity].
  - destruct (example w); auto.
  - destruct (category w) as [c|]; [|exact I].
    apply andb_prop in H11. destruct H11 as [Ha Hb]. split; [exact Ha|].
    apply orb_prop in Hb. destruct Hb as [Hb|Hb]; [left|right; exact Hb].
    destruct c; [reflexivity|discriminate].
Qed.

(** The line shown for an entry is read as a headword line; the headword
    keeps the marks of bold type, and there is no example. *)
Lemma entry_line_read (w : word) (st : pstate) :
  plain w = true ->
  text_line st (entry_line w)
  = {| words := flush st;
       current_category := current_category st;
       current_word := Some (read_back (current_category st) w) |}.
Proof.
  intros Hp.
  destruct (plain_fields w Hp)
    as ((He1 & He2) & (Hp1 & Hp2 & Hp3) & (Ht1 & Ht2 & Ht3) & Hup & _ & _).
  destruct (trimmed_ends _ Hp1) as (Sp & pc & pr & Ep & Hpc & _).
  destruct (trimmed_ends _ Ht1) as (St & tc & tr & Et & Htc & tr' & td & Et' & Htd).
  destruct (str_of_N_starts (number w)) as (k & dr & Hk & Ed).
  assert (Es : strip (entry_line w) = entry_line w).
  { unfold entry_line. rewrite Ed, Et'.
    replace ((digit_char k :: dr) ++ [PERIOD; SPACE; STAR; STAR] ++ english w
             ++ [STAR; STAR; SPACE; LPAREN] ++ pronunciation w
             ++ [RPAREN; SPACE; EN_DASH; SPACE] ++ tr' ++ [td])
      with (digit_char k :: (dr ++ [PERIOD; SPACE; STAR; STAR] ++ english w
             ++ [STAR; STAR; SPACE; LPAREN] ++ pronunciation w
             ++ [RPAREN; SPACE; EN_DASH; SPACE] ++ tr') ++ [td])
      by (rewrite <- !app_assoc; reflexivity).
    apply strip_kept; [apply (digit_no_space ok Hk)|exact Htd]. }
  unfold text_line. rewrite Es.
  assert (Sk : is_skipped (entry_line w) = false).
  { unfold entry_line. rewrite Ed. cbn [app]. apply not_skipped.
    unfold digit_char, HYPHEN. lia. }
  rewrite Sk. unfold is_category. rewrite Hup. cbn [andb].
  assert (R : run word_pattern (entry_line w)
              = Some [str_of_N (number w); bold (english w);
                      pronunciation w; polish w]).
  { rewrite entry_line_shape. apply headword_run.
    - apply (str_of_N_digits ok).
    - rewrite Ed. discriminate.
    - unfold is_digit. rewrite (period_no_digit ok). reflexivity.
    - apply (space_is_space ok).
    - apply (lparen_no_space ok).
    - apply (dash_no_space ok).
    - unfold bold. rewrite !forallb_app, (one_line_dot _ He1). reflexivity.
    - exists STAR. eexists. split; [reflexivity|apply (star_no_space ok)].
    - intros a b E Hb. eapply bold_tail; eassumption.
    - apply no_char_forall, Hp3.
    - rewrite Ep. discriminate.
    - apply one_line_dot, Ht2.
    - exists tc, tr. auto. }
  rewrite R. f_equal. f_equal. unfold text_entry, read_back, group. cbn [nth pred].
  rewrite St, Ht3, Sp, (int_of_str ok). cbn [fst snd]. f_equal.
  unfold bold. cbn [app].
  replace (STAR :: STAR :: english w ++ [STAR; STAR])
    with (STAR :: (STAR :: english w ++ [STAR]) ++ [STAR])
    by (simpl; rewrite <- app_assoc; reflexivity).
  apply strip_kept; apply (star_no_space ok).
Qed.

End ShownLines.

Section ShownText.
Context {U : Unicode}.
Hypothesis ok : Tables_ok U.

Lemma has_char_app (c : char) (a b : str) :
  has_char c (a ++ b) = has_char c a || has_char c b.
Proof. apply existsb_app. Qed.

Lemma str_of_N_one_line (n : N) : has_char NL (str_of_N n) = false.
Proof.
  unfold str_of_N. pose proof (digit_chars (N.to_uint n)) as F.
  induction F as [|c r (k & Hk & ->) _ IH]; [reflexivity|].
  unfold has_char in *. cbn [existsb]. rewrite IH.
  rewrite (proj2 (N.eqb_neq NL (digit_char k))); [reflexivity|].
  unfold NL, digit_char. lia.
Qed.

Lemma entry_line_one_line (w : word) :
  plain w = true -> has_char NL (entry_line w) = false.
Proof.
  intros Hp.
  destruct (plain_fields w Hp)
    as ((He1 & _) & (_ & Hp2 & _) & (_ & Ht2 & _) & _).
  unfold one_line in *. rewrite negb_true_iff in *.
  unfold entry_line. rewrite !has_char_app, str_of_N_one_line, He1, Hp2, Ht2.
  reflexivity.
Qed.

Lemma example_line_one_line (e : str) :
  one_line e = true -> has_char NL (example_line e) = false.
Proof.
  unfold one_line. rewrite negb_true_iff. intros H.
  unfold example_line. rewrite !has_char_app, H. reflexivity.
Qed.

Lemma category_line_lines (c : str) :
  one_line c = true -> split NL (category_line c) = [[]; bold c; []].
Proof.
  unfold one_line. rewrite negb_true_iff. intros H.
  unfold category_line.
  replace ([NL; STAR; STAR] ++ c ++ [STAR; STAR; NL])
    with ([] ++ NL :: bold c ++ NL :: [])
    by (unfold bold; rewrite <- !app_assoc; reflexivity).
  rewrite !split_sep. rewrite (split_one_line (bold c)); [reflexivity|].
  unfold bold. rewrite !has_char_app, H. reflexivity.
Qed.

Lemma text_line_empty (st : pstate) : text_line st [] = st.
Proof. reflexivity. Qed.

Lemma entry_lines_read (w : word) (st : pstate) :
  plain w = true ->
  fold_left text_line (flat_map (split NL) (entry_lines w)) st
  = {| words := flush st;
       current_category := current_category st;
       current_word := Some (read_back (current_category st) w) |}.
Proof.
  intros Hp. unfold entry_lines. cbn [flat_map].
  rewrite (split_one_line _ (entry_line_one_line w Hp)). cbn [app fold_left].
  rewrite (entry_line_read ok w st Hp).
  destruct (plain_fields w Hp) as (_ & _ & _ & _ & Hex & _).
  destruct (example w) as [[|x e]|]; try reflexivity.
  cbn [flat_map]. rewrite (split_one_line _ (example_line_one_line _ Hex)).
  cbn [app fold_left]. apply (example_line_ignored ok).
Qed.

Lemma entries_read (ws : list word) :
  forallb plain ws = true ->
  forall st,
    flush (fold_left text_line (flat_map (split NL) (flat_map entry_lines ws)) st)
    = flush st ++ map (read_back (current_category st)) ws
    /\ current_category
         (fold_left text_line (flat_map (split NL) (flat_map entry_lines ws)) st)
       = current_category st.
Proof.
  induction ws as [|w ws IH]; intros Hp st.
  - simpl. rewrite app_nil_r. auto.
  - simpl in Hp. apply andb_prop in Hp. destruct Hp as [Hw Hws].
    cbn [flat_map]. rewrite flat_map_app, fold_left_app.
    rewrite (entry_lines_read w st Hw).
    destruct (IH Hws {| words := flush st;
                        current_category := current_category st;
                        current_word := Some (read_back (current_category st) w) |})
      as [E1 E2].
    rewrite E1, E2. cbn [current_category map]. split; [|reflexivity].
    unfold flush at 1. cbn [current_word words].
    rewrite <- app_assoc. reflexivity.
Qed.

Lemma group_read (g : option str * list word) (st : pstate) :
  shown_well g ->
  flush (fold_left text_line (flat_map (split NL) (category_lines g)) st)
  = flush st
    ++ map (read_back (shown_category (current_category st) (fst g))) (snd g)
  /\ current_category
       (fold_left text_line (flat_map (split NL) (category_lines g)) st)
     = shown_category (current_category st) (fst g).
Proof.
  destruct g as [c l]. intros [Hl Hc]. cbn [fst snd] in *.
  unfold category_lines. cbn [fst snd]. rewrite flat_map_app, fold_left_app.
  destruct c as [[|x c]|]; cbn [flat_map app fold_left shown_category];
    try exact (entries_read l Hl st).
  destruct Hc as [Hc1 Hc2].
  rewrite (category_line_lines _ Hc1). cbn [app fold_left].
  rewrite !text_line_empty, (header_read ok _ st Hc2).
  exact (entries_read l Hl (with_category (bold (x :: c)) st)).
Qed.

Lemma groups_read (groups : list (option str * list word)) :
  Forall shown_well groups ->
  forall st,
    flush (fold_left text_line
             (flat_map (split NL) (flat_map category_lines groups)) st)
    = flush st ++ read_back_groups (current_category st) groups.
Proof.
  induction 1 as [|g groups Hg _ IH]; intros st.
  - simpl. symmetry. apply app_nil_r.
  - cbn [flat_map]. rewrite flat_map_app, fold_left_app.
    destruct (group_read st Hg) as [E1 E2].
    rewrite IH, E1, E2. destruct g as [c l]. cbn [read_back_groups fst snd].
    rewrite <- app_assoc. reflexivity.
Qed.

End ShownText.

(** The groups of [format_words_for_display]. *)
Section Groups.
Context {U : Unicode}.

Lemma eqb_category_eq (a b : option str) : eqb_category a b = true -> a = b.
Proof.
  destruct a, b; simpl; try discriminate; try reflexivity.
  intros H. apply eqb_str_eq in H. congruence.
Qed.

Lemma add_to_category_grouped (w : word) (categories : list (option str * list word)) :
  plain w = true ->
  Forall grouped categories -> Forall grouped (add_to_category w categories).
Proof.
  intros Hw. induction 1 as [|[c l] rest [Hn Hg] Hrest IH]; simpl.
  - constructor; [|constructor]. split; [discriminate|]. simpl. auto.
  - destruct (eqb_category c (category w)) eqn:E.
    + constructor; [|exact Hrest]. split; simpl in *.
      * destruct l; discriminate.
      * apply Forall_app. split; [exact Hg|].
        constructor; [|constructor]. split; [exact Hw|].
        symmetry. apply eqb_category_eq, E.
    + constructor; [split; assumption|exact IH].
Qed.

Lemma group_words_grouped (ws : list word) :
  forallb plain ws = true -> Forall grouped (group_words ws).
Proof.
  unfold group_words. intros H.
  assert (G : forall acc, Forall grouped acc ->
            Forall grouped
              (fold_left (fun categories w => add_to_category w categories) ws acc)).
  { induction ws as [|w ws IH]; intros acc Hacc; simpl; [exact Hacc|].
    simpl in H. apply andb_prop in H. destruct H as [Hw Hws].
    apply (IH Hws). apply add_to_category_grouped; assumption. }
  apply G. constructor.
Qed.

Lemma grouped_shown_well (g : option str * list word) :
  grouped g -> shown_well g.
Proof.
  destruct g as [c l]. intros [Hn Hg]. simpl in *. split; simpl.
  - apply forallb_forall. intros w Hw. rewrite Forall_forall in Hg.
    apply (Hg w Hw).
  - destruct c as [[|x c]|]; auto.
    destruct l as [|w l]; [congruence|].
    inversion Hg as [|? ? [Hp Hc] _]; subst.
    destruct (plain_fields w Hp) as (_ & _ & _ & _ & _ & Hcat).
    rewrite Hc in Hcat. destruct Hcat as [H1 [H2|H2]]; [discriminate|auto].
Qed.

End Groups.

(** C7, amended.  The text shown is Markdown and is not read back as the
    entries it shows.  For entries with plain fields, [parse_text] reads
    it as one entry for each entry shown, in the order shown (by
    category), with the same number, pronunciation and translation, but
    with the headword in its marks of bold type, with no example, and
    under the header shown before it, in its marks of bold type too. *)
Theorem C7_shown_text_read_back {U : Unicode} (ws : list word) :
  Tables_ok U ->
  forallb plain ws = true ->
  parse_text (format_words_for_display ws)
  = read_back_groups None (group_words ws).
Proof.
  intros ok Hp. rewrite parse_text_lines. unfold format_words_for_display, parse_lines.
  assert (G : Forall shown_well (group_words ws)).
  { eapply Forall_impl; [apply grouped_shown_well|].
    apply group_words_grouped, Hp. }
  change (read_back_groups None (group_words ws))
    with (flush start
          ++ read_back_groups (current_category start) (group_words ws)).
  rewrite <- (groups_read ok G start).
  destruct (flat_map category_lines (group_words ws)) as [|p pieces] eqn:E.
  - reflexivity.
  - rewrite split_join by discriminate. reflexivity.
Qed.

Lemma latin_ok : Tables_ok latin.
Proof.
  assert (D : forall d, (d < 10)%N ->
                d = 0%N \/ d = 1%N \/ d = 2%N \/ d = 3%N \/ d = 4%N \/ d = 5%N
                \/ d = 6%N \/ d = 7%N \/ d = 8%N \/ d = 9%N) by (intros d H; lia).
  constructor; try reflexivity; intros d H;
    destruct (D d H) as [->|[->|[->|[->|[->|[->|[->|[->|[->| ->]]]]]]]]];
    reflexivity.
Qed.

Lemma C7_witness :
  parse_text (U:=latin)
    (format_words_for_display (parse_text (U:=latin) two_categories))
  = read_back_groups None (group_words (parse_text (U:=latin) two_categories)).
Proof.
  apply (@C7_shown_text_read_back latin (parse_text (U:=latin) two_categories)).
  - exact latin_ok.
  - vm_compute. reflexivity.
Defined.

(* ------------------------------------------------------------------ *)
(** * Further properties of the parser *)

Section Entries.
Context {U : Unicode}.

Lemma header_no_headword (l : str) : is_header l = true -> is_headword l = false.
Proof.
  unfold is_header, is_headword. intros H. apply andb_prop in H.
  destruct H as [_ H]. rewrite H, andb_false_r. reflexivity.
Qed.

Lemma length_sticky (lines : list str) : forall cat,
  List.length (sticky cat lines) = count_headwords lines.
Proof.
  unfold count_headwords.
  induction lines as [|l rest IH]; intros cat; simpl; [reflexivity|].
  destruct (is_header l) eqn:Eh.
  - rewrite (header_no_headword _ Eh). apply IH.
  - destruct (is_headword l); simpl; rewrite IH; reflexivity.
Qed.

(** X1.  [parse_text] gives one entry for each headword line of the text,
    that is, for each line that is not blank, no separator and no header
    and that matches the pattern of the headwords; the other lines open no
    entry and close none. *)
Theorem X1_one_entry_per_headword_line (text : str) :
  List.length (parse_text text) = count_headwords (split NL text).
Proof.
  rewrite parse_text_lines, <- (length_map category), categories_of_lines.
  apply length_sticky.
Qed.

Lemma flush_prepend (before : list word) (st : pstate) :
  flush (prepend before st) = before ++ flush st.
Proof.
  unfold flush, prepend. cbn [current_word words].
  destruct (current_word st); [symmetry; apply app_assoc|reflexivity].
Qed.

Lemma text_line_prepend (before : list word) (st : pstate) (l : str) :
  text_line (prepend before st) l = prepend before (text_line st l).
Proof.
  unfold text_line.
  destruct (is_skipped (strip l)); [reflexivity|].
  destruct (is_category (strip l)); [reflexivity|].
  destruct (run word_pattern (strip l)) as [g|].
  { rewrite flush_prepend. reflexivity. }
  cbn [prepend current_word].
  destruct (run example_pattern (strip l)) as [g|], (current_word st) as [w|];
    try destruct (startswith ex_colon (lower (strip l))); reflexivity.
Qed.

Lemma fold_prepend (before : list word) (lines : list str) : forall st,
  fold_left text_line lines (prepend before st)
  = prepend before (fold_left text_line lines st).
Proof.
  induction lines as [|l rest IH]; intros st; cbn [fold_left]; [reflexivity|].
  rewrite text_line_prepend. apply IH.
Qed.

Lemma category_of_scan (lines : list str) : forall st,
  current_category (fold_left text_line lines st)
  = fold_left (fun cat l => if is_header l then Some (strip l) else cat)
              lines (current_category st).
Proof.
  induction lines as [|l rest IH]; intros st; cbn [fold_left]; [reflexivity|].
  rewrite IH. destruct (text_line_categories st l) as [E _]. rewrite E.
  reflexivity.
Qed.

Lemma headword_step (st : pstate) (h : str) :
  is_headword h = true ->
  text_line st h
  = prepend (flush st)
      (text_line {| words := []; current_category := current_category st;
                    current_word := None |} h).
Proof.
  unfold is_headword, matches, text_line. intros H.
  apply andb_prop in H. destruct H as [H Hm].
  apply andb_prop in H. destruct H as [Hs Hc].
  apply negb_true_iff in Hs. apply negb_true_iff in Hc. rewrite Hs, Hc.
  destruct (run word_pattern (strip h)) as [g|]; [|discriminate].
  unfold prepend, flush. cbn [words current_category current_word].
  rewrite app_nil_r. reflexivity.
Qed.

(** X2.  Reading is cut at the headword lines: when the lines of a text
    are [before], a headword line and [after], the entries are those of
    [before] read alone, followed by those of the headword line and of
    [after] read under the last header of [before].  No line from a
    headword line on changes an entry opened before it. *)
Theorem X2_reading_is_cut_at_headword_lines (text : str)
    (before after : list str) (headword : str) :
  split NL text = before ++ headword :: after ->
  is_headword headword = true ->
  parse_text text
  = parse_lines before
    ++ parse_under (category_in_force before) (headword :: after).
Proof.
  intros Hlines Hh.
  rewrite parse_text_lines, Hlines. unfold parse_lines, parse_under.
  rewrite fold_left_app. cbn [fold_left].
  rewrite (@headword_step _ headword Hh), fold_prepend, flush_prepend.
  rewrite (category_of_scan before start). reflexivity.
Qed.

End Entries.

Lemma X2_witness :
  parse_text (U:=latin) two_categories
  = parse_lines (U:=latin) (lines_before ++ [u "CZASOWNIKI"; []])
    ++ parse_under (U:=latin)
         (category_in_force (U:=latin) (lines_before ++ [u "CZASOWNIKI"; []]))
         (u "2. run (ran) – biegać"
          :: [u "ex: She runs fast."; u "3. eat (it) – jeść"] ++ lines_after).
Proof.
  apply (@X2_reading_is_cut_at_headword_lines latin two_categories).
  - vm_compute. reflexivity.
  - vm_compute. reflexivity.
Defined.

Section Trimmed.
Context {U : Unicode}.

Lemma lstrip_lstrip (t : str) : lstrip (lstrip t) = lstrip t.
Proof.
  induction t as [|c r IH]; simpl; [reflexivity|].
  destruct (isspace c) eqn:E; [exact IH|]. simpl. rewrite E. reflexivity.
Qed.

Lemma lstrip_starts (t : str) (c : char) (r : str) :
  lstrip t = c :: r -> isspace c = false.
Proof.
  intros E. apply (@lstrip_fixed _ c r). rewrite <- E. apply lstrip_lstrip.
Qed.

Lemma rstrip_rstrip (t : str) : rstrip (rstrip t) = rstrip t.
Proof. unfold rstrip. rewrite rev_involutive, lstrip_lstrip. reflexivity. Qed.

(** [strip] removes from the right of [lstrip]. *)
Lemma rstrip_split (t : str) :
  exists w, t = rstrip t ++ w /\ forallb isspace w = true.
Proof.
  destruct (lstrip_split (rev t)) as (w & E & Hw).
  exists (rev w). split.
  - unfold rstrip. rewrite <- rev_app_distr, <- E. symmetry. apply rev_involutive.
  - rewrite forallb_forall in *. intros x Hx. apply Hw, in_rev, Hx.
Qed.

Lemma strip_strip (t : str) : strip (strip t) = strip t.
Proof.
  unfold strip at 2 3. set (a := lstrip t).
  destruct (rstrip a) as [|c r] eqn:E; [reflexivity|].
  assert (Hc : isspace c = false).
  { destruct (rstrip_split a) as (w & Ea & _). rewrite E in Ea.
    apply (@lstrip_starts t c (r ++ w)). fold a. exact Ea. }
  unfold strip. simpl lstrip. rewrite Hc, <- E. apply rstrip_rstrip.
Qed.

Lemma stripped_text_entry (g : list str) (cat : option str) :
  stripped (text_entry g cat).
Proof.
  unfold stripped, text_entry. cbn [english pronunciation polish example].
  destruct (find ex_colon (lower (strip (group g 4)))) as [ex_pos|];
    cbn [fst snd]; repeat split; try apply strip_strip.
  - intros e E. injection E as <-. apply strip_strip.
  - discriminate.
Qed.

Lemma stripped_set_example (e : str) (w : word) :
  stripped w -> stripped (set_example (Some (strip e)) w).
Proof.
  unfold stripped. cbn [set_example english pronunciation polish example].
  intros (H1 & H2 & H3 & _). repeat split; auto.
  intros e' E. injection E as <-. apply strip_strip.
Qed.

Lemma all_stripped_flush (st : pstate) :
  all_stripped st -> Forall stripped (flush st).
Proof.
  intros [Hw Hc]. unfold flush. destruct (current_word st) as [w|]; [|exact Hw].
  apply Forall_app. split; [exact Hw|]. constructor; [|constructor].
  apply Hc. reflexivity.
Qed.

Lemma all_stripped_with_example (e : str) (w : word) (st : pstate) :
  all_stripped st -> current_word st = Some w ->
  all_stripped (with_example (strip e) w st).
Proof.
  intros [Hw Hc] E. split; [exact Hw|].
  cbn [with_example current_word]. intros w' E'. injection E' as <-.
  apply stripped_set_example, Hc, E.
Qed.

Lemma all_stripped_text_line (st : pstate) (l : str) :
  all_stripped st -> all_stripped (text_line st l).
Proof.
  intros H. unfold text_line.
  destruct (is_skipped (strip l)); [exact H|].
  destruct (is_category (strip l)); [exact H|].
  destruct (run word_pattern (strip l)) as [g|].
  { split; cbn [words current_word].
    - apply all_stripped_flush, H.
    - intros w E. injection E as <-. apply stripped_text_entry. }
  destruct (run example_pattern (strip l)) as [g|],
           (current_word st) as [w|] eqn:Ew;
    try destruct (startswith ex_colon (lower (strip l)));
    try exact H; apply all_stripped_with_example; assumption.
Qed.

Lemma all_stripped_scan (lines : list str) : forall st,
  all_stripped st -> all_stripped (fold_left text_line lines st).
Proof.
  induction lines as [|l rest IH]; intros st H; cbn [fold_left]; [exact H|].
  apply IH, all_stripped_text_line, H.
Qed.

(** X3.  The texts of the entries that [parse_text] returns (headword,
    pronunciation, translation and, when there is one, example) have no
    white space at their ends: each is its own [strip]. *)
Theorem X3_entries_are_stripped (text : str) :
  Forall stripped (parse_text text).
Proof.
  unfold parse_text, parse_lines.
  apply all_stripped_flush, all_stripped_scan.
  split; [constructor|discriminate].
Qed.

Lemma in_sticky (lines : list str) : forall cat c,
  In (Some c) (sticky cat lines) ->
  cat = Some c
  \/ exists header, In header lines /\ is_header header = true
                    /\ c = strip header.
Proof.
  induction lines as [|l rest IH]; intros cat c H; cbn [sticky] in H.
  - destruct H.
  - destruct (is_header l) eqn:Eh.
    + right. destruct (IH _ _ H) as [E|(h & Hin & Hh & Ec)].
      * injection E as <-. exists l. simpl. auto.
      * exists h. simpl. auto.
    + assert (K : In (Some c) (sticky cat rest) -> cat = Some c
                  \/ exists header, In header (l :: rest)
                       /\ is_header header = true /\ c = strip header).
      { intros H'. destruct (IH _ _ H') as [E|(h & Hin & Hh & Ec)]; [auto|].
        right. exists h. simpl. auto. }
      destruct (is_headword l); [|exact (K H)].
      destruct H as [E|H]; [left; congruence|exact (K H)].
Qed.

(** X4.  The category of an entry that [parse_text] returns is either
    absent or the text, stripped, of a header line of the text: a line
    that is entirely in upper case and longer than two characters.  It is
    never an empty text. *)
Theorem X4_categories_are_headers (text : str) (w : word) (c : str) :
  In w (parse_text text) ->
  category w = Some c ->
  is_category c = true
  /\ exists header, In header (split NL text) /\ is_header header = true
                    /\ c = strip header.
Proof.
  intros Hw Hc.
  assert (H : In (Some c) (sticky None (split NL text))).
  { rewrite <- categories_of_lines, <- parse_text_lines, <- Hc.
    apply in_map, Hw. }
  destruct (in_sticky _ _ _ H) as [E|(h & Hin & Hh & Ec)]; [discriminate|].
  split; [|exists h; auto].
  subst c. unfold is_header in Hh. apply andb_prop in Hh. apply Hh.
Qed.

End Trimmed.

Lemma X4_witness :
  is_category (U:=latin) (u "CZASOWNIKI") = true
  /\ exists header,
       In header (split NL scenario_A) /\ is_header (U:=latin) header = true
       /\ u "CZASOWNIKI" = strip (U:=latin) header.
Proof.
  apply (@X4_categories_are_headers latin scenario_A
           {| number := 1; english := u "run"; pronunciation := u "ran";
              polish := u "biegać"; example := Some (u "She runs fast.");
              category := Some (u "CZASOWNIKI") |}).
  - vm_compute. left. reflexivity.
  - reflexivity.
Defined.

Section TwoParsers.
Context {U : Unicode}.

Lemma entry_without_example (g : list str) (cat : option str) :
  contains ex_colon (lower (strip (group g 4))) = false ->
  text_entry g cat = document_entry g None cat.
Proof.
  unfold contains, text_entry, document_entry.
  destruct (find ex_colon (lower (strip (group g 4)))); [discriminate|].
  reflexivity.
Qed.

Lemma document_paragraph_alike (st : pstate) (para : str) :
  read_alike para = true -> document_paragraph st para = text_line st para.
Proof.
  unfold read_alike, document_paragraph, text_line, paired_paragraph, matches.
  destruct (is_skipped (strip para)); [reflexivity|].
  destruct (is_category (strip para)); [reflexivity|].
  cbn [orb]. intros H. apply andb_prop in H. destruct H as [Hn H].
  apply negb_true_iff in Hn. rewrite Hn.
  destruct (run word_pattern (strip para)) as [g|].
  { apply negb_true_iff in H. rewrite (entry_without_example _ _ H).
    reflexivity. }
  destruct (run example_pattern (strip para)) as [g|],
           (current_word st) as [w|],
           (startswith ex_colon (lower (strip para)));
    try reflexivity.
  cbn [orb andb] in H. apply negb_true_iff in H. rewrite H. reflexivity.
Qed.

Lemma scan_alike (paragraphs : list str) : forall st,
  forallb read_alike paragraphs = true ->
  fold_left document_paragraph paragraphs st
  = fold_left text_line paragraphs st.
Proof.
  induction paragraphs as [|p rest IH]; intros st H; cbn [fold_left];
    [reflexivity|].
  cbn [forallb] in H. apply andb_prop in H. destruct H as [Hp Hr].
  rewrite (document_paragraph_alike st _ Hp). apply IH, Hr.
Qed.

(** X5.  [parse_document] and [parse_text] agree on a document whose
    paragraphs are the lines of the text, when each paragraph is skipped
    or a header, or is neither a headword line with "ex:" in its
    translation nor an "ex:" with nothing after it. *)
Theorem X5_document_read_as_text (text : str) (paragraphs : list str) :
  split NL text = paragraphs ->
  forallb read_alike paragraphs = true ->
  parse_document paragraphs = parse_text text.
Proof.
  intros Hlines H. rewrite parse_text_lines, Hlines.
  unfold parse_document, parse_lines. rewrite (scan_alike _ _ H). reflexivity.
Qed.

End TwoParsers.

Lemma X5_witness :
  parse_document (U:=latin) (split NL two_categories)
  = parse_text (U:=latin) two_categories.
Proof.
  apply (@X5_document_read_as_text latin).
  - reflexivity.
  - vm_compute. reflexivity.
Defined.

(* ------------------------------------------------------------------ *)
(** * The groups of [format_words_for_display] *)

Section Grouping.

Lemma eqb_category_iff (a b : option str) : eqb_category a b = true <-> a = b.
Proof.
  destruct a as [x|], b as [y|]; simpl; try (split; congruence).
  unfold eqb_str. destruct (list_eq_dec N.eq_dec x y); split; congruence.
Qed.

Lemma eqb_category_false (a b : option str) : a <> b -> eqb_category a b = false.
Proof.
  intros H. destruct (eqb_category a b) eqn:E; [|reflexivity].
  apply eqb_category_iff in E. contradiction.
Qed.

Lemma members_app (c : option str) (ws : list word) (w : word) :
  members c (ws ++ [w])
  = members c ws ++ (if eqb_category c (category w) then [w] else []).
Proof. unfold members. rewrite filter_app. reflexivity. Qed.

Lemma keys_add (w : word) (categories : list (option str * list word)) :
  In (category w) (map fst (add_to_category w categories))
  /\ forall c, In c (map fst (add_to_category w categories)) ->
               In c (map fst categories) \/ c = category w.
Proof.
  induction categories as [|[c0 ws0] rest [IH1 IH2]]; simpl.
  - split; [auto|]. intros c [E|[]]. auto.
  - destruct (eqb_category c0 (category w)) eqn:E; simpl.
    + apply eqb_category_iff in E. split; [auto|]. intros c H. auto.
    + split; [auto|]. intros c [H|H]; [auto|].
      destruct (IH2 c H); auto.
Qed.

Lemma keys_kept (w : word) (categories : list (option str * list word)) (c : option str) :
  In c (map fst categories) -> In c (map fst (add_to_category w categories)).
Proof.
  induction categories as [|[c0 ws0] rest IH]; simpl; [tauto|].
  destruct (eqb_category c0 (category w)); simpl; tauto.
Qed.

Lemma NoDup_add (w : word) (categories : list (option str * list word)) :
  NoDup (map fst categories) -> NoDup (map fst (add_to_category w categories)).
Proof.
  induction categories as [|[c0 ws0] rest IH]; simpl; intros H.
  - constructor; [tauto|constructor].
  - inversion H as [|? ? Hn Hr]; subst.
    destruct (eqb_category c0 (category w)) eqn:E; simpl.
    + constructor; assumption.
    + constructor; [|apply IH, Hr].
      intros Hin. destruct (proj2 (keys_add w rest) _ Hin) as [K|K];
        [contradiction|].
      subst c0. rewrite (proj2 (eqb_category_iff _ _) eq_refl) in E.
      discriminate.
Qed.

Lemma in_add (w : word) (categories : list (option str * list word))
    (c : option str) (ms : list word) :
  NoDup (map fst categories) ->
  In (c, ms) (add_to_category w categories) ->
  (exists ms0, In (c, ms0) categories
               /\ ms = ms0 ++ (if eqb_category c (category w) then [w] else []))
  \/ (~ In (category w) (map fst categories) /\ c = category w /\ ms = [w]).
Proof.
  induction categories as [|[c0 ws0] rest IH]; simpl; intros Hd H.
  - destruct H as [E|[]]. injection E as <- <-. right. tauto.
  - inversion Hd as [|? ? Hn Hr]; subst.
    destruct (eqb_category c0 (category w)) eqn:E; simpl in H.
    + left. destruct H as [H|H].
      * injection H as <- <-. exists ws0. rewrite E. auto.
      * exists ms. split; [auto|].
        rewrite eqb_category_false; [symmetry; apply app_nil_r|].
        apply eqb_category_iff in E. subst c0. intros ->.
        apply Hn. change (category w) with (fst (category w, ms)).
        apply in_map, H.
    + destruct H as [H|H].
      * injection H as <- <-. left. exists ws0. rewrite E.
        split; [auto|symmetry; apply app_nil_r].
      * destruct (IH Hr H) as [(ms0 & Hin & Ems)|(Hnot & Ec & Ems)].
        -- left. exists ms0. auto.
        -- right. split; [|auto]. intros [K|K]; [|contradiction].
           subst c0. rewrite (proj2 (eqb_category_iff _ _) eq_refl) in E.
           discriminate.
Qed.

Lemma groups_of_add (seen : list word) (w : word)
    (categories : list (option str * list word)) :
  groups_of seen categories ->
  groups_of (seen ++ [w]) (add_to_category w categories).
Proof.
  intros (Hd & Hm & Hk). split; [apply NoDup_add, Hd|]. split.
  - intros c ms H. rewrite members_app.
    destruct (@in_add w categories c ms Hd H) as [(ms0 & Hin & ->)|(Hnot & -> & ->)].
    + destruct (Hm _ _ Hin) as [Hne <-]. split; [|reflexivity].
      destruct ms0; [contradiction|discriminate].
    + split; [discriminate|].
      rewrite (proj2 (eqb_category_iff _ _) eq_refl).
      assert (E : members (category w) seen = []).
      { unfold members. destruct (filter _ seen) as [|x r] eqn:Ef; [reflexivity|].
        exfalso. apply Hnot.
        assert (Hx : In x (filter (fun w0 => eqb_category (category w) (category w0)) seen)).
        { rewrite Ef. left. reflexivity. }
        apply filter_In in Hx. destruct Hx as [Hx Ex].
        apply eqb_category_iff in Ex. rewrite Ex. apply Hk, Hx. }
      rewrite E. reflexivity.
  - intros x Hx. apply in_app_or in Hx. destruct Hx as [Hx|[<-|[]]].
    + apply keys_kept, Hk, Hx.
    + apply keys_add.
Qed.

Lemma groups_of_scan (ws : list word) : forall seen categories,
  groups_of seen categories ->
  groups_of (seen ++ ws)
    (fold_left (fun categories w => add_to_category w categories) ws categories).
Proof.
  induction ws as [|w rest IH]; intros seen categories H; cbn [fold_left].
  - rewrite app_nil_r. exact H.
  - change (w :: rest) with ([w] ++ rest). rewrite app_assoc.
    apply IH, groups_of_add, H.
Qed.

(** X6.  The groups that [format_words_for_display] makes of the entries:
    no key stands twice, every entry finds its category among the keys,
    and under each key stand exactly the entries of that category, in the
    order of the list; no group is empty. *)
Theorem X6_groups_of_the_display (ws : list word) :
  groups_of ws (group_words ws).
Proof.
  unfold group_words. apply (@groups_of_scan ws [] []).
  split; [constructor|]. split; intros ? ?; contradiction.
Qed.

End Grouping.

(* ------------------------------------------------------------------ *)
(** * The history of the words *)

Section History.
Context {U : Unicode}.

Lemma not_among (x : str) (l : list str) :
  existsb (eqb_str x) l = false <-> ~ In x l.
Proof.
  split.
  - intros E Hin. assert (K : existsb (eqb_str x) l = true).
    { apply existsb_exists. exists x. split; [exact Hin|].
      apply eqb_str_eq. reflexivity. }
    congruence.
  - intros Hn. destruct (existsb (eqb_str x) l) eqn:E; [|reflexivity].
    apply existsb_exists in E. destruct E as (y & Hy & E).
    apply eqb_str_eq in E. subst y. contradiction.
Qed.

(** One word: it is added at the end, in its kept form, when this form is
    not empty and not yet in the list. *)
Lemma add_word_cases (current : list str) (word : str) :
  (DatabaseManager.add_word current word = current ++ [kept_form word]
   /\ kept_form word <> [] /\ ~ In (kept_form word) current)
  \/ (DatabaseManager.add_word current word = current
      /\ (kept_form word = [] \/ In (kept_form word) current)).
Proof.
  unfold DatabaseManager.add_word. fold (kept_form word).
  destruct (kept_form word) as [|c r] eqn:E; cbn [is_empty negb andb].
  - right. auto.
  - destruct (existsb (eqb_str (c :: r)) current) eqn:Ex; cbn [negb].
    + right. split; [reflexivity|]. right.
      apply existsb_exists in Ex. destruct Ex as (y & Hy & Ey).
      apply eqb_str_eq in Ey. subst y. exact Hy.
    + left. split; [reflexivity|]. split; [discriminate|].
      apply not_among, Ex.
Qed.

Lemma merge_words_grows (new : list str) : forall current,
  exists added,
    DatabaseManager.merge_words current new = current ++ added
    /\ NoDup added
    /\ forall x, In x added ->
         ~ In x current /\ x <> []
         /\ exists word, In word new /\ x = kept_form word.
Proof.
  unfold DatabaseManager.merge_words.
  induction new as [|word rest IH]; intros current; cbn [fold_left].
  - exists []. rewrite app_nil_r. split; [reflexivity|].
    split; [constructor|]. intros x [].
  - destruct (add_word_cases current word) as [(E & Hne & Hnot)|(E & _)];
      rewrite E; clear E.
    + destruct (IH (current ++ [kept_form word])) as (added & E & Hd & Ha).
      exists (kept_form word :: added). rewrite E, <- app_assoc.
      split; [reflexivity|]. split.
      * constructor; [|exact Hd]. intros Hin.
        destruct (Ha _ Hin) as (K & _). apply K, in_or_app. right. left.
        reflexivity.
      * intros x [<-|Hx].
        -- split; [exact Hnot|]. split; [exact Hne|].
           exists word. simpl. auto.
        -- destruct (Ha _ Hx) as (K & Kne & w & Hw & Ew).
           split; [intros Hc; apply K, in_or_app; auto|].
           split; [exact Kne|]. exists w. simpl. auto.
    + destruct (IH current) as (added & E & Hd & Ha).
      exists added. split; [exact E|]. split; [exact Hd|].
      intros x Hx. destruct (Ha _ Hx) as (K & Kne & w & Hw & Ew).
      split; [exact K|]. split; [exact Kne|]. exists w. simpl. auto.
Qed.

(** X7.  The loop of [add_words_to_history] only adds at the end: the
    words read from the history stay, in their order, and after them come
    words that were not among them, each once, none empty, each the
    lower-case, stripped form of a new word.  A history without duplicates
    stays without duplicates. *)
Theorem X7_history_only_grows (current new : list str) :
  exists added,
    DatabaseManager.merge_words current new = current ++ added
    /\ NoDup added
    /\ (forall x, In x added ->
          ~ In x current /\ x <> []
          /\ exists word, In word new /\ x = kept_form word)
    /\ (NoDup current -> NoDup (DatabaseManager.merge_words current new)).
Proof.
  destruct (merge_words_grows new current) as (added & E & Hd & Ha).
  exists added. split; [exact E|]. split; [exact Hd|]. split; [exact Ha|].
  intros Hc. rewrite E. apply NoDup_app; try assumption.
  intros x Hx Hx'. destruct (Ha _ Hx') as (K & _). contradiction.
Qed.

Lemma merge_words_keeps (new current : list str) (x : str) :
  In x current -> In x (DatabaseManager.merge_words current new).
Proof.
  intros H. destruct (merge_words_grows new current) as (added & E & _).
  rewrite E. apply in_or_app. auto.
Qed.

Lemma merge_words_holds (new : list str) : forall current word,
  In word new -> kept_form word <> [] ->
  In (kept_form word) (DatabaseManager.merge_words current new).
Proof.
  induction new as [|w rest IH]; intros current word Hin Hne; [destruct Hin|].
  destruct Hin as [->|Hin].
  - change (DatabaseManager.merge_words current (word :: rest))
      with (DatabaseManager.merge_words
              (DatabaseManager.add_word current word) rest).
    apply merge_words_keeps.
    destruct (add_word_cases current word) as [(E & _)|(E & [K|K])];
      rewrite E.
    + apply in_or_app. right. left. reflexivity.
    + contradiction.
    + exact K.
  - apply (IH (DatabaseManager.add_word current w) word Hin Hne).
Qed.

(** X8.  Every new word is in the list after the loop of
    [add_words_to_history], in its lower-case, stripped form, unless that
    form is empty. *)
Theorem X8_new_words_are_kept (current new : list str) (word : str) :
  In word new -> kept_form word <> [] ->
  In (kept_form word) (DatabaseManager.merge_words current new).
Proof. apply merge_words_holds. Qed.

Lemma merge_words_nothing_new (new : list str) : forall current,
  (forall word, In word new ->
     kept_form word = [] \/ In (kept_form word) current) ->
  DatabaseManager.merge_words current new = current.
Proof.
  induction new as [|w rest IH]; intros current H; [reflexivity|].
  change (DatabaseManager.merge_words current (w :: rest))
    with (DatabaseManager.merge_words (DatabaseManager.add_word current w) rest).
  destruct (add_word_cases current w) as [(E & Hne & Hnot)|(E & _)].
  - exfalso. destruct (H w (or_introl eq_refl)); contradiction.
  - rewrite E. apply IH. intros word Hin. apply H. right. exact Hin.
Qed.

(** X9.  Adding the same words again changes nothing: the loop of
    [add_words_to_history], run on its own result with the same new
    words, gives this result back. *)
Theorem X9_adding_again_changes_nothing (current new : list str) :
  DatabaseManager.merge_words (DatabaseManager.merge_words current new) new
  = DatabaseManager.merge_words current new.
Proof.
  apply merge_words_nothing_new. intros word Hin.
  destruct (kept_form word) as [|c r] eqn:E; [auto|]. right.
  rewrite <- E. apply merge_words_holds; [exact Hin|]. rewrite E. discriminate.
Qed.


Lemma in_extract_word_list (ws : list word) (w : word) :
  In w ws -> english w <> [] -> In (lower (english w)) (extract_word_list ws).
Proof.
  intros Hin Hne. unfold extract_word_list.
  apply (in_map (fun w => lower (english w))), filter_In. split; [exact Hin|].
  destruct (english w); [contradiction|reflexivity].
Qed.

(** X11.  The history written for a generated text: the words read from
    the stored history stay in front, and every entry of the text that has
    a headword is in it, under the lower-case, stripped form of that
    headword (with what the headword holds in parentheses), unless this
    form is empty; the count written is the length of the list. *)
Theorem X11_headwords_reach_the_history (W : DatabaseManager.web)
    (generated_text : str) :
  let history := history_of_text W generated_text in
  (exists added,
     DatabaseManager.words history = DatabaseManager.get_words_history W ++ added)
  /\ (forall w, In w (parse_text generated_text) ->
        english w <> [] -> kept_form (lower (english w)) <> [] ->
        In (kept_form (lower (english w))) (DatabaseManager.words history))
  /\ DatabaseManager.total_count history
     = List.length (DatabaseManager.words history).
Proof.
  cbn zeta. unfold history_of_text, DatabaseManager.history_after.
  cbn [DatabaseManager.words DatabaseManager.total_count].
  split; [|split; [|reflexivity]].
  - destruct (merge_words_grows (extract_word_list (parse_text generated_text))
                (DatabaseManager.get_words_history W)) as (added & E & _).
    exists added. exact E.
  - intros w Hin Hne Hk. apply merge_words_holds; [|exact Hk].
    apply in_extract_word_list; assumption.
Qed.

End History.

Lemma X8_witness :
  In (kept_form (U:=latin) (u " Lamp "))
     (DatabaseManager.merge_words (U:=latin) [u "run"] [u "run"; u " Lamp "]).
Proof.
  apply (@X8_new_words_are_kept latin).
  - right. left. reflexivity.
  - vm_compute. discriminate.
Defined.


(* ------------------------------------------------------------------ *)
(** * The run of the generator when the speech service may refuse *)

Section Refusal.
Context {U : Unicode}.
Variable B : backend.









Variable s : settings.







End Refusal.

Section NothingToRead.
Context {U : Unicode}.
Variable B : backend.
Variable s : settings.

Lemma for_words_skips (s1 s2 s3 : path) (n : nat) (ws : list word) :
  (forall w, In w ws -> valid w = false) ->
  forall i file_list st,
    for_words B s s1 s2 s3 n i ws file_list st = (st, Returned file_list).
Proof.
  induction ws as [|w rest IH]; intros H i file_list st; cbn [for_words];
    [reflexivity|].
  pose proof (H w (or_introl eq_refl)) as Hw. unfold valid in Hw.
  apply negb_false_iff in Hw. rewrite Hw.
  apply IH. intros x Hx. apply H. right. exact Hx.
Qed.

(** X14.  A list in which no entry has both a headword and a translation
    (the empty list among them) is no error for [generate_audio]: no call
    of the speech service is made, the concat run is made on an empty
    list of files, and the run returns what this run of [ffmpeg] has
    left, the empty buffer if nothing. *)
Theorem X14_nothing_to_read (ws : list word) :
  (forall w, In w ws -> valid w = false) ->
  let result := call_generate_audio B ws s in
  tts_calls (fst result) = []
  /\ concat_calls (fst result)
     = [ {| concat_inputs := [];
            concat_returncode := fst (ffmpeg_concat B []);
            concat_output := snd (ffmpeg_concat B []) |} ]
  /\ snd result = Returned (buffer_of (snd (ffmpeg_concat B []))).
Proof.
  intros H. cbn zeta. rewrite generate_audio_steps.
  unfold try_finally, assemble. rewrite bind_run.
  rewrite (@for_words_skips _ _ _ _ ws H).
  pose proof (no_output_silence_dir B s) as N. unfold no_output in N.
  unfold _concat_files, bind, read, update, ret.
  cbn [map after_silences _temp_dir fst snd].
  destruct (snd (ffmpeg_concat B [])) as [b|] eqn:E; cbn.
  - auto.
  - rewrite N. cbn. auto.
Qed.

End NothingToRead.

Lemma X14_witness :
  tts_calls (fst (call_generate_audio (U:=latin) working [untranslated_entry]
                    default_settings)) = []
  /\ concat_calls (fst (call_generate_audio (U:=latin) working
                          [untranslated_entry] default_settings))
     = [ {| concat_inputs := [];
            concat_returncode := fst (ffmpeg_concat working []);
            concat_output := snd (ffmpeg_concat working []) |} ]
  /\ snd (call_generate_audio (U:=latin) working [untranslated_entry]
            default_settings)
     = Returned (buffer_of (snd (ffmpeg_concat working []))).
Proof.
  apply (@X14_nothing_to_read latin working default_settings
           [untranslated_entry]).
  intros w [<-|[]]. vm_compute. reflexivity.
Defined.

(* ------------------------------------------------------------------ *)
(** * What is handed to the concat run *)

Section Rounds.

Lemma repeated_from (r : Z) (files : list path) (s1 : path) (n : nat) :
  forall start file_list,
    r = Z.of_nat (start + n) ->
    fold_left
      (fun file_list rep =>
         let file_list := file_list ++ files in
         if (Z.of_nat rep <? r - 1)%Z then file_list ++ [s1] else file_list)
      (seq start n) file_list
    = file_list ++ rounds n files s1.
Proof.
  induction n as [|n IH]; intros start file_list Hr; cbn [seq fold_left].
  - cbn [rounds]. symmetry. apply app_nil_r.
  - rewrite (IH (S start)) by lia. cbn zeta.
    destruct n as [|n'].
    + replace (Z.of_nat start <? r - 1)%Z with false
        by (symmetry; apply Z.ltb_ge; lia).
      cbn [rounds]. apply app_nil_r.
    + replace (Z.of_nat start <? r - 1)%Z with true
        by (symmetry; apply Z.ltb_lt; lia).
      cbn [rounds]. rewrite <- !app_assoc. reflexivity.
Qed.

(** The loop of the repetitions: the files of the entry are taken as many
    times as [repetitions] says, with the silence of one second between
    two takes and none after the last; not at all for 0 or less. *)
Lemma repeated_rounds (r : Z) (files : list path) (s1 : path)
    (file_list : list path) :
  repeated r files s1 file_list = file_list ++ rounds (Z.to_nat r) files s1.
Proof.
  unfold repeated. destruct (Z.to_nat r) as [|n] eqn:E.
  - cbn [seq fold_left rounds]. symmetry. apply app_nil_r.
  - rewrite <- E. apply repeated_from. lia.
Qed.

Lemma map_rounds A C (f : A -> C) (n : nat) (one : list A) (pause : A) :
  map f (rounds n one pause) = rounds n (map f one) (f pause).
Proof.
  induction n as [|n IH]; [reflexivity|].
  cbn [rounds]. destruct n as [|n']; [reflexivity|].
  rewrite map_app. cbn [map]. rewrite IH. reflexivity.
Qed.

End Rounds.

Section Recorded.
Context {U : Unicode}.
Variable B : backend.
Variable s : settings.
Hypothesis tts_answers : tts_total B.

Lemma recorded_app (a b : list str) : forall counter dir,
  recorded B s (a ++ b) counter dir
  = recorded B s b (List.length a + counter) (recorded B s a counter dir).
Proof.
  induction a as [|t rest IH]; intros counter dir; cbn [app recorded List.length];
    [reflexivity|].
  rewrite IH. f_equal. lia.
Qed.

Lemma no_output_recorded (texts : list str) : forall counter dir,
  no_output dir -> no_output (recorded B s texts counter dir).
Proof.
  induction texts as [|t rest IH]; intros counter dir H; cbn [recorded];
    [exact H|].
  apply IH. unfold written. destruct (said B s t); [|exact H].
  unfold no_output. simpl. exact H.
Qed.

Lemma text_to_file_recorded (text : str) (st : state) :
  _text_to_file B text (get (speed s) 1%Q) (get (voice s) DEFAULT_VOICE) st
  = (set_temp_dir
       (recorded B s [text] (_file_counter st) (_temp_dir st))
       (spoke s text st),
     Returned (audio_mp3 (S (_file_counter st)))).
Proof.
  unfold _text_to_file, next_counter, bind, update, read, ret, raise.
  cbn [recorded]. unfold written, said. simpl.
  destruct (text_to_speech B text (get (voice s) DEFAULT_VOICE) (get (speed s) 1%Q))
    as [b|] eqn:E; [reflexivity|].
  exfalso. exact (tts_answers _ _ _ E).
Qed.

Lemma generate_word_files_recorded (w : word) (s1 s3 : path) (st : state) :
  _generate_word_files B (cleaned (strip (english w))) (strip (polish w))
    (strip (or_empty (example w))) (get (include_examples s) true)
    (test_mode s) (get (speed s) 1%Q) (get (voice s) DEFAULT_VOICE) s1 s3 st
  = (set_temp_dir
       (recorded B s (phrases s w) (_file_counter st) (_temp_dir st))
       (advance s (phrases s w) st),
     Returned (word_paths s s1 s3 (_file_counter st) w)).
Proof.
  unfold _generate_word_files, phrases, word_paths.
  destruct (is_mode (test_mode s) "pl_to_en");
    [|destruct (is_mode (test_mode s) "en_to_pl");
      [|destruct (get (include_examples s) true
                  && negb (is_empty (strip (or_empty (example w)))))]].
  all: repeat (rewrite bind_run, text_to_file_recorded).
  all: reflexivity.
Qed.

Lemma for_words_recorded (s1 s2 s3 : path) (n : nat) (ws : list word) :
  forall i file_list st,
    for_words B s s1 s2 s3 n i ws file_list st
    = (set_temp_dir
         (recorded B s (spoken s ws) (_file_counter st) (_temp_dir st))
         (advance s (spoken s ws) st),
       Returned (plan s s1 s2 s3 n i (_file_counter st) ws file_list)).
Proof.
  induction ws as [|w rest IH]; intros i file_list st.
  - simpl. rewrite set_temp_dir_same. reflexivity.
  - cbn [for_words plan]. unfold spoken. cbn [flat_map]. fold (spoken s rest).
    unfold valid.
    destruct (is_empty (strip (english w)) || is_empty (strip (polish w)));
      cbn [negb app].
    + apply IH.
    + rewrite bind_run, generate_word_files_recorded, IH.
      rewrite recorded_app, advance_app, advance_set_temp_dir.
      cbn [_file_counter _temp_dir set_temp_dir].
      rewrite counter_advance. reflexivity.
Qed.

(** The run when the speech service answers every call: what the concat
    run is given is what the files of the plan hold once the answers are
    written. *)
Lemma run_recorded (ws : list word) :
  snd (call_generate_audio B ws s)
  = Returned
      (buffer_of
         (snd (ffmpeg_concat B
                 (map (fun p =>
                         read_file p (recorded B s (spoken s ws) 3 (silence_dir B s)))
                      (plan s (silence_mp3 1) (silence_mp3 2) (silence_mp3 3)
                            (List.length ws) 1 3 ws []))))).
Proof.
  rewrite generate_audio_steps. unfold try_finally, assemble.
  rewrite bind_run, for_words_recorded.
  cbn [after_silences _file_counter _temp_dir].
  set (dir1 := recorded B s (spoken s ws) 3 (silence_dir B s)).
  assert (N : no_output dir1).
  { apply no_output_recorded, no_output_silence_dir. }
  unfold _concat_files, bind, read, update, ret.
  cbn [set_temp_dir _temp_dir fst snd].
  destruct (snd (ffmpeg_concat B _)) as [b|]; cbn.
  - reflexivity.
  - unfold no_output in N. rewrite N. reflexivity.
Qed.

End Recorded.

Section Sounds.
Context {U : Unicode}.
Variable B : backend.
Variable s : settings.

Lemma read_silence_recorded (k : nat) (texts : list str) : forall counter dir,
  read_file (silence_mp3 k) (recorded B s texts counter dir)
  = read_file (silence_mp3 k) dir.
Proof.
  induction texts as [|t rest IH]; intros counter dir; cbn [recorded];
    [reflexivity|].
  rewrite IH. unfold written. destruct (said B s t); reflexivity.
Qed.

Lemma read_silences :
  read_file (silence_mp3 1) (silence_dir B s) = pause_1s B
  /\ read_file (silence_mp3 2) (silence_dir B s) = pause_of_entries B s
  /\ read_file (silence_mp3 3) (silence_dir B s) = pause_of_test B.
Proof.
  unfold silence_dir, written, pause_1s, pause_of_entries, pause_of_test.
  destruct (snd (ffmpeg_silence B 1%Q)),
           (snd (ffmpeg_silence B (get (pause_between s) 2%Q))),
           (snd (ffmpeg_silence B TEST_PAUSE_DURATION));
    repeat split; reflexivity.
Qed.

Lemma no_audio_silence_dir (n : nat) :
  read_file (audio_mp3 n) (silence_dir B s) = None.
Proof.
  unfold silence_dir, written.
  destruct (snd (ffmpeg_silence B 1%Q)),
           (snd (ffmpeg_silence B (get (pause_between s) 2%Q))),
           (snd (ffmpeg_silence B TEST_PAUSE_DURATION)); reflexivity.
Qed.

(** The file of the [j]-th answer. *)
Lemma read_audio_recorded (texts : list str) : forall counter dir n,
  (forall m, counter < m -> read_file (audio_mp3 m) dir = None) ->
  counter < n ->
  read_file (audio_mp3 n) (recorded B s texts counter dir)
  = match nth_error texts (n - counter - 1) with
    | Some text => said B s text
    | None => None
    end.
Proof.
  induction texts as [|t rest IH]; intros counter dir n Hd Hn; cbn [recorded].
  - rewrite (Hd n Hn). destruct (n - counter - 1); reflexivity.
  - destruct (Nat.eq_dec n (S counter)) as [->|Hne].
    + replace (S counter - counter - 1) with 0 by lia. cbn [nth_error].
      assert (Keep : forall l c d,
                 S counter <= c ->
                 read_file (audio_mp3 (S counter)) (recorded B s l c d)
                 = read_file (audio_mp3 (S counter)) d).
      { clear. induction l as [|x l IHl]; intros c d Hc; cbn [recorded];
          [reflexivity|].
        rewrite IHl by lia. unfold written. destruct (said B s x); [|reflexivity].
        simpl. replace (counter =? c) with false
          by (symmetry; apply Nat.eqb_neq; lia).
        reflexivity. }
      rewrite Keep by lia. unfold written.
      destruct (said B s t) as [b|]; simpl.
      * rewrite Nat.eqb_refl. reflexivity.
      * apply Hd. lia.
    + rewrite IH.
      * replace (n - counter - 1) with (S (n - S counter - 1)) by lia.
        reflexivity.
      * intros m Hm. unfold written. destruct (said B s t); [|apply Hd; lia].
        simpl. replace (m =? S counter) with false
          by (symmetry; apply Nat.eqb_neq; lia).
        apply Hd. lia.
      * lia.
Qed.

Lemma read_phrase (before phrase after : list str) (j : nat) (text : str) :
  nth_error phrase j = Some text ->
  read_file (audio_mp3 (S j + (3 + List.length before)))
            (recorded B s (before ++ phrase ++ after) 3 (silence_dir B s))
  = said B s text.
Proof.
  intros E. rewrite read_audio_recorded.
  - replace (S j + (3 + List.length before) - 3 - 1)
      with (List.length before + j) by lia.
    rewrite nth_error_app2 by lia.
    replace (List.length before + j - List.length before) with j by lia.
    rewrite nth_error_app1 by (apply nth_error_Some; congruence).
    rewrite E. reflexivity.
  - intros m _. apply no_audio_silence_dir.
  - lia.
Qed.

Lemma read_word_paths (before after : list str) (w : word) :
  map (fun p =>
         read_file p (recorded B s (before ++ phrases s w ++ after) 3
                               (silence_dir B s)))
      (word_paths s (silence_mp3 1) (silence_mp3 3) (3 + List.length before) w)
  = reading B s w.
Proof.
  destruct read_silences as (R1 & _ & R3).
  unfold word_paths, phrases, reading.
  destruct (is_mode (test_mode s) "pl_to_en");
    [|destruct (is_mode (test_mode s) "en_to_pl");
      [|destruct (get (include_examples s) true
                  && negb (is_empty (strip (or_empty (example w)))))]];
    cbn [map]; rewrite !read_silence_recorded, ?R1, ?R3;
    repeat
      match goal with
      | |- context [recorded B s (before ++ ?phrase ++ after) 3 _] =>
        rewrite (@read_phrase before phrase after 0 _ eq_refl)
        || rewrite (@read_phrase before phrase after 1 _ eq_refl)
        || rewrite (@read_phrase before phrase after 2 _ eq_refl)
      end;
    reflexivity.
Qed.

Lemma read_plan (len : nat) (ws : list word) :
  forall before after i file_list,
    map (fun p =>
           read_file p (recorded B s (before ++ spoken s ws ++ after) 3
                                 (silence_dir B s)))
        (plan s (silence_mp3 1) (silence_mp3 2) (silence_mp3 3) len i
              (3 + List.length before) ws file_list)
    = map (fun p =>
             read_file p (recorded B s (before ++ spoken s ws ++ after) 3
                                   (silence_dir B s)))
          file_list
      ++ timeline_from B s len i ws.
Proof.
  destruct read_silences as (R1 & R2 & _).
  induction ws as [|w rest IH]; intros before after i file_list;
    cbn [plan timeline_from].
  - symmetry. apply app_nil_r.
  - unfold spoken. cbn [flat_map]. fold (spoken s rest).
    destruct (valid w); cbn [app]; [|apply IH].
    replace (List.length (phrases s w) + (3 + List.length before))
      with (3 + List.length (before ++ phrases s w))
      by (rewrite length_app; lia).
    replace (before ++ (phrases s w ++ spoken s rest) ++ after)
      with ((before ++ phrases s w) ++ spoken s rest ++ after)
      by (rewrite <- !app_assoc; reflexivity).
    rewrite IH, repeated_rounds.
    rewrite <- (app_assoc before (phrases s w)).
    destruct (i <? len);
      rewrite !map_app, map_rounds, read_word_paths; cbn [map];
      rewrite ?read_silence_recorded, ?R1, ?R2, <- ?app_assoc; reflexivity.
Qed.

(** X15.  When the speech service answers every call, the buffer that
    [generate_audio] returns is what the concat run of [ffmpeg] makes of
    this sequence of sounds: for each entry that is not skipped, in the
    order of the list, its reading (the answers of the service for its
    phrases in the order of the mode, with the silence of one second
    between them, or the silence of the test between the two of a test
    mode), taken as many times as the repetitions say with the silence of
    one second between two takes, and then the pause of the entries
    unless the entry is the last of the list. *)
Theorem X15_what_is_concatenated (ws : list word) :
  tts_total B ->
  snd (call_generate_audio B ws s)
  = Returned (buffer_of (snd (ffmpeg_concat B (timeline B s ws)))).
Proof.
  intros T. rewrite (run_recorded s T).
  pose proof (read_plan (List.length ws) ws [] [] 1 []) as E.
  cbn [app List.length map Nat.add] in E. rewrite app_nil_r in E.
  rewrite E. reflexivity.
Qed.

End Sounds.

Lemma X15_witness :
  snd (call_generate_audio (U:=latin) working [run_entry; light_entry] twice)
  = Returned
      (buffer_of
         (snd (ffmpeg_concat working
                 (timeline (U:=latin) working twice [run_entry; light_entry])))).
Proof.
  apply (@X15_what_is_concatenated latin working twice).
  intros text v sp. discriminate.
Defined.

(* ------------------------------------------------------------------ *)
(** * The pattern of the headwords, anchored and not *)

Section Anchors.

Variable Q : str -> Prop.
Hypothesis Q_tail : forall c s, Q (c :: s) -> Q s.

Lemma many_greedy_ext (p : char -> bool) (k1 k2 : nat -> str -> option caps) :
  (forall pos s, Q s -> k1 pos s = k2 pos s) ->
  forall s least pos, Q s ->
    many_greedy p k1 least pos s = many_greedy p k2 least pos s.
Proof.
  intros Hk. induction s as [|c r IH]; intros least pos Hs; cbn [many_greedy].
  - rewrite (Hk pos [] Hs). reflexivity.
  - rewrite (IH (pred least) (S pos) (Q_tail Hs)), (Hk pos (c :: r) Hs).
    reflexivity.
Qed.

Lemma many_lazy_ext (p : char -> bool) (k1 k2 : nat -> str -> option caps) :
  (forall pos s, Q s -> k1 pos s = k2 pos s) ->
  forall s least pos, Q s ->
    many_lazy p k1 least pos s = many_lazy p k2 least pos s.
Proof.
  intros Hk. induction s as [|c r IH]; intros least pos Hs.
  - destruct least; cbn [many_lazy]; [rewrite (Hk pos [] Hs)|]; reflexivity.
  - destruct least as [|l]; cbn [many_lazy].
    + rewrite (Hk pos (c :: r) Hs), (IH 0 (S pos) (Q_tail Hs)). reflexivity.
    + rewrite (IH l (S pos) (Q_tail Hs)). reflexivity.
Qed.

(** Two patterns with the same beginning match alike when their ends
    match alike. *)
Lemma exec_ext (t1 t2 : pattern) :
  (forall pos s m, Q s -> exec t1 pos s m = exec t2 pos s m) ->
  forall pat pos s m, Q s ->
    exec (pat ++ t1) pos s m = exec (pat ++ t2) pos s m.
Proof.
  intros Ht. induction pat as [|it rest IH]; intros pos s m Hs; cbn [app].
  - apply Ht, Hs.
  - destruct it as [p|p least greedy| | | |]; cbn [exec].
    + destruct s as [|c r]; [reflexivity|].
      destruct (p c); [apply IH, (Q_tail Hs)|reflexivity].
    + destruct greedy.
      * apply many_greedy_ext; [|exact Hs]. intros pos' s' Hs'. apply IH, Hs'.
      * apply many_lazy_ext; [|exact Hs]. intros pos' s' Hs'. apply IH, Hs'.
    + apply IH, Hs.
    + destruct (opened m); [reflexivity|apply IH, Hs].
    + destruct pos; [apply IH, Hs|reflexivity].
    + destruct s as [|c [|d r]]; try reflexivity; [apply IH, Hs|].
      destruct (c =? NL)%N; [apply IH, Hs|reflexivity].
Qed.

End Anchors.

Section Anchored.
Context {U : Unicode}.

Lemma dot_tail (c : char) (s : str) :
  forallb dot (c :: s) = true -> forallb dot s = true.
Proof. cbn [forallb]. intros H. apply andb_prop in H. apply H. Qed.

(** On a text without line break, the last group of the pattern runs to
    the end, so that the end anchor changes nothing. *)
Lemma last_group_anchored (pos : nat) (s : str) (m : caps) :
  forallb dot s = true ->
  exec [Open; Many dot 1 true; Close] pos s m
  = exec [Open; Many dot 1 true; Close; Dollar] pos s m.
Proof.
  intros Hs. rewrite !exec_open, !exec_greedy.
  destruct s as [|c r]; [reflexivity|].
  rewrite <- (app_nil_r (c :: r)).
  rewrite (@greedy_run dot _ (c :: r) []
             {| opened := opened m;
                closed := closed m ++ [(pos, pos + List.length (c :: r))] |});
    try rewrite (@greedy_run dot _ (c :: r) []
                   {| opened := opened m;
                      closed := closed m ++ [(pos, pos + List.length (c :: r))] |});
    auto; cbn [List.length]; lia.
Qed.

Lemma anchored_run (line : str) :
  forallb dot line = true ->
  run WordGenerator.word_pattern line = run word_pattern line.
Proof.
  intros H. unfold run.
  change (exec WordGenerator.word_pattern 0 line no_caps)
    with (exec (firstn 17 word_pattern
                ++ [Open; Many dot 1 true; Close; Dollar]) 0 line no_caps).
  change (exec word_pattern 0 line no_caps)
    with (exec (firstn 17 word_pattern
                ++ [Open; Many dot 1 true; Close]) 0 line no_caps).
  rewrite (@exec_ext (fun s => forallb dot s = true) dot_tail
             [Open; Many dot 1 true; Close; Dollar]
             [Open; Many dot 1 true; Close]); [reflexivity| |exact H].
  intros pos s m Hs. symmetry. apply last_group_anchored, Hs.
Qed.

End Anchored.

(* ------------------------------------------------------------------ *)
(** * The document of the word list *)

Section Lines.
Context {U : Unicode}.

Lemma split_pieces (c : char) (t : str) :
  Forall (fun l => forallb (except c) l = true) (split c t).
Proof.
  induction t as [|x r IH]; cbn [split].
  - constructor; [reflexivity|constructor].
  - destruct (x =? c)%N eqn:E.
    + constructor; [reflexivity|exact IH].
    + assert (Hx : except c x = true).
      { unfold except. rewrite N.eqb_sym, E. reflexivity. }
      destruct (split c r) as [|h t].
      * constructor; [|constructor]. cbn [forallb]. rewrite Hx. reflexivity.
      * inversion IH; subst. constructor; [|assumption].
        cbn [forallb]. rewrite Hx. assumption.
Qed.

Lemma forallb_lstrip (p : char -> bool) (t : str) :
  forallb p t = true -> forallb p (lstrip t) = true.
Proof.
  induction t as [|c r IH]; cbn [lstrip forallb]; [auto|].
  intros H. destruct (isspace c); [|exact H].
  apply andb_prop in H. apply IH, H.
Qed.

Lemma forallb_rev (p : char -> bool) (t : str) :
  forallb p (rev t) = forallb p t.
Proof.
  induction t as [|c r IH]; [reflexivity|]. cbn [rev forallb].
  rewrite forallb_app, IH. cbn [forallb]. rewrite andb_true_r. apply andb_comm.
Qed.

Lemma forallb_strip (p : char -> bool) (t : str) :
  forallb p t = true -> forallb p (strip t) = true.
Proof.
  intros H. unfold strip, rstrip. rewrite forallb_rev.
  apply forallb_lstrip. rewrite forallb_rev. apply forallb_lstrip, H.
Qed.

Lemma line_of_text (text l : str) :
  In l (split NL text) -> forallb dot (strip l) = true.
Proof.
  intros H. apply forallb_strip.
  pose proof (split_pieces NL text) as F. rewrite Forall_forall in F.
  apply (F l H).
Qed.





End Lines.

(* ------------------------------------------------------------------ *)
(** * What a match of the pattern of the headwords tells *)

Section Sound.
Variable p : char -> bool.
Variable k : nat -> str -> option caps.

Lemma many_greedy_sound (s : str) : forall least pos m,
  many_greedy p k least pos s = Some m ->
  exists a b, s = a ++ b /\ forallb p a = true /\ least <= List.length a
              /\ k (pos + List.length a) b = Some m.
Proof.
  induction s as [|c r IH]; intros least pos m E; cbn [many_greedy] in E.
  - destruct least; [|discriminate]. exists [], [].
    cbn [List.length]. rewrite Nat.add_0_r. auto.
  - assert (Stop : match least with O => k pos (c :: r) | S _ => None end = Some m ->
                   exists a b, c :: r = a ++ b /\ forallb p a = true
                               /\ least <= List.length a
                               /\ k (pos + List.length a) b = Some m).
    { destruct least; [|discriminate]. intros K. exists [], (c :: r).
      cbn [List.length]. rewrite Nat.add_0_r. auto. }
    destruct (p c) eqn:Hc; [|exact (Stop E)].
    destruct (many_greedy p k (pred least) (S pos) r) as [m'|] eqn:E1;
      [|exact (Stop E)].
    injection E as <-. destruct (IH _ _ _ E1) as (a & b & -> & Ha & Hl & Hk).
    exists (c :: a), b. cbn [forallb List.length app]. rewrite Hc, Ha.
    rewrite Nat.add_succ_r. repeat split; [lia|exact Hk].
Qed.

Lemma many_lazy_sound (s : str) : forall least pos m,
  many_lazy p k least pos s = Some m ->
  exists a b, s = a ++ b /\ forallb p a = true /\ least <= List.length a
              /\ k (pos + List.length a) b = Some m.
Proof.
  induction s as [|c r IH]; intros least pos m E.
  - destruct least; cbn [many_lazy] in E; [|discriminate].
    destruct (k pos []) as [m'|] eqn:K; [|discriminate]. injection E as <-.
    exists [], []. cbn [List.length]. rewrite Nat.add_0_r. auto.
  - assert (Go : forall l, many_lazy p k l (S pos) r = Some m -> p c = true ->
                 l <= least -> least <= S l ->
                 exists a b, c :: r = a ++ b /\ forallb p a = true
                             /\ least <= List.length a
                             /\ k (pos + List.length a) b = Some m).
    { intros l E1 Hc L1 L2. destruct (IH _ _ _ E1) as (a & b & -> & Ha & Hl & Hk).
      exists (c :: a), b. cbn [forallb List.length app]. rewrite Hc, Ha.
      rewrite Nat.add_succ_r. repeat split; [lia|exact Hk]. }
    destruct least as [|l]; cbn [many_lazy] in E.
    + destruct (k pos (c :: r)) as [m'|] eqn:K.
      * injection E as <-. exists [], (c :: r).
        cbn [List.length]. rewrite Nat.add_0_r. auto.
      * destruct (p c) eqn:Hc; [|discriminate]. apply (Go 0 E eq_refl); lia.
    + destruct (p c) eqn:Hc; [|discriminate]. apply (Go l E eq_refl); lia.
Qed.

End Sound.

Lemma exec_one_sound (p : char -> bool) (rest : pattern) (pos : nat) (s : str)
    (m m' : caps) :
  exec (One p :: rest) pos s m = Some m' ->
  exists c r, s = c :: r /\ p c = true /\ exec rest (S pos) r m = Some m'.
Proof.
  cbn [exec]. destruct s as [|c r]; [discriminate|].
  destruct (p c) eqn:Hc; [|discriminate]. intros E. exists c, r. auto.
Qed.

Lemma not_nil_length (t : str) : 1 <= List.length t -> t <> [].
Proof. destruct t; simpl; [lia|discriminate]. Qed.

Section Shape.
Context {U : Unicode}.

(** A line that matches the anchored pattern of the headwords is made of
    the parts that the pattern names, and the groups are the four parts
    captured. *)
Lemma headword_shape (line : str) (g : list str) :
  run WordGenerator.word_pattern line = Some g ->
  exists D W1 H W2 P W3 d W4 T rest,
    line = D ++ PERIOD :: W1 ++ H ++ W2 ++ LPAREN :: P ++ RPAREN :: W3
             ++ d :: W4 ++ T ++ rest
    /\ g = [D; H; P; T]
    /\ (forallb is_digit D = true /\ D <> [])
    /\ (forallb dot H = true /\ H <> [])
    /\ (forallb (except RPAREN) P = true /\ P <> [])
    /\ (forallb dot T = true /\ T <> [])
    /\ (forallb isspace W1 = true /\ forallb isspace W2 = true
        /\ forallb isspace W3 = true /\ forallb isspace W4 = true)
    /\ (rest = [] \/ rest = [NL]).
Proof.
  unfold run. destruct (exec _ 0 line no_caps) as [m|] eqn:X; [|discriminate].
  intros E. injection E as <-.
  unfold WordGenerator.word_pattern in X.
  change (exec (Caret :: ?r) 0 ?t ?c) with (exec r 0 t c) in X.
  rewrite exec_open, exec_greedy in X.
  apply many_greedy_sound in X. destruct X as (D & s1 & -> & HD & LD & X).
  cbn [opened closed no_caps] in X. rewrite exec_close in X.
  apply exec_one_sound in X. destruct X as (c1 & s2 & -> & Hc1 & X).
  apply N.eqb_eq in Hc1. subst c1.
  rewrite exec_greedy in X.
  apply many_greedy_sound in X. destruct X as (W1 & s3 & -> & HW1 & _ & X).
  rewrite exec_open, exec_lazy in X.
  apply many_lazy_sound in X. destruct X as (H & s4 & -> & HH & LH & X).
  cbn [opened closed] in X. rewrite exec_close, exec_greedy in X.
  apply many_greedy_sound in X. destruct X as (W2 & s5 & -> & HW2 & _ & X).
  apply exec_one_sound in X. destruct X as (c2 & s6 & -> & Hc2 & X).
  apply N.eqb_eq in Hc2. subst c2.
  rewrite exec_open, exec_greedy in X.
  apply many_greedy_sound in X. destruct X as (P & s7 & -> & HP & LP & X).
  cbn [opened closed] in X. rewrite exec_close in X.
  apply exec_one_sound in X. destruct X as (c3 & s8 & -> & Hc3 & X).
  apply N.eqb_eq in Hc3. subst c3.
  rewrite exec_greedy in X.
  apply many_greedy_sound in X. destruct X as (W3 & s9 & -> & HW3 & _ & X).
  apply exec_one_sound in X. destruct X as (d & s10 & -> & _ & X).
  rewrite exec_greedy in X.
  apply many_greedy_sound in X. destruct X as (W4 & s11 & -> & HW4 & _ & X).
  rewrite exec_open, exec_greedy in X.
  apply many_greedy_sound in X. destruct X as (T & rest & -> & HT & LT & X).
  cbn [opened closed] in X. rewrite exec_close in X.
  assert (R : (rest = [] \/ rest = [NL])
              /\ closed m
                 = [ (0, 0 + List.length D);
                     (S (0 + List.length D) + List.length W1,
                      S (0 + List.length D) + List.length W1 + List.length H);
                     (S (S (0 + List.length D) + List.length W1 + List.length H
                         + List.length W2),
                      S (S (0 + List.length D) + List.length W1 + List.length H
                         + List.length W2) + List.length P);
                     (S (S (S (S (0 + List.length D) + List.length W1
                                 + List.length H + List.length W2)
                              + List.length P) + List.length W3)
                      + List.length W4,
                      S (S (S (S (0 + List.length D) + List.length W1
                                 + List.length H + List.length W2)
                              + List.length P) + List.length W3)
                      + List.length W4 + List.length T) ]).
  { cbn [exec] in X. destruct rest as [|c [|c' r']]; [| |discriminate].
    - injection X as <-. auto.
    - destruct (c =? NL)%N eqn:Ec; [|discriminate].
      apply N.eqb_eq in Ec. subst c. injection X as <-. auto. }
  destruct R as [Hrest C].
  exists D, W1, H, W2, P, W3, d, W4, T, rest.
  split; [reflexivity|]. split.
  - rewrite C. cbn [map]. repeat f_equal.
    + apply (@substr_in _ [] D (PERIOD :: W1 ++ H ++ W2 ++ LPAREN :: P
               ++ RPAREN :: W3 ++ d :: W4 ++ T ++ rest)); reflexivity.
    + apply (@substr_in _ (D ++ PERIOD :: W1) H
               (W2 ++ LPAREN :: P ++ RPAREN :: W3 ++ d :: W4 ++ T ++ rest)).
      * rewrite <- !app_assoc. reflexivity.
      * rewrite length_app. cbn [List.length]. lia.
      * reflexivity.
    + apply (@substr_in _ (D ++ PERIOD :: W1 ++ H ++ W2 ++ [LPAREN]) P
               (RPAREN :: W3 ++ d :: W4 ++ T ++ rest)).
      * rewrite <- !app_assoc. cbn [app]. rewrite <- !app_assoc. reflexivity.
      * rewrite !length_app. cbn [List.length]. rewrite !length_app.
        cbn [List.length]. lia.
      * reflexivity.
    + apply (@substr_in _ (D ++ PERIOD :: W1 ++ H ++ W2 ++ LPAREN :: P
                             ++ RPAREN :: W3 ++ d :: W4) T rest).
      * rewrite <- !app_assoc. cbn [app]. rewrite <- !app_assoc. cbn [app].
        rewrite <- !app_assoc. cbn [app]. rewrite <- !app_assoc. reflexivity.
      * repeat (rewrite !length_app; cbn [List.length]). lia.
      * reflexivity.
  - repeat split; try assumption; apply not_nil_length; assumption.
Qed.

End Shape.

(* ------------------------------------------------------------------ *)
(** * The document read back *)

Section Ends.
Context {U : Unicode}.

Lemma strip_starts (t : str) (c : char) (r : str) :
  strip t = c :: r -> isspace c = false.
Proof.
  unfold strip. intros E.
  destruct (rstrip_split (lstrip t)) as (w & Ea & _). rewrite E in Ea.
  apply (@lstrip_starts _ t c (r ++ w)). exact Ea.
Qed.




End Ends.

Section ReadBack.
Context {U : Unicode}.
Hypothesis ok : Tables_ok U.
Hypothesis more : Tables_more U.

Lemma dot_one_line (t : str) : forallb dot t = true -> has_char NL t = false.
Proof.
  unfold has_char, dot, except.
  induction t as [|c r IH]; [reflexivity|]. cbn [existsb forallb].
  destruct (NL =? c)%N; [discriminate|exact IH].
Qed.






End ReadBack.

Section RoundTrip.
Context {U : Unicode}.
Hypothesis ok : Tables_ok U.
Hypothesis more : Tables_more U.





End RoundTrip.

Lemma latin_more : Tables_more latin.
Proof.
  constructor; [|reflexivity].
  intros c. unfold is_digit. cbn [decimal isspace latin].
  unfold latin_decimal, latin_isspace.
  destruct ((48 <=? c) && (c <=? 57))%N eqn:E; [|discriminate]. intros _.
  apply andb_prop in E. destruct E as [E1 E2].
  apply N.leb_le in E1. apply N.leb_le in E2.
  repeat match goal with
         | |- context [(?a <=? ?b)%N] =>
           destruct (N.leb_spec a b); try lia
         | |- context [(?a =? ?b)%N] =>
           destruct (N.eqb_spec a b); try lia
         end.
Qed.


(* ------------------------------------------------------------------ *)
(** * The texts of the entries hold no line break *)

Section SingleLine.
Context {U : Unicode}.

Lemma forallb_firstn (p : char -> bool) (n : nat) (t : str) :
  forallb p t = true -> forallb p (firstn n t) = true.
Proof.
  revert n. induction t as [|c r IH]; intros [|n] H; cbn; try reflexivity.
  cbn [forallb] in H. apply andb_prop in H. destruct H as [Hc Hr].
  rewrite Hc. apply IH, Hr.
Qed.

Lemma forallb_skipn (p : char -> bool) (n : nat) (t : str) :
  forallb p t = true -> forallb p (skipn n t) = true.
Proof.
  revert n. induction t as [|c r IH]; intros [|n] H; cbn; try reflexivity;
    [exact H|].
  cbn [forallb] in H. apply andb_prop in H. apply IH, H.
Qed.

(** The groups of a match are parts of the subject. *)
Lemma forallb_group (p : char -> bool) (pat : pattern) (s : str)
    (g : list str) (n : nat) :
  run pat s = Some g -> forallb p s = true -> forallb p (group g n) = true.
Proof.
  unfold run, group. destruct (exec pat 0 s no_caps) as [m|]; [|discriminate].
  intros E H. injection E as <-.
  destruct (nth_in_or_default (pred n) (map (substr s) (closed m)) [])
    as [Hin|E]; [|rewrite E; reflexivity].
  apply in_map_iff in Hin. destruct Hin as (span & <- & _).
  unfold substr. apply forallb_firstn, forallb_skipn, H.
Qed.

Lemma single_line_text_entry (line : str) (g : list str) (cat : option str) :
  forallb dot line = true ->
  run word_pattern line = Some g ->
  single_line (text_entry g cat).
Proof.
  intros Hdot E.
  assert (P : forallb (except RPAREN) (strip (group g 3)) = true).
  { rewrite <- (anchored_run _ Hdot) in E.
    destruct (headword_shape _ E)
      as (D & W1 & H & W2 & P & W3 & d & W4 & T & rest & _ & -> & _ & _
          & [HP _] & _).
    cbn [group pred nth]. apply forallb_strip, HP. }
  pose proof (fun n => forallb_strip _ _ (@forallb_group dot _ _ _ n E Hdot)) as G.
  unfold single_line, text_entry.
  cbn [english pronunciation polish example].
  destruct (find ex_colon (lower (strip (group g 4)))) as [ex_pos|];
    cbn [fst snd]; repeat split; auto.
  - apply forallb_strip, forallb_firstn, G.
  - intros e Ee. injection Ee as <-. apply forallb_strip, forallb_skipn, G.
  - discriminate.
Qed.

Lemma single_line_set_example (e : str) (w : word) :
  forallb dot e = true -> single_line w ->
  single_line (set_example (Some e) w).
Proof.
  unfold single_line. cbn [set_example english pronunciation polish example].
  intros He (H1 & H2 & H3 & H4 & _). repeat split; auto.
  intros e' E. injection E as <-. exact He.
Qed.

Lemma all_single_line_flush (st : pstate) :
  all_single_line st -> Forall single_line (flush st).
Proof.
  intros [Hw Hc]. unfold flush. destruct (current_word st) as [w|]; [|exact Hw].
  apply Forall_app. split; [exact Hw|]. constructor; [|constructor].
  apply Hc. reflexivity.
Qed.

Lemma all_single_line_text_line (st : pstate) (l : str) :
  forallb dot (strip l) = true ->
  all_single_line st -> all_single_line (text_line st l).
Proof.
  intros Hdot H. unfold text_line.
  destruct (is_skipped (strip l)); [exact H|].
  destruct (is_category (strip l)); [exact H|].
  destruct (run word_pattern (strip l)) as [g|] eqn:Ew.
  { split; cbn [words current_word].
    - apply all_single_line_flush, H.
    - intros w E. injection E as <-.
      eapply single_line_text_entry; eassumption. }
  assert (K : forall e w, forallb dot e = true -> current_word st = Some w ->
                all_single_line (with_example (strip e) w st)).
  { intros e w He Ec. destruct H as [Hw Hc]. split; [exact Hw|].
    cbn [with_example current_word]. intros w' E'. injection E' as <-.
    apply single_line_set_example; [apply forallb_strip, He|apply Hc, Ec]. }
  destruct (run example_pattern (strip l)) as [g|] eqn:Ee,
           (current_word st) as [w|] eqn:Ec;
    try destruct (startswith ex_colon (lower (strip l)));
    try exact H.
  - apply K; [apply (@forallb_group dot _ _ _ 1 Ee Hdot)|reflexivity].
  - apply K; [apply (@forallb_group dot _ _ _ 1 Ee Hdot)|reflexivity].
  - apply K; [apply forallb_skipn, Hdot|reflexivity].
Qed.

Lemma all_single_line_scan (lines : list str) : forall st,
  (forall l, In l lines -> forallb dot (strip l) = true) ->
  all_single_line st -> all_single_line (fold_left text_line lines st).
Proof.
  induction lines as [|l rest IH]; intros st Hd H; cbn [fold_left]; [exact H|].
  apply IH; [intros x Hx; apply Hd; right; exact Hx|].
  apply all_single_line_text_line; [apply Hd; left; reflexivity|exact H].
Qed.

(** X18.  No text of an entry that [parse_text] returns holds a line
    break, and no pronunciation holds a closing parenthesis. *)
Theorem X18_entries_on_one_line (text : str) :
  Forall single_line (parse_text text).
Proof.
  unfold parse_text, parse_lines.
  apply all_single_line_flush, all_single_line_scan.
  - intros l Hl. apply (line_of_text _ _ Hl).
  - split; [constructor|discriminate].
Qed.

End SingleLine.

(* ------------------------------------------------------------------ *)
(** * A paragraph that holds a headword and its example *)

Section Paired.
Context {U : Unicode}.
Hypothesis more : Tables_more U.

Lemma example_shape (s : str) (g : list str) :
  run example_pattern s = Some g ->
  exists c1 c2 W G rest,
    s = c1 :: c2 :: COLON :: W ++ G ++ rest
    /\ g = [G] /\ forallb isspace W = true
    /\ (rest = [] \/ rest = [NL]).
Proof.
  unfold run. destruct (exec _ 0 s no_caps) as [m|] eqn:X; [|discriminate].
  intros E. injection E as <-. unfold example_pattern in X.
  change (exec (Caret :: ?r) 0 ?t ?c) with (exec r 0 t c) in X.
  apply exec_one_sound in X. destruct X as (c1 & s1 & -> & _ & X).
  apply exec_one_sound in X. destruct X as (c2 & s2 & -> & _ & X).
  apply exec_one_sound in X. destruct X as (c3 & s3 & -> & Hc3 & X).
  apply N.eqb_eq in Hc3. subst c3.
  rewrite exec_greedy in X.
  apply many_greedy_sound in X. destruct X as (W & s4 & -> & HW & _ & X).
  rewrite exec_open, exec_greedy in X.
  apply many_greedy_sound in X. destruct X as (G & rest & -> & _ & _ & X).
  cbn [opened closed no_caps] in X. rewrite exec_close in X.
  assert (R : (rest = [] \/ rest = [NL])
              /\ closed m = [ (3 + List.length W,
                               3 + List.length W + List.length G) ]).
  { cbn [exec] in X. destruct rest as [|c [|c' r']]; [| |discriminate].
    - injection X as <-. auto.
    - destruct (c =? NL)%N eqn:Ec; [|discriminate].
      apply N.eqb_eq in Ec. subst c. injection X as <-. auto. }
  destruct R as [Hrest C].
  exists c1, c2, W, G, rest. split; [reflexivity|]. split; [|auto].
  rewrite C. cbn [map]. f_equal.
  apply (@substr_in _ (c1 :: c2 :: COLON :: W) G rest).
  - reflexivity.
  - cbn [List.length]. lia.
  - reflexivity.
Qed.

(** On a line without line break, what the pattern of the examples
    captures is what follows the first three characters. *)
Lemma example_group (s : str) (g : list str) :
  forallb dot s = true ->
  run example_pattern s = Some g ->
  strip (group g 1) = strip (skipn 3 s).
Proof.
  intros Hdot E.
  destruct (example_shape _ E) as (c1 & c2 & W & G & rest & -> & -> & HW & Hr).
  cbn [group pred nth skipn].
  assert (Er : rest = []).
  { destruct Hr as [->| ->]; [reflexivity|]. exfalso.
    rewrite forallb_forall in Hdot.
    assert (K : dot NL = true).
    { apply Hdot. cbn [In]. right. right. right.
      apply in_or_app. right. apply in_or_app. right. left. reflexivity. }
    discriminate K. }
  subst rest. rewrite app_nil_r. unfold strip.
  rewrite lstrip_spaces by exact HW. reflexivity.
Qed.

(** A stripped paragraph that begins with a headword line is not
    skipped. *)
Lemma paired_not_skipped (para a b : str) (g : list str) :
  strip para = a ++ NL :: b ->
  forallb dot a = true ->
  run word_pattern (strip a) = Some g ->
  is_skipped (strip para) = false.
Proof.
  intros E Da Er.
  rewrite <- (anchored_run _ (forallb_strip _ _ Da)) in Er.
  destruct (headword_shape _ Er)
    as (D & W1 & H & W2 & P & W3 & d & W4 & T & rest & Ea & _ & [HD HDn] & _).
  destruct D as [|c D']; [contradiction|].
  cbn [forallb] in HD. apply andb_prop in HD. destruct HD as [Hc _].
  assert (Hy : c <> HYPHEN).
  { intros ->. unfold is_digit in Hc. rewrite (hyphen_no_digit more) in Hc.
    discriminate. }
  destruct a as [|x a'].
  - cbn in Ea. discriminate.
  - assert (Hx : isspace x = false).
    { apply (@strip_starts _ para x (a' ++ NL :: b)). exact E. }
    unfold strip in Ea. cbn [lstrip] in Ea. rewrite Hx in Ea.
    destruct (rstrip_split (x :: a')) as (w & Ew & _). rewrite Ea in Ew.
    cbn [app] in Ew. injection Ew as -> _.
    rewrite E. apply not_skipped, Hy.
Qed.

(** X19.  A paragraph that holds one line break, a headword line before
    it and a line that begins with "ex:" after it, is read by
    [parse_document] as [parse_text] reads the two lines: the entry of
    the headword, with what follows "ex:" as its example.  This is so
    when the paragraph is not entirely in upper case and the headword
    line does not hold an "ex:" of its own. *)
Theorem X19_headword_with_its_example (st : pstate) (para a b : str) :
  strip para = a ++ NL :: b ->
  forallb dot a = true -> forallb dot b = true ->
  is_category (strip para) = false ->
  is_headword a = true -> holds_example a = false ->
  is_example_line b = true ->
  document_paragraph st para = fold_left text_line (split NL (strip para)) st.
Proof.
  intros E Da Db Hc Hh Hx He.
  assert (Sp : split NL (strip para) = [a; b]).
  { rewrite E, split_sep, (split_one_line a), (split_one_line b)
      by (apply dot_one_line; assumption).
    reflexivity. }
  rewrite Sp. cbn [fold_left].
  unfold is_headword, matches in Hh. unfold holds_example in Hx.
  apply andb_prop in Hh. destruct Hh as [Hh Hm].
  apply andb_prop in Hh. destruct Hh as [Hs Hca].
  apply negb_true_iff in Hs. apply negb_true_iff in Hca.
  destruct (run word_pattern (strip a)) as [g|] eqn:Er; [|discriminate].
  unfold is_example_line, matches in He.
  apply andb_prop in He. destruct He as [He Hex].
  apply andb_prop in He. destruct He as [He Hnw].
  apply andb_prop in He. destruct He as [Hsb Hcb].
  apply negb_true_iff in Hsb. apply negb_true_iff in Hcb.
  destruct (run word_pattern (strip b)) as [g'|] eqn:Erb; [discriminate|].
  assert (Ta : text_line st a
               = {| words := flush st; current_category := current_category st;
                    current_word :=
                      Some (document_entry g None (current_category st)) |}).
  { unfold text_line. rewrite Hs, Hca, Er, (entry_without_example _ _ Hx).
    reflexivity. }
  rewrite Ta.
  assert (Tb : forall w st1, current_word st1 = Some w ->
                 text_line st1 b
                 = with_example (strip (skipn 3 (strip b))) w st1).
  { intros w st1 Ew. unfold text_line. rewrite Hsb, Hcb, Erb, Ew, Hex.
    destruct (run example_pattern (strip b)) as [ge|] eqn:Ee; [|reflexivity].
    rewrite (@example_group _ _ (forallb_strip _ _ Db) Ee). reflexivity. }
  erewrite Tb by reflexivity.
  unfold document_paragraph, paired_paragraph.
  rewrite (@paired_not_skipped para a b g E Da Er), Hc, Sp.
  rewrite E, has_char_app. cbn [has_char existsb nth List.length Nat.ltb Nat.leb].
  rewrite N.eqb_refl, orb_true_r, Er, Hex. reflexivity.
Qed.

End Paired.

Lemma X19_witness :
  document_paragraph (U:=latin) start paired_entry
  = fold_left (text_line (U:=latin)) (split NL (strip (U:=latin) paired_entry))
              start.
Proof.
  apply (@X19_headword_with_its_example latin latin_more start paired_entry
           (u "1. run (ran) – biegać") (u "ex: She runs fast."));
    vm_compute; reflexivity.
Defined.
